(** * PyLops-MPI post-stack inversion tutorials: the two driver scripts

    The repository holds two Python scripts,
    [tutorials_cupy/poststack_cupy.py] and [tutorials_nccl/poststack_nccl.py].
    Both are sequences of calls into external libraries (NumPy, CuPy, SciPy,
    mpi4py, PyLops, PyLops-MPI, Matplotlib), with one conditional.

    What is said about the scripts is said about their text (which calls
    they make, with which arguments, in which order, which names they read)
    and about their runs.  So the scripts are kept as lists of statements and
    run by an interpreter:
    - [Python]: the fragment of Python the scripts are written in, and an
      executable interpreter that threads the name space, the state of the
      external libraries and the log of library calls; the libraries are a
      parameter of the interpreter;
    - [Syntax], [Structure]: the names a statement reads and binds, the
      calls it contains, the parts of a script;
    - [Scripts]: the two scripts, statement by statement;
    - [Numpy]: the array operations of lines 43-82 (slicing, [np.tile],
      [transpose], [allreduce], [allgather], [np.concatenate]) on arrays
      with explicit shapes;
    - [Demo]: a small stand-in for the libraries, to run the scripts;
    - [Properties], [Theory], [NumpyFacts], [Claims], [Examples]: the
      facts. *)

From Stdlib Require Import ZArith List Sorted Lia.
From stdpp Require Import base option list gmap strings.

Set Warnings "-register-all".
Local Open Scope string_scope.
Local Open Scope list_scope.
Local Open Scope Z_scope.

(** ** The Python fragment *)

Module Python.

(** Binary operators that occur in the scripts. *)
Inductive binop := Add | Mult | Div | FloorDiv | Mod | MatMult.

(** Expressions.  [EFloat m e] is the decimal literal [m * 10^e]. *)
Inductive expr :=
| EName (id : string)
| EInt (n : Z)
| EFloat (m e : Z)
| EStr (s : string)
| EBool (b : bool)
| EAttr (value : expr) (attr : string)
| ECall (func : expr) (args : list expr) (keywords : list (string * expr))
| ESubscript (value : expr) (slice : expr)
| ESlice (lower upper step : option expr)
| ETuple (elts : list expr)
| EList (elts : list expr)
| EBinOp (left : expr) (op : binop) (right : expr)
| EUSub (operand : expr)
| ECompareEq (left right : expr).

(** Statements.  The scripts use imports, assignments, expression
    statements and one [if]; [STry] is Python's [try: ... except: ...]. *)
Inductive stmt :=
| SImport (module asname : string)
| SImportFrom (module name asname : string)
| SAssign (target : expr) (value : expr)
| SExpr (value : expr)
| SIf (test : expr) (body orelse : list stmt)
| STry (body handler : list stmt).

(** [$"x"] is the name [x] and [e#"a"] the attribute [e.a]. *)
Notation "$ x" := (EName x) (at level 5, format "$ x").
Notation "e # a" := (EAttr e a) (at level 8, left associativity, format "e # a").

(** Values.  [VObj tag parts] is an object owned by a library (a module,
    an array, an operator, a figure ...); the interpreter never looks
    inside one. *)
Inductive val :=
| VInt (n : Z)
| VFloat (m e : Z)
| VStr (s : string)
| VBool (b : bool)
| VNone
| VTuple (l : list val)
| VList (l : list val)
| VSlice (lower upper step : option val)
| VObj (tag : string) (parts : list val).

(** What the interpreter asks of the libraries. *)
Inductive query :=
| QGetAttr (o : val) (attr : string)
| QCall (f : val) (args : list val) (kw : list (string * val))
| QGetItem (o : val) (idx : val)
| QSetItem (o : val) (idx : val) (v : val)
| QBinOp (op : binop) (l r : val)
| QNeg (v : val)
| QEq (l r : val).

(** A library call returns a value or raises an exception. *)
Inductive result (A : Type) :=
| Ok (a : A)
| Raise (exc : val).
Arguments Ok {A} a.
Arguments Raise {A} exc.

(** The external libraries: a state and the answer to each query. *)
Record library := Library {
  lstate : Type;
  respond : lstate -> query -> lstate * result val
}.

(** Exceptions raised by the interpreter itself, and built-in names. *)
Definition exn (name : string) : val := VObj name [].
Definition builtin (name : string) : val := VObj "builtin" [VStr name].

(** The names that are bound before the first statement runs: the two
    built-ins the scripts use. *)
Definition builtins : gmap string val :=
  <["float" := builtin "float"]> (<["print" := builtin "print"]> ∅).

(** Python's truth value of an object; a library object without
    [__bool__] is true. *)
Definition truthy (v : val) : bool :=
  match v with
  | VInt n => negb (n =? 0)
  | VFloat m _ => negb (m =? 0)
  | VStr s => negb (String.eqb s "")
  | VBool b => b
  | VNone => false
  | VTuple l | VList l => negb (Nat.eqb (length l) 0)
  | VSlice _ _ _ => true
  | VObj _ _ => true
  end.

(** [int] arithmetic done by the interpreter itself; [//] and [%] round
    towards minus infinity, as [Z.div] and [Z.modulo] do.  [/] yields a
    float and [@] is not defined on [int]: both are left to the library. *)
Definition int_binop (op : binop) (a b : Z) : option (result val) :=
  match op with
  | Add => Some (Ok (VInt (a + b)))
  | Mult => Some (Ok (VInt (a * b)))
  | FloorDiv =>
      Some (if b =? 0 then Raise (exn "ZeroDivisionError") else Ok (VInt (a / b)))
  | Mod =>
      Some (if b =? 0 then Raise (exn "ZeroDivisionError") else Ok (VInt (a mod b)))
  | Div | MatMult => None
  end.

(** Indexing a tuple or a list by an [int]: negative indices count from
    the end. *)
Definition seq_index (l : list val) (i : Z) : result val :=
  let n := Z.of_nat (length l) in
  let j := if i <? 0 then i + n else i in
  if (j <? 0) || (n <=? j) then Raise (exn "IndexError")
  else match nth_error l (Z.to_nat j) with
       | Some v => Ok v
       | None => Raise (exn "IndexError")
       end.

Section Interpreter.

Variable L : library.

(** The interpreter state: the module's name space, the state of the
    libraries, and the library calls made so far with their answers, oldest
    first. *)
Record state := State {
  store : gmap string val;
  lib : lstate L;
  log : list (query * result val)
}.

Definition M (A : Type) : Type := state -> state * result A.

Definition ret {A} (a : A) : M A := fun st => (st, Ok a).
Definition raise {A} (e : val) : M A := fun st => (st, Raise e).
Definition bind {A B} (m : M A) (k : A -> M B) : M B :=
  fun st =>
    match m st with
    | (st', Ok a) => k a st'
    | (st', Raise e) => (st', Raise e)
    end.
Definition lift {A} (r : result A) : M A := fun st => (st, r).

Notation "x <- m ;; k" := (bind m (fun x => k))
  (at level 100, m at next level, right associativity).

(** One library call: the answer is logged. *)
Definition ask (q : query) : M val :=
  fun st =>
    let '(s', a) := respond L (lib st) q in
    (State (store st) s' (log st ++ [(q, a)]), a).

Definition lookup_name (x : string) : M val :=
  fun st =>
    match store st !! x with
    | Some v => (st, Ok v)
    | None => (st, Raise (exn "NameError"))
    end.

Definition set_name (x : string) (v : val) : M unit :=
  fun st => (State (<[x := v]> (store st)) (lib st) (log st), Ok tt).

Definition getitem (o i : val) : M val :=
  match o, i with
  | VTuple l, VInt n | VList l, VInt n => lift (seq_index l n)
  | _, _ => ask (QGetItem o i)
  end.

Definition apply_binop (op : binop) (l r : val) : M val :=
  match l, r with
  | VInt a, VInt b =>
      match int_binop op a b with
      | Some res => lift res
      | None => ask (QBinOp op l r)
      end
  | _, _ => ask (QBinOp op l r)
  end.

Definition negate (v : val) : M val :=
  match v with
  | VInt n => ret (VInt (- n))
  | VFloat m e => ret (VFloat (- m) e)
  | _ => ask (QNeg v)
  end.

Definition compare_eq (l r : val) : M val :=
  match l, r with
  | VInt a, VInt b => ret (VBool (a =? b))
  | _, _ => ask (QEq l r)
  end.

(** Evaluation of a list of operands, left to right, and of an optional
    operand. *)
Definition mapM {A B} (f : A -> M B) : list A -> M (list B) :=
  fix go (l : list A) : M (list B) :=
    match l with
    | [] => ret []
    | a :: l' => v <- f a ;; vs <- go l' ;; ret (v :: vs)
    end.

Definition optM {A B} (f : A -> M B) (o : option A) : M (option B) :=
  match o with
  | None => ret None
  | Some a => v <- f a ;; ret (Some v)
  end.

(** Evaluation of an expression: operands left to right, positional
    arguments before keyword arguments. *)
Fixpoint eval (e : expr) : M val :=
  match e with
  | EName x => lookup_name x
  | EInt n => ret (VInt n)
  | EFloat m e => ret (VFloat m e)
  | EStr s => ret (VStr s)
  | EBool b => ret (VBool b)
  | EAttr e a => v <- eval e ;; ask (QGetAttr v a)
  | ECall f args kws =>
      fv <- eval f ;;
      avs <- mapM eval args ;;
      kvs <- mapM (fun ka => v <- eval (snd ka) ;; ret (fst ka, v)) kws ;;
      ask (QCall fv avs kvs)
  | ESubscript e i => v <- eval e ;; iv <- eval i ;; getitem v iv
  | ESlice lo hi st =>
      l <- optM eval lo ;; h <- optM eval hi ;; s <- optM eval st ;;
      ret (VSlice l h s)
  | ETuple es => vs <- mapM eval es ;; ret (VTuple vs)
  | EList es => vs <- mapM eval es ;; ret (VList vs)
  | EBinOp l op r => lv <- eval l ;; rv <- eval r ;; apply_binop op lv rv
  | EUSub e => v <- eval e ;; negate v
  | ECompareEq l r => lv <- eval l ;; rv <- eval r ;; compare_eq lv rv
  end.

(** Binding the names of a target list to the items of a sequence. *)
Fixpoint unpack (targets : list expr) (vs : list val) : M unit :=
  match targets, vs with
  | [], [] => ret tt
  | EName x :: ts, v :: vs' => _ <- set_name x v ;; unpack ts vs'
  | EName _ :: _, [] | [], _ :: _ => raise (exn "ValueError")
  | _ :: _, _ => raise (exn "UnsupportedTarget")
  end.

(** Assignment of an evaluated value to a target: a name, a tuple or list
    of names, or [o[i]], which is a call into the library that owns [o].
    The scripts unpack tuples only; the iteration protocol on library
    objects is not modelled. *)
Definition assign (target : expr) (v : val) : M unit :=
  match target with
  | EName x => set_name x v
  | ETuple ts | EList ts =>
      match v with
      | VTuple vs | VList vs =>
          if Nat.eqb (length ts) (length vs) then unpack ts vs
          else raise (exn "ValueError")
      | _ => raise (exn "TypeError")
      end
  | ESubscript o i =>
      ov <- eval o ;; iv <- eval i ;; _ <- ask (QSetItem ov iv v) ;; ret tt
  | _ => raise (exn "UnsupportedTarget")
  end.

(** [import m] and [from m import n] run library code: the module is
    obtained from the import machinery, the name from the module. *)
Definition import_module (m : string) : M val :=
  ask (QCall (builtin "__import__") [VStr m] []).

(** A block runs its statements in order and stops at the first exception. *)
Definition blockM (f : stmt -> M unit) : list stmt -> M unit :=
  fix go (l : list stmt) : M unit :=
    match l with
    | [] => ret tt
    | s :: l' => _ <- f s ;; go l'
    end.

(** [try: body except: handler]: an exception raised in [body] is caught
    and [handler] runs from the state the exception left. *)
Definition catch (body handler : M unit) : M unit :=
  fun st =>
    match body st with
    | (st', Ok tt) => (st', Ok tt)
    | (st', Raise _) => handler st'
    end.

Fixpoint exec (s : stmt) : M unit :=
  match s with
  | SImport m a => v <- import_module m ;; set_name a v
  | SImportFrom m n a =>
      mv <- import_module m ;; v <- ask (QGetAttr mv n) ;; set_name a v
  | SAssign target value => v <- eval value ;; assign target v
  | SExpr value => _ <- eval value ;; ret tt
  | SIf test body orelse =>
      t <- eval test ;;
      if truthy t then blockM exec body else blockM exec orelse
  | STry body handler => catch (blockM exec body) (blockM exec handler)
  end.

Definition exec_block : list stmt -> M unit := blockM exec.

(** A run of a script: from the built-in names, a given library state and
    an empty log. *)
Definition run (script : list stmt) (s0 : lstate L) : state * result unit :=
  exec_block script (State builtins s0 []).

End Interpreter.

End Python.

(** ** Reading the program text

    Which names a statement reads and binds, and which calls it contains. *)

Module Syntax.
Import Python.

(** The names an expression reads. *)
Fixpoint names (e : expr) : list string :=
  match e with
  | EName x => [x]
  | EInt _ | EFloat _ _ | EStr _ | EBool _ => []
  | EAttr e _ => names e
  | ECall f args kws =>
      names f ++ flat_map names args ++ flat_map (fun ka => names (snd ka)) kws
  | ESubscript e i => names e ++ names i
  | ESlice lo hi st =>
      from_option names [] lo ++ from_option names [] hi ++ from_option names [] st
  | ETuple es | EList es => flat_map names es
  | EBinOp l _ r => names l ++ names r
  | EUSub e => names e
  | ECompareEq l r => names l ++ names r
  end.

(** The names an assignment target binds, and the names it reads (the
    object and the index of [o[i] = v]). *)
Definition target_stores (t : expr) : list string :=
  match t with
  | EName x => [x]
  | ETuple ts | EList ts =>
      flat_map (fun t' => match t' with EName x => [x] | _ => [] end) ts
  | _ => []
  end.

Definition target_loads (t : expr) : list string :=
  match t with
  | ESubscript o i => names o ++ names i
  | _ => []
  end.

Fixpoint stores (s : stmt) : list string :=
  match s with
  | SImport _ a | SImportFrom _ _ a => [a]
  | SAssign t _ => target_stores t
  | SExpr _ => []
  | SIf _ b o | STry b o => flat_map stores b ++ flat_map stores o
  end.

Fixpoint loads (s : stmt) : list string :=
  match s with
  | SImport _ _ | SImportFrom _ _ _ => []
  | SAssign t v => names v ++ target_loads t
  | SExpr v => names v
  | SIf t b o => names t ++ flat_map loads b ++ flat_map loads o
  | STry b h => flat_map loads b ++ flat_map loads h
  end.

(** All call expressions inside an expression, outermost first. *)
Fixpoint calls (e : expr) : list expr :=
  match e with
  | EName _ | EInt _ | EFloat _ _ | EStr _ | EBool _ => []
  | EAttr e _ => calls e
  | ECall f args kws =>
      e :: calls f ++ flat_map calls args ++ flat_map (fun ka => calls (snd ka)) kws
  | ESubscript e i => calls e ++ calls i
  | ESlice lo hi st =>
      from_option calls [] lo ++ from_option calls [] hi ++ from_option calls [] st
  | ETuple es | EList es => flat_map calls es
  | EBinOp l _ r => calls l ++ calls r
  | EUSub e => calls e
  | ECompareEq l r => calls l ++ calls r
  end.

Fixpoint stmt_calls (s : stmt) : list expr :=
  match s with
  | SImport _ _ | SImportFrom _ _ _ => []
  | SAssign t v => calls v ++ calls t
  | SExpr v => calls v
  | SIf t b o => calls t ++ flat_map stmt_calls b ++ flat_map stmt_calls o
  | STry b h => flat_map stmt_calls b ++ flat_map stmt_calls h
  end.

(** Number of [if] and of [try] statements, at any depth. *)
Fixpoint count_if (s : stmt) : nat :=
  match s with
  | SIf _ b o => S (list_sum (map count_if b) + list_sum (map count_if o))
  | STry b h => (list_sum (map count_if b) + list_sum (map count_if h))%nat
  | _ => 0%nat
  end.

Fixpoint count_try (s : stmt) : nat :=
  match s with
  | STry b h => S (list_sum (map count_try b) + list_sum (map count_try h))
  | SIf _ b o => (list_sum (map count_try b) + list_sum (map count_try o))%nat
  | _ => 0%nat
  end.

(** Statements without [try] (unless [with_try]) and without assignment to
    an item [o[i] = v] (unless [with_setitem]), at any depth. *)
Fixpoint plain (with_try with_setitem : bool) (s : stmt) : bool :=
  match s with
  | SAssign (ESubscript _ _) _ => with_setitem
  | SIf _ b o =>
      forallb (plain with_try with_setitem) b && forallb (plain with_try with_setitem) o
  | STry b h =>
      with_try && forallb (plain with_try with_setitem) b
      && forallb (plain with_try with_setitem) h
  | _ => true
  end.

(** The modules a script imports. *)
Definition imported (s : stmt) : list string :=
  match s with
  | SImport m _ | SImportFrom m _ _ => [m]
  | _ => []
  end.

(** The dotted path of a name or attribute chain: [np.load] is
    [["np"; "load"]]. *)
Fixpoint dotted (e : expr) : option (list string) :=
  match e with
  | EName x => Some [x]
  | EAttr e a => match dotted e with Some p => Some ((p ++ [a])%list) | None => None end
  | _ => None
  end.

(** *** Names bound before they are read *)

(** [x] is one of the names [bound]. *)
Definition inb (bound : list string) (x : string) : bool := bool_decide (x ∈ bound).

(** The names a statement has bound when it ends without exception: an
    [if] or a [try] may or may not have run its blocks, so they count for
    nothing. *)
Definition top_stores (s : stmt) : list string :=
  match s with
  | SImport _ a | SImportFrom _ _ a => [a]
  | SAssign t _ => target_stores t
  | _ => []
  end.

(** A block in which every statement is checked with the names bound by
    the statements before it. *)
Definition scoped_block (f : list string -> stmt -> bool) :
    list string -> list stmt -> bool :=
  fix go (bound : list string) (l : list stmt) : bool :=
    match l with
    | [] => true
    | s :: l' => f bound s && go (top_stores s ++ bound) l'
    end.

(** Every name a statement reads is bound before, on every path. *)
Fixpoint wellscoped (bound : list string) (s : stmt) {struct s} : bool :=
  match s with
  | SImport _ _ | SImportFrom _ _ _ => true
  | SAssign t v => forallb (inb bound) (names v) && forallb (inb bound) (target_loads t)
  | SExpr v => forallb (inb bound) (names v)
  | SIf t b o =>
      forallb (inb bound) (names t)
      && scoped_block wellscoped bound b && scoped_block wellscoped bound o
  | STry b h => scoped_block wellscoped bound b && scoped_block wellscoped bound h
  end.

(** The names bound when a block has run to its end. *)
Definition bound_after (bound : list string) (blk : list stmt) : list string :=
  fold_left (fun b s => top_stores s ++ b) blk bound.

(** The attributes an expression reads, in the order of evaluation. *)
Fixpoint attrs (e : expr) : list string :=
  match e with
  | EName _ | EInt _ | EFloat _ _ | EStr _ | EBool _ => []
  | EAttr e a => attrs e ++ [a]
  | ECall f args kws =>
      attrs f ++ flat_map attrs args ++ flat_map (fun ka => attrs (snd ka)) kws
  | ESubscript e i => attrs e ++ attrs i
  | ESlice lo hi st =>
      from_option attrs [] lo ++ from_option attrs [] hi ++ from_option attrs [] st
  | ETuple es | EList es => flat_map attrs es
  | EBinOp l _ r => attrs l ++ attrs r
  | EUSub e => attrs e
  | ECompareEq l r => attrs l ++ attrs r
  end.

(** The attributes read by a statement that is neither an [if] nor a
    [try]: those of the value before those of the target;
    [from m import n] reads [n] of the module. *)
Definition stmt_attrs (s : stmt) : list string :=
  match s with
  | SImport _ _ => []
  | SImportFrom _ n _ => [n]
  | SAssign t v =>
      attrs v ++ match t with
                 | ESubscript o i => attrs o ++ attrs i
                 | _ => []
                 end
  | SExpr v => attrs v
  | SIf _ _ _ | STry _ _ => []
  end.

Definition straight (s : stmt) : bool :=
  match s with
  | SIf _ _ _ | STry _ _ => false
  | _ => true
  end.

End Syntax.

(** ** The two scripts

    Each statement is preceded by its line in the source file.  The module
    docstring (an expression statement without effect) and the comments of
    the source are left out. *)

Module Scripts.
Import Python.

(** [tutorials_cupy/poststack_cupy.py] *)
Definition poststack_cupy : list stmt :=
  [ (* line 9: import numpy as np *)
    SImport "numpy" "np"
  ; (* line 10: import cupy as cp *)
    SImport "cupy" "cp"
  ; (* line 11: from scipy.signal import filtfilt *)
    SImportFrom "scipy.signal" "filtfilt" "filtfilt"
  ; (* line 12: from matplotlib import pyplot as plt *)
    SImportFrom "matplotlib" "pyplot" "plt"
  ; (* line 13: from mpi4py import MPI *)
    SImportFrom "mpi4py" "MPI" "MPI"
  ; (* line 15: from pylops.utils.wavelets import ricker *)
    SImportFrom "pylops.utils.wavelets" "ricker" "ricker"
  ; (* line 16: from pylops.basicoperators import Transpose *)
    SImportFrom "pylops.basicoperators" "Transpose" "Transpose"
  ; (* line 17: from pylops.avo.poststack import PoststackLinearModelling *)
    SImportFrom "pylops.avo.poststack" "PoststackLinearModelling" "PoststackLinearModelling"
  ; (* line 19: import pylops_mpi *)
    SImport "pylops_mpi" "pylops_mpi"
  ; (* line 30: plt.close("all") *)
    SExpr (ECall $"plt"#"close" [EStr "all"] [])
  ; (* line 31: rank = MPI.COMM_WORLD.Get_rank() *)
    SAssign $"rank" (ECall $"MPI"#"COMM_WORLD"#"Get_rank" [] [])
  ; (* line 32: device_count = cp.cuda.runtime.getDeviceCount() *)
    SAssign $"device_count" (ECall $"cp"#"cuda"#"runtime"#"getDeviceCount" [] [])
  ; (* line 33: cp.cuda.Device(rank % device_count).use() *)
    SExpr
      (ECall (ECall $"cp"#"cuda"#"Device" [EBinOp $"rank" Mod $"device_count"] [])#"use" [] [])
  ; (* line 42: model = np.load("../testdata/avo/poststack_model.npz") *)
    SAssign $"model" (ECall $"np"#"load" [EStr "../testdata/avo/poststack_model.npz"] [])
  ; (* line 43: x, z, m = model['x'][::3], model['z'], np.log(model['model'])[:, ::3] *)
    SAssign (ETuple [$"x"; $"z"; $"m"])
      (ETuple
         [ ESubscript (ESubscript $"model" (EStr "x")) (ESlice None None (Some (EInt 3)))
         ; ESubscript $"model" (EStr "z")
         ; ESubscript (ECall $"np"#"log" [ESubscript $"model" (EStr "model")] [])
             (ETuple [ESlice None None None; ESlice None None (Some (EInt 3))])
         ])
  ; (* line 46: ny_i = 20 *)
    SAssign $"ny_i" (EInt 20)
  ; (* line 47: y = np.arange(ny_i) *)
    SAssign $"y" (ECall $"np"#"arange" [$"ny_i"] [])
  ; (* line 48: m3d_i = np.tile(m[:, :, np.newaxis], (1, 1, ny_i)).transpose((2, 1, 0)) *)
    SAssign $"m3d_i"
      (ECall
         (ECall $"np"#"tile"
            [ ESubscript $"m"
                (ETuple [ESlice None None None; ESlice None None None; $"np"#"newaxis"])
            ; ETuple [EInt 1; EInt 1; $"ny_i"]
            ]
            [])#"transpose"
         [ETuple [EInt 2; EInt 1; EInt 0]]
         [])
  ; (* line 49: ny_i, nx, nz = m3d_i.shape *)
    SAssign (ETuple [$"ny_i"; $"nx"; $"nz"]) $"m3d_i"#"shape"
  ; (* line 52: ny = MPI.COMM_WORLD.allreduce(ny_i) *)
    SAssign $"ny" (ECall $"MPI"#"COMM_WORLD"#"allreduce" [$"ny_i"] [])
  ; (* line 55: nsmoothy, nsmoothx, nsmoothz = 5, 30, 20 *)
    SAssign (ETuple [$"nsmoothy"; $"nsmoothx"; $"nsmoothz"]) (ETuple [EInt 5; EInt 30; EInt 20])
  ; (* line 56: mback3d_i = filtfilt(np.ones(nsmoothy) / float(nsmoothy), 1, m3d_i, axis=0) *)
    SAssign $"mback3d_i"
      (ECall $"filtfilt"
         [ EBinOp (ECall $"np"#"ones" [$"nsmoothy"] []) Div (ECall $"float" [$"nsmoothy"] [])
         ; EInt 1
         ; $"m3d_i"
         ]
         [("axis", EInt 0)])
  ; (* line 57: mback3d_i = filtfilt(np.ones(nsmoothx) / float(nsmoothx), 1, mback3d_i, axis=1) *)
    SAssign $"mback3d_i"
      (ECall $"filtfilt"
         [ EBinOp (ECall $"np"#"ones" [$"nsmoothx"] []) Div (ECall $"float" [$"nsmoothx"] [])
         ; EInt 1
         ; $"mback3d_i"
         ]
         [("axis", EInt 1)])
  ; (* line 58: mback3d_i = filtfilt(np.ones(nsmoothz) / float(nsmoothz), 1, mback3d_i, axis=2) *)
    SAssign $"mback3d_i"
      (ECall $"filtfilt"
         [ EBinOp (ECall $"np"#"ones" [$"nsmoothz"] []) Div (ECall $"float" [$"nsmoothz"] [])
         ; EInt 1
         ; $"mback3d_i"
         ]
         [("axis", EInt 2)])
  ; (* line 61: dt = 0.004 *)
    SAssign $"dt" (EFloat 4 (-3))
  ; (* line 62: t0 = np.arange(nz) * dt *)
    SAssign $"t0" (EBinOp (ECall $"np"#"arange" [$"nz"] []) Mult $"dt")
  ; (* line 63: ntwav = 41 *)
    SAssign $"ntwav" (EInt 41)
  ; (* line 64: wav = ricker(t0[:ntwav // 2 + 1], 15)[0] *)
    SAssign $"wav"
      (ESubscript
         (ECall $"ricker"
            [ ESubscript $"t0"
                (ESlice None (Some (EBinOp (EBinOp $"ntwav" FloorDiv (EInt 2)) Add (EInt 1)))
                   None)
            ; EInt 15
            ]
            [])
         (EInt 0))
  ; (* line 67: m3d = np.concatenate(MPI.COMM_WORLD.allgather(m3d_i)) *)
    SAssign $"m3d"
      (ECall $"np"#"concatenate" [ECall $"MPI"#"COMM_WORLD"#"allgather" [$"m3d_i"] []] [])
  ; (* line 68: mback3d = np.concatenate(MPI.COMM_WORLD.allgather(mback3d_i)) *)
    SAssign $"mback3d"
      (ECall $"np"#"concatenate" [ECall $"MPI"#"COMM_WORLD"#"allgather" [$"mback3d_i"] []] [])
  ; (* line 75: m3d_dist = pylops_mpi.DistributedArray(global_shape=ny * nx * nz, engine="cupy") *)
    SAssign $"m3d_dist"
      (ECall $"pylops_mpi"#"DistributedArray" []
         [ ("global_shape", EBinOp (EBinOp $"ny" Mult $"nx") Mult $"nz")
         ; ("engine", EStr "cupy")
         ])
  ; (* line 77: m3d_dist[:] = cp.asarray(m3d_i.flatten()) *)
    SAssign (ESubscript $"m3d_dist" (ESlice None None None))
      (ECall $"cp"#"asarray" [ECall $"m3d_i"#"flatten" [] []] [])
  ; (* line 80: mback3d_dist = pylops_mpi.DistributedArray(global_shape=ny * nx * nz, engine="cupy") *)
    SAssign $"mback3d_dist"
      (ECall $"pylops_mpi"#"DistributedArray" []
         [ ("global_shape", EBinOp (EBinOp $"ny" Mult $"nx") Mult $"nz")
         ; ("engine", EStr "cupy")
         ])
  ; (* line 82: mback3d_dist[:] = cp.asarray(mback3d_i.flatten()) *)
    SAssign (ESubscript $"mback3d_dist" (ESlice None None None))
      (ECall $"cp"#"asarray" [ECall $"mback3d_i"#"flatten" [] []] [])
  ; (* line 90: PPop = PoststackLinearModelling(cp.asarray(wav.astype(np.float32)), nt0=nz, spatdims=(ny_i, nx)) *)
    SAssign $"PPop"
      (ECall $"PoststackLinearModelling"
         [ECall $"cp"#"asarray" [ECall $"wav"#"astype" [$"np"#"float32"] []] []]
         [("nt0", $"nz"); ("spatdims", ETuple [$"ny_i"; $"nx"])])
  ; (* line 92: Top = Transpose((ny_i, nx, nz), (2, 0, 1)) *)
    SAssign $"Top"
      (ECall $"Transpose" [ETuple [$"ny_i"; $"nx"; $"nz"]; ETuple [EInt 2; EInt 0; EInt 1]] [])
  ; (* line 93: BDiag = pylops_mpi.basicoperators.MPIBlockDiag(ops=[Top.H @ PPop @ Top, ]) *)
    SAssign $"BDiag"
      (ECall $"pylops_mpi"#"basicoperators"#"MPIBlockDiag" []
         [("ops", EList [EBinOp (EBinOp $"Top"#"H" MatMult $"PPop") MatMult $"Top"])])
  ; (* line 100: d_dist = BDiag @ m3d_dist *)
    SAssign $"d_dist" (EBinOp $"BDiag" MatMult $"m3d_dist")
  ; (* line 101: d_local = d_dist.local_array.reshape((ny_i, nx, nz)) *)
    SAssign $"d_local"
      (ECall $"d_dist"#"local_array"#"reshape" [ETuple [$"ny_i"; $"nx"; $"nz"]] [])
  ; (* line 102: d = d_dist.asarray().reshape((ny, nx, nz)) *)
    SAssign $"d"
      (ECall (ECall $"d_dist"#"asarray" [] [])#"reshape" [ETuple [$"ny"; $"nx"; $"nz"]] [])
  ; (* line 103: d_0_dist = BDiag @ mback3d_dist *)
    SAssign $"d_0_dist" (EBinOp $"BDiag" MatMult $"mback3d_dist")
  ; (* line 104: d_0 = d_dist.asarray().reshape((ny, nx, nz)) *)
    SAssign $"d_0"
      (ECall (ECall $"d_dist"#"asarray" [] [])#"reshape" [ETuple [$"ny"; $"nx"; $"nz"]] [])
  ; (* line 113: minv3d_iter_dist = pylops_mpi.optimization.basic.cgls(BDiag, d_dist, x0=mback3d_dist, niter=100, show=True)[0] *)
    SAssign $"minv3d_iter_dist"
      (ESubscript
         (ECall $"pylops_mpi"#"optimization"#"basic"#"cgls" [$"BDiag"; $"d_dist"]
            [("x0", $"mback3d_dist"); ("niter", EInt 100); ("show", EBool true)])
         (EInt 0))
  ; (* line 116: minv3d_iter = minv3d_iter_dist.asarray().reshape((ny, nx, nz)) *)
    SAssign $"minv3d_iter"
      (ECall (ECall $"minv3d_iter_dist"#"asarray" [] [])#"reshape"
         [ETuple [$"ny"; $"nx"; $"nz"]]
         [])
  ; (* line 121: epsR = 1e2 *)
    SAssign $"epsR" (EFloat 1 2)
  ; (* line 122: LapOp = pylops_mpi.MPILaplacian(dims=(ny, nx, nz), axes=(0, 1, 2), weights=(1, 1, 1), sampling=(1, 1, 1), dtype=BDiag.dtype) *)
    SAssign $"LapOp"
      (ECall $"pylops_mpi"#"MPILaplacian" []
         [ ("dims", ETuple [$"ny"; $"nx"; $"nz"])
         ; ("axes", ETuple [EInt 0; EInt 1; EInt 2])
         ; ("weights", ETuple [EInt 1; EInt 1; EInt 1])
         ; ("sampling", ETuple [EInt 1; EInt 1; EInt 1])
         ; ("dtype", $"BDiag"#"dtype")
         ])
  ; (* line 126: NormEqOp = BDiag.H @ BDiag + epsR * LapOp.H @ LapOp *)
    SAssign $"NormEqOp"
      (EBinOp (EBinOp $"BDiag"#"H" MatMult $"BDiag") Add
         (EBinOp (EBinOp $"epsR" Mult $"LapOp"#"H") MatMult $"LapOp"))
  ; (* line 127: dnorm_dist = BDiag.H @ d_dist *)
    SAssign $"dnorm_dist" (EBinOp $"BDiag"#"H" MatMult $"d_dist")
  ; (* line 128: minv3d_ne_dist = pylops_mpi.optimization.basic.cg(NormEqOp, dnorm_dist, x0=mback3d_dist, niter=100, show=True)[0] *)
    SAssign $"minv3d_ne_dist"
      (ESubscript
         (ECall $"pylops_mpi"#"optimization"#"basic"#"cg" [$"NormEqOp"; $"dnorm_dist"]
            [("x0", $"mback3d_dist"); ("niter", EInt 100); ("show", EBool true)])
         (EInt 0))
  ; (* line 131: minv3d_ne = minv3d_ne_dist.asarray().reshape((ny, nx, nz)) *)
    SAssign $"minv3d_ne"
      (ECall (ECall $"minv3d_ne_dist"#"asarray" [] [])#"reshape" [ETuple [$"ny"; $"nx"; $"nz"]]
         [])
  ; (* line 136: StackOp = pylops_mpi.MPIStackedVStack([BDiag, np.sqrt(epsR) * LapOp]) *)
    SAssign $"StackOp"
      (ECall $"pylops_mpi"#"MPIStackedVStack"
         [EList [$"BDiag"; EBinOp (ECall $"np"#"sqrt" [$"epsR"] []) Mult $"LapOp"]]
         [])
  ; (* line 137: d0_dist = pylops_mpi.DistributedArray(global_shape=ny * nx * nz, engine="cupy") *)
    SAssign $"d0_dist"
      (ECall $"pylops_mpi"#"DistributedArray" []
         [ ("global_shape", EBinOp (EBinOp $"ny" Mult $"nx") Mult $"nz")
         ; ("engine", EStr "cupy")
         ])
  ; (* line 138: d0_dist[:] = 0. *)
    SAssign (ESubscript $"d0_dist" (ESlice None None None)) (EFloat 0 0)
  ; (* line 139: dstack_dist = pylops_mpi.StackedDistributedArray([d_dist, d0_dist]) *)
    SAssign $"dstack_dist"
      (ECall $"pylops_mpi"#"StackedDistributedArray" [EList [$"d_dist"; $"d0_dist"]] [])
  ; (* line 141: dnorm_dist = BDiag.H @ d_dist *)
    SAssign $"dnorm_dist" (EBinOp $"BDiag"#"H" MatMult $"d_dist")
  ; (* line 142: minv3d_reg_dist = pylops_mpi.optimization.basic.cgls(StackOp, dstack_dist, x0=mback3d_dist, niter=100, show=True)[0] *)
    SAssign $"minv3d_reg_dist"
      (ESubscript
         (ECall $"pylops_mpi"#"optimization"#"basic"#"cgls" [$"StackOp"; $"dstack_dist"]
            [("x0", $"mback3d_dist"); ("niter", EInt 100); ("show", EBool true)])
         (EInt 0))
  ; (* line 145: minv3d_reg = minv3d_reg_dist.asarray().reshape((ny, nx, nz)) *)
    SAssign $"minv3d_reg"
      (ECall (ECall $"minv3d_reg_dist"#"asarray" [] [])#"reshape" [ETuple [$"ny"; $"nx"; $"nz"]]
         [])
  ; (* line 151: if rank == 0: *)
    SIf (ECompareEq $"rank" (EInt 0))
      [ (* line 154: PPop0 = PoststackLinearModelling(wav, nt0=nz, spatdims=(ny, nx)) *)
        SAssign $"PPop0"
          (ECall $"PoststackLinearModelling" [$"wav"]
             [("nt0", $"nz"); ("spatdims", ETuple [$"ny"; $"nx"])])
      ; (* line 155: d0 = (PPop0 @ m3d.transpose(2, 0, 1)).transpose(1, 2, 0) *)
        SAssign $"d0"
          (ECall
             (EBinOp $"PPop0" MatMult (ECall $"m3d"#"transpose" [EInt 2; EInt 0; EInt 1] []))#"transpose"
             [EInt 1; EInt 2; EInt 0]
             [])
      ; (* line 156: d0_0 = (PPop0 @ m3d.transpose(2, 0, 1)).transpose(1, 2, 0) *)
        SAssign $"d0_0"
          (ECall
             (EBinOp $"PPop0" MatMult (ECall $"m3d"#"transpose" [EInt 2; EInt 0; EInt 1] []))#"transpose"
             [EInt 1; EInt 2; EInt 0]
             [])
      ; (* line 159: print('Distr == Local', np.allclose(cp.asnumpy(d), d0, atol=1e-6)) *)
        SExpr
          (ECall $"print"
             [ EStr "Distr == Local"
             ; ECall $"np"#"allclose" [ECall $"cp"#"asnumpy" [$"d"] []; $"d0"]
                 [("atol", EFloat 1 (-6))]
             ]
             [])
      ; (* line 160: print('Smooth Distr == Local', np.allclose(cp.asnumpy(d_0), d0_0, atol=1e-6)) *)
        SExpr
          (ECall $"print"
             [ EStr "Smooth Distr == Local"
             ; ECall $"np"#"allclose" [ECall $"cp"#"asnumpy" [$"d_0"] []; $"d0_0"]
                 [("atol", EFloat 1 (-6))]
             ]
             [])
      ; (* line 163: fig, axs = plt.subplots(nrows=6, ncols=3, figsize=(9, 14), constrained_layout=True) *)
        SAssign (ETuple [$"fig"; $"axs"])
          (ECall $"plt"#"subplots" []
             [ ("nrows", EInt 6)
             ; ("ncols", EInt 3)
             ; ("figsize", ETuple [EInt 9; EInt 14])
             ; ("constrained_layout", EBool true)
             ])
      ; (* line 164: axs[0][0].imshow(m3d[5, :, :].T, cmap="gist_rainbow", vmin=m.min(), vmax=m.max()) *)
        SExpr
          (ECall (ESubscript (ESubscript $"axs" (EInt 0)) (EInt 0))#"imshow"
             [ (ESubscript $"m3d"
                  (ETuple [EInt 5; ESlice None None None; ESlice None None None]))#"T"
             ]
             [ ("cmap", EStr "gist_rainbow")
             ; ("vmin", ECall $"m"#"min" [] [])
             ; ("vmax", ECall $"m"#"max" [] [])
             ])
      ; (* line 165: axs[0][0].set_title("Model x-z") *)
        SExpr
          (ECall (ESubscript (ESubscript $"axs" (EInt 0)) (EInt 0))#"set_title"
             [EStr "Model x-z"]
             [])
      ; (* line 166: axs[0][0].axis("tight") *)
        SExpr
          (ECall (ESubscript (ESubscript $"axs" (EInt 0)) (EInt 0))#"axis" [EStr "tight"] [])
      ; (* line 167: axs[0][1].imshow(m3d[:, 200, :].T, cmap="gist_rainbow", vmin=m.min(), vmax=m.max()) *)
        SExpr
          (ECall (ESubscript (ESubscript $"axs" (EInt 0)) (EInt 1))#"imshow"
             [ (ESubscript $"m3d"
                  (ETuple [ESlice None None None; EInt 200; ESlice None None None]))#"T"
             ]
             [ ("cmap", EStr "gist_rainbow")
             ; ("vmin", ECall $"m"#"min" [] [])
             ; ("vmax", ECall $"m"#"max" [] [])
             ])
      ; (* line 168: axs[0][1].set_title("Model y-z") *)
        SExpr
          (ECall (ESubscript (ESubscript $"axs" (EInt 0)) (EInt 1))#"set_title"
             [EStr "Model y-z"]
             [])
      ; (* line 169: axs[0][1].axis("tight") *)
        SExpr
          (ECall (ESubscript (ESubscript $"axs" (EInt 0)) (EInt 1))#"axis" [EStr "tight"] [])
      ; (* line 170: axs[0][2].imshow(m3d[:, :, 220].T, cmap="gist_rainbow", vmin=m.min(), vmax=m.max()) *)
        SExpr
          (ECall (ESubscript (ESubscript $"axs" (EInt 0)) (EInt 2))#"imshow"
             [ (ESubscript $"m3d"
                  (ETuple [ESlice None None None; ESlice None None None; EInt 220]))#"T"
             ]
             [ ("cmap", EStr "gist_rainbow")
             ; ("vmin", ECall $"m"#"min" [] [])
             ; ("vmax", ECall $"m"#"max" [] [])
             ])
      ; (* line 171: axs[0][2].set_title("Model y-z") *)
        SExpr
          (ECall (ESubscript (ESubscript $"axs" (EInt 0)) (EInt 2))#"set_title"
             [EStr "Model y-z"]
             [])
      ; (* line 172: axs[0][2].axis("tight") *)
        SExpr
          (ECall (ESubscript (ESubscript $"axs" (EInt 0)) (EInt 2))#"axis" [EStr "tight"] [])
      ; (* line 174: axs[1][0].imshow(mback3d[5, :, :].T, cmap="gist_rainbow", vmin=m.min(), vmax=m.max()) *)
        SExpr
          (ECall (ESubscript (ESubscript $"axs" (EInt 1)) (EInt 0))#"imshow"
             [ (ESubscript $"mback3d"
                  (ETuple [EInt 5; ESlice None None None; ESlice None None None]))#"T"
             ]
             [ ("cmap", EStr "gist_rainbow")
             ; ("vmin", ECall $"m"#"min" [] [])
             ; ("vmax", ECall $"m"#"max" [] [])
             ])
      ; (* line 175: axs[1][0].set_title("Smooth Model x-z") *)
        SExpr
          (ECall (ESubscript (ESubscript $"axs" (EInt 1)) (EInt 0))#"set_title"
             [EStr "Smooth Model x-z"]
             [])
      ; (* line 176: axs[1][0].axis("tight") *)
        SExpr
          (ECall (ESubscript (ESubscript $"axs" (EInt 1)) (EInt 0))#"axis" [EStr "tight"] [])
      ; (* line 177: axs[1][1].imshow(mback3d[:, 200, :].T, cmap="gist_rainbow", vmin=m.min(), vmax=m.max()) *)
        SExpr
          (ECall (ESubscript (ESubscript $"axs" (EInt 1)) (EInt 1))#"imshow"
             [ (ESubscript $"mback3d"
                  (ETuple [ESlice None None None; EInt 200; ESlice None None None]))#"T"
             ]
             [ ("cmap", EStr "gist_rainbow")
             ; ("vmin", ECall $"m"#"min" [] [])
             ; ("vmax", ECall $"m"#"max" [] [])
             ])
      ; (* line 178: axs[1][1].set_title("Smooth Model y-z") *)
        SExpr
          (ECall (ESubscript (ESubscript $"axs" (EInt 1)) (EInt 1))#"set_title"
             [EStr "Smooth Model y-z"]
             [])
      ; (* line 179: axs[1][1].axis("tight") *)
        SExpr
          (ECall (ESubscript (ESubscript $"axs" (EInt 1)) (EInt 1))#"axis" [EStr "tight"] [])
      ; (* line 180: axs[1][2].imshow(mback3d[:, :, 220].T, cmap="gist_rainbow", vmin=m.min(), vmax=m.max()) *)
        SExpr
          (ECall (ESubscript (ESubscript $"axs" (EInt 1)) (EInt 2))#"imshow"
             [ (ESubscript $"mback3d"
                  (ETuple [ESlice None None None; ESlice None None None; EInt 220]))#"T"
             ]
             [ ("cmap", EStr "gist_rainbow")
             ; ("vmin", ECall $"m"#"min" [] [])
             ; ("vmax", ECall $"m"#"max" [] [])
             ])
      ; (* line 181: axs[1][2].set_title("Smooth Model y-z") *)
        SExpr
          (ECall (ESubscript (ESubscript $"axs" (EInt 1)) (EInt 2))#"set_title"
             [EStr "Smooth Model y-z"]
             [])
      ; (* line 182: axs[1][2].axis("tight") *)
        SExpr
          (ECall (ESubscript (ESubscript $"axs" (EInt 1)) (EInt 2))#"axis" [EStr "tight"] [])
      ; (* line 184: axs[2][0].imshow(d[5, :, :].T.get(), cmap="gray", vmin=-1, vmax=1) *)
        SExpr
          (ECall (ESubscript (ESubscript $"axs" (EInt 2)) (EInt 0))#"imshow"
             [ ECall
                 ((ESubscript $"d"
                     (ETuple [EInt 5; ESlice None None None; ESlice None None None]))#"T")#"get"
                 []
                 []
             ]
             [("cmap", EStr "gray"); ("vmin", EUSub (EInt 1)); ("vmax", EInt 1)])
      ; (* line 185: axs[2][0].set_title("Data x-z") *)
        SExpr
          (ECall (ESubscript (ESubscript $"axs" (EInt 2)) (EInt 0))#"set_title"
             [EStr "Data x-z"]
             [])
      ; (* line 186: axs[2][0].axis("tight") *)
        SExpr
          (ECall (ESubscript (ESubscript $"axs" (EInt 2)) (EInt 0))#"axis" [EStr "tight"] [])
      ; (* line 187: axs[2][1].imshow(d[:, 200, :].T.get(), cmap='gray', vmin=-1, vmax=1) *)
        SExpr
          (ECall (ESubscript (ESubscript $"axs" (EInt 2)) (EInt 1))#"imshow"
             [ ECall
                 ((ESubscript $"d"
                     (ETuple [ESlice None None None; EInt 200; ESlice None None None]))#"T")#"get"
                 []
                 []
             ]
             [("cmap", EStr "gray"); ("vmin", EUSub (EInt 1)); ("vmax", EInt 1)])
      ; (* line 188: axs[2][1].set_title('Data y-z') *)
        SExpr
          (ECall (ESubscript (ESubscript $"axs" (EInt 2)) (EInt 1))#"set_title"
             [EStr "Data y-z"]
             [])
      ; (* line 189: axs[2][1].axis('tight') *)
        SExpr
          (ECall (ESubscript (ESubscript $"axs" (EInt 2)) (EInt 1))#"axis" [EStr "tight"] [])
      ; (* line 190: axs[2][2].imshow(d[:, :, 220].T.get(), cmap='gray', vmin=-1, vmax=1) *)
        SExpr
          (ECall (ESubscript (ESubscript $"axs" (EInt 2)) (EInt 2))#"imshow"
             [ ECall
                 ((ESubscript $"d"
                     (ETuple [ESlice None None None; ESlice None None None; EInt 220]))#"T")#"get"
                 []
                 []
             ]
             [("cmap", EStr "gray"); ("vmin", EUSub (EInt 1)); ("vmax", EInt 1)])
      ; (* line 191: axs[2][2].set_title('Data x-y') *)
        SExpr
          (ECall (ESubscript (ESubscript $"axs" (EInt 2)) (EInt 2))#"set_title"
             [EStr "Data x-y"]
             [])
      ; (* line 192: axs[2][2].axis('tight') *)
        SExpr
          (ECall (ESubscript (ESubscript $"axs" (EInt 2)) (EInt 2))#"axis" [EStr "tight"] [])
      ; (* line 194: axs[3][0].imshow(minv3d_iter[5, :, :].T.get(), cmap="gist_rainbow", vmin=m.min(), vmax=m.max()) *)
        SExpr
          (ECall (ESubscript (ESubscript $"axs" (EInt 3)) (EInt 0))#"imshow"
             [ ECall
                 ((ESubscript $"minv3d_iter"
                     (ETuple [EInt 5; ESlice None None None; ESlice None None None]))#"T")#"get"
                 []
                 []
             ]
             [ ("cmap", EStr "gist_rainbow")
             ; ("vmin", ECall $"m"#"min" [] [])
             ; ("vmax", ECall $"m"#"max" [] [])
             ])
      ; (* line 195: axs[3][0].set_title("Inverted Model iter x-z") *)
        SExpr
          (ECall (ESubscript (ESubscript $"axs" (EInt 3)) (EInt 0))#"set_title"
             [EStr "Inverted Model iter x-z"]
             [])
      ; (* line 196: axs[3][0].axis("tight") *)
        SExpr
          (ECall (ESubscript (ESubscript $"axs" (EInt 3)) (EInt 0))#"axis" [EStr "tight"] [])
      ; (* line 197: axs[3][1].imshow(minv3d_iter[:, 200, :].T.get(), cmap='gist_rainbow', vmin=m.min(), vmax=m.max()) *)
        SExpr
          (ECall (ESubscript (ESubscript $"axs" (EInt 3)) (EInt 1))#"imshow"
             [ ECall
                 ((ESubscript $"minv3d_iter"
                     (ETuple [ESlice None None None; EInt 200; ESlice None None None]))#"T")#"get"
                 []
                 []
             ]
             [ ("cmap", EStr "gist_rainbow")
             ; ("vmin", ECall $"m"#"min" [] [])
             ; ("vmax", ECall $"m"#"max" [] [])
             ])
      ; (* line 198: axs[3][1].set_title('Inverted Model iter y-z') *)
        SExpr
          (ECall (ESubscript (ESubscript $"axs" (EInt 3)) (EInt 1))#"set_title"
             [EStr "Inverted Model iter y-z"]
             [])
      ; (* line 199: axs[3][1].axis('tight') *)
        SExpr
          (ECall (ESubscript (ESubscript $"axs" (EInt 3)) (EInt 1))#"axis" [EStr "tight"] [])
      ; (* line 200: axs[3][2].imshow(minv3d_iter[:, :, 220].T.get(), cmap='gist_rainbow', vmin=m.min(), vmax=m.max()) *)
        SExpr
          (ECall (ESubscript (ESubscript $"axs" (EInt 3)) (EInt 2))#"imshow"
             [ ECall
                 ((ESubscript $"minv3d_iter"
                     (ETuple [ESlice None None None; ESlice None None None; EInt 220]))#"T")#"get"
                 []
                 []
             ]
             [ ("cmap", EStr "gist_rainbow")
             ; ("vmin", ECall $"m"#"min" [] [])
             ; ("vmax", ECall $"m"#"max" [] [])
             ])
      ; (* line 201: axs[3][2].set_title('Inverted Model iter x-y') *)
        SExpr
          (ECall (ESubscript (ESubscript $"axs" (EInt 3)) (EInt 2))#"set_title"
             [EStr "Inverted Model iter x-y"]
             [])
      ; (* line 202: axs[3][2].axis('tight') *)
        SExpr
          (ECall (ESubscript (ESubscript $"axs" (EInt 3)) (EInt 2))#"axis" [EStr "tight"] [])
      ; (* line 204: axs[4][0].imshow(minv3d_ne[5, :, :].T.get(), cmap="gist_rainbow", vmin=m.min(), vmax=m.max()) *)
        SExpr
          (ECall (ESubscript (ESubscript $"axs" (EInt 4)) (EInt 0))#"imshow"
             [ ECall
                 ((ESubscript $"minv3d_ne"
                     (ETuple [EInt 5; ESlice None None None; ESlice None None None]))#"T")#"get"
                 []
                 []
             ]
             [ ("cmap", EStr "gist_rainbow")
             ; ("vmin", ECall $"m"#"min" [] [])
             ; ("vmax", ECall $"m"#"max" [] [])
             ])
      ; (* line 205: axs[4][0].set_title("Normal Equations Inverted Model iter x-z") *)
        SExpr
          (ECall (ESubscript (ESubscript $"axs" (EInt 4)) (EInt 0))#"set_title"
             [EStr "Normal Equations Inverted Model iter x-z"]
             [])
      ; (* line 206: axs[4][0].axis("tight") *)
        SExpr
          (ECall (ESubscript (ESubscript $"axs" (EInt 4)) (EInt 0))#"axis" [EStr "tight"] [])
      ; (* line 207: axs[4][1].imshow(minv3d_ne[:, 200, :].T.get(), cmap='gist_rainbow', vmin=m.min(), vmax=m.max()) *)
        SExpr
          (ECall (ESubscript (ESubscript $"axs" (EInt 4)) (EInt 1))#"imshow"
             [ ECall
                 ((ESubscript $"minv3d_ne"
                     (ETuple [ESlice None None None; EInt 200; ESlice None None None]))#"T")#"get"
                 []
                 []
             ]
             [ ("cmap", EStr "gist_rainbow")
             ; ("vmin", ECall $"m"#"min" [] [])
             ; ("vmax", ECall $"m"#"max" [] [])
             ])
      ; (* line 208: axs[4][1].set_title('Normal Equations Inverted Model iter y-z') *)
        SExpr
          (ECall (ESubscript (ESubscript $"axs" (EInt 4)) (EInt 1))#"set_title"
             [EStr "Normal Equations Inverted Model iter y-z"]
             [])
      ; (* line 209: axs[4][1].axis('tight') *)
        SExpr
          (ECall (ESubscript (ESubscript $"axs" (EInt 4)) (EInt 1))#"axis" [EStr "tight"] [])
      ; (* line 210: axs[4][2].imshow(minv3d_ne[:, :, 220].T.get(), cmap='gist_rainbow', vmin=m.min(), vmax=m.max()) *)
        SExpr
          (ECall (ESubscript (ESubscript $"axs" (EInt 4)) (EInt 2))#"imshow"
             [ ECall
                 ((ESubscript $"minv3d_ne"
                     (ETuple [ESlice None None None; ESlice None None None; EInt 220]))#"T")#"get"
                 []
                 []
             ]
             [ ("cmap", EStr "gist_rainbow")
             ; ("vmin", ECall $"m"#"min" [] [])
             ; ("vmax", ECall $"m"#"max" [] [])
             ])
      ; (* line 211: axs[4][2].set_title('Normal Equations Inverted Model iter x-y') *)
        SExpr
          (ECall (ESubscript (ESubscript $"axs" (EInt 4)) (EInt 2))#"set_title"
             [EStr "Normal Equations Inverted Model iter x-y"]
             [])
      ; (* line 212: axs[4][2].axis('tight') *)
        SExpr
          (ECall (ESubscript (ESubscript $"axs" (EInt 4)) (EInt 2))#"axis" [EStr "tight"] [])
      ; (* line 214: axs[5][0].imshow(minv3d_reg[5, :, :].T.get(), cmap="gist_rainbow", vmin=m.min(), vmax=m.max()) *)
        SExpr
          (ECall (ESubscript (ESubscript $"axs" (EInt 5)) (EInt 0))#"imshow"
             [ ECall
                 ((ESubscript $"minv3d_reg"
                     (ETuple [EInt 5; ESlice None None None; ESlice None None None]))#"T")#"get"
                 []
                 []
             ]
             [ ("cmap", EStr "gist_rainbow")
             ; ("vmin", ECall $"m"#"min" [] [])
             ; ("vmax", ECall $"m"#"max" [] [])
             ])
      ; (* line 215: axs[5][0].set_title("Regularized Inverted Model iter x-z") *)
        SExpr
          (ECall (ESubscript (ESubscript $"axs" (EInt 5)) (EInt 0))#"set_title"
             [EStr "Regularized Inverted Model iter x-z"]
             [])
      ; (* line 216: axs[5][0].axis("tight") *)
        SExpr
          (ECall (ESubscript (ESubscript $"axs" (EInt 5)) (EInt 0))#"axis" [EStr "tight"] [])
      ; (* line 217: axs[5][1].imshow(minv3d_reg[:, 200, :].T.get(), cmap='gist_rainbow', vmin=m.min(), vmax=m.max()) *)
        SExpr
          (ECall (ESubscript (ESubscript $"axs" (EInt 5)) (EInt 1))#"imshow"
             [ ECall
                 ((ESubscript $"minv3d_reg"
                     (ETuple [ESlice None None None; EInt 200; ESlice None None None]))#"T")#"get"
                 []
                 []
             ]
             [ ("cmap", EStr "gist_rainbow")
             ; ("vmin", ECall $"m"#"min" [] [])
             ; ("vmax", ECall $"m"#"max" [] [])
             ])
      ; (* line 218: axs[5][1].set_title('Regularized Inverted Model iter y-z') *)
        SExpr
          (ECall (ESubscript (ESubscript $"axs" (EInt 5)) (EInt 1))#"set_title"
             [EStr "Regularized Inverted Model iter y-z"]
             [])
      ; (* line 219: axs[5][1].axis('tight') *)
        SExpr
          (ECall (ESubscript (ESubscript $"axs" (EInt 5)) (EInt 1))#"axis" [EStr "tight"] [])
      ; (* line 220: axs[5][2].imshow(minv3d_reg[:, :, 220].T.get(), cmap='gist_rainbow', vmin=m.min(), vmax=m.max()) *)
        SExpr
          (ECall (ESubscript (ESubscript $"axs" (EInt 5)) (EInt 2))#"imshow"
             [ ECall
                 ((ESubscript $"minv3d_reg"
                     (ETuple [ESlice None None None; ESlice None None None; EInt 220]))#"T")#"get"
                 []
                 []
             ]
             [ ("cmap", EStr "gist_rainbow")
             ; ("vmin", ECall $"m"#"min" [] [])
             ; ("vmax", ECall $"m"#"max" [] [])
             ])
      ; (* line 221: axs[5][2].set_title('Regularized Inverted Model iter x-y') *)
        SExpr
          (ECall (ESubscript (ESubscript $"axs" (EInt 5)) (EInt 2))#"set_title"
             [EStr "Regularized Inverted Model iter x-y"]
             [])
      ; (* line 222: axs[5][2].axis('tight') *)
        SExpr
          (ECall (ESubscript (ESubscript $"axs" (EInt 5)) (EInt 2))#"axis" [EStr "tight"] [])
      ]
      []
  ].

(** [tutorials_nccl/poststack_nccl.py] *)
Definition poststack_nccl : list stmt :=
  [ (* line 9: import numpy as np *)
    SImport "numpy" "np"
  ; (* line 10: import cupy as cp *)
    SImport "cupy" "cp"
  ; (* line 11: from scipy.signal import filtfilt *)
    SImportFrom "scipy.signal" "filtfilt" "filtfilt"
  ; (* line 12: from matplotlib import pyplot as plt *)
    SImportFrom "matplotlib" "pyplot" "plt"
  ; (* line 13: from mpi4py import MPI *)
    SImportFrom "mpi4py" "MPI" "MPI"
  ; (* line 15: from pylops.utils.wavelets import ricker *)
    SImportFrom "pylops.utils.wavelets" "ricker" "ricker"
  ; (* line 16: from pylops.basicoperators import Transpose *)
    SImportFrom "pylops.basicoperators" "Transpose" "Transpose"
  ; (* line 17: from pylops.avo.poststack import PoststackLinearModelling *)
    SImportFrom "pylops.avo.poststack" "PoststackLinearModelling" "PoststackLinearModelling"
  ; (* line 19: import pylops_mpi *)
    SImport "pylops_mpi" "pylops_mpi"
  ; (* line 26: plt.close("all") *)
    SExpr (ECall $"plt"#"close" [EStr "all"] [])
  ; (* line 27: nccl_comm = pylops_mpi.utils._nccl.initialize_nccl_comm() *)
    SAssign $"nccl_comm" (ECall $"pylops_mpi"#"utils"#"_nccl"#"initialize_nccl_comm" [] [])
  ; (* line 28: rank = MPI.COMM_WORLD.Get_rank() *)
    SAssign $"rank" (ECall $"MPI"#"COMM_WORLD"#"Get_rank" [] [])
  ; (* line 37: model = np.load("../testdata/avo/poststack_model.npz") *)
    SAssign $"model" (ECall $"np"#"load" [EStr "../testdata/avo/poststack_model.npz"] [])
  ; (* line 38: x, z, m = model['x'][::3], model['z'], np.log(model['model'])[:, ::3] *)
    SAssign (ETuple [$"x"; $"z"; $"m"])
      (ETuple
         [ ESubscript (ESubscript $"model" (EStr "x")) (ESlice None None (Some (EInt 3)))
         ; ESubscript $"model" (EStr "z")
         ; ESubscript (ECall $"np"#"log" [ESubscript $"model" (EStr "model")] [])
             (ETuple [ESlice None None None; ESlice None None (Some (EInt 3))])
         ])
  ; (* line 41: ny_i = 20 *)
    SAssign $"ny_i" (EInt 20)
  ; (* line 42: y = np.arange(ny_i) *)
    SAssign $"y" (ECall $"np"#"arange" [$"ny_i"] [])
  ; (* line 43: m3d_i = np.tile(m[:, :, np.newaxis], (1, 1, ny_i)).transpose((2, 1, 0)) *)
    SAssign $"m3d_i"
      (ECall
         (ECall $"np"#"tile"
            [ ESubscript $"m"
                (ETuple [ESlice None None None; ESlice None None None; $"np"#"newaxis"])
            ; ETuple [EInt 1; EInt 1; $"ny_i"]
            ]
            [])#"transpose"
         [ETuple [EInt 2; EInt 1; EInt 0]]
         [])
  ; (* line 44: ny_i, nx, nz = m3d_i.shape *)
    SAssign (ETuple [$"ny_i"; $"nx"; $"nz"]) $"m3d_i"#"shape"
  ; (* line 47: ny = MPI.COMM_WORLD.allreduce(ny_i) *)
    SAssign $"ny" (ECall $"MPI"#"COMM_WORLD"#"allreduce" [$"ny_i"] [])
  ; (* line 50: nsmoothy, nsmoothx, nsmoothz = 5, 30, 20 *)
    SAssign (ETuple [$"nsmoothy"; $"nsmoothx"; $"nsmoothz"]) (ETuple [EInt 5; EInt 30; EInt 20])
  ; (* line 51: mback3d_i = filtfilt(np.ones(nsmoothy) / float(nsmoothy), 1, m3d_i, axis=0) *)
    SAssign $"mback3d_i"
      (ECall $"filtfilt"
         [ EBinOp (ECall $"np"#"ones" [$"nsmoothy"] []) Div (ECall $"float" [$"nsmoothy"] [])
         ; EInt 1
         ; $"m3d_i"
         ]
         [("axis", EInt 0)])
  ; (* line 52: mback3d_i = filtfilt(np.ones(nsmoothx) / float(nsmoothx), 1, mback3d_i, axis=1) *)
    SAssign $"mback3d_i"
      (ECall $"filtfilt"
         [ EBinOp (ECall $"np"#"ones" [$"nsmoothx"] []) Div (ECall $"float" [$"nsmoothx"] [])
         ; EInt 1
         ; $"mback3d_i"
         ]
         [("axis", EInt 1)])
  ; (* line 53: mback3d_i = filtfilt(np.ones(nsmoothz) / float(nsmoothz), 1, mback3d_i, axis=2) *)
    SAssign $"mback3d_i"
      (ECall $"filtfilt"
         [ EBinOp (ECall $"np"#"ones" [$"nsmoothz"] []) Div (ECall $"float" [$"nsmoothz"] [])
         ; EInt 1
         ; $"mback3d_i"
         ]
         [("axis", EInt 2)])
  ; (* line 56: dt = 0.004 *)
    SAssign $"dt" (EFloat 4 (-3))
  ; (* line 57: t0 = np.arange(nz) * dt *)
    SAssign $"t0" (EBinOp (ECall $"np"#"arange" [$"nz"] []) Mult $"dt")
  ; (* line 58: ntwav = 41 *)
    SAssign $"ntwav" (EInt 41)
  ; (* line 59: wav = ricker(t0[:ntwav // 2 + 1], 15)[0] *)
    SAssign $"wav"
      (ESubscript
         (ECall $"ricker"
            [ ESubscript $"t0"
                (ESlice None (Some (EBinOp (EBinOp $"ntwav" FloorDiv (EInt 2)) Add (EInt 1)))
                   None)
            ; EInt 15
            ]
            [])
         (EInt 0))
  ; (* line 62: m3d = np.concatenate(MPI.COMM_WORLD.allgather(m3d_i)) *)
    SAssign $"m3d"
      (ECall $"np"#"concatenate" [ECall $"MPI"#"COMM_WORLD"#"allgather" [$"m3d_i"] []] [])
  ; (* line 63: mback3d = np.concatenate(MPI.COMM_WORLD.allgather(mback3d_i)) *)
    SAssign $"mback3d"
      (ECall $"np"#"concatenate" [ECall $"MPI"#"COMM_WORLD"#"allgather" [$"mback3d_i"] []] [])
  ; (* line 71: m3d_dist = pylops_mpi.DistributedArray(global_shape=ny * nx * nz, base_comm_nccl=nccl_comm, engine="cupy") *)
    SAssign $"m3d_dist"
      (ECall $"pylops_mpi"#"DistributedArray" []
         [ ("global_shape", EBinOp (EBinOp $"ny" Mult $"nx") Mult $"nz")
         ; ("base_comm_nccl", $"nccl_comm")
         ; ("engine", EStr "cupy")
         ])
  ; (* line 74: m3d_dist[:] = cp.asarray(m3d_i.flatten()) *)
    SAssign (ESubscript $"m3d_dist" (ESlice None None None))
      (ECall $"cp"#"asarray" [ECall $"m3d_i"#"flatten" [] []] [])
  ; (* line 77: mback3d_dist = pylops_mpi.DistributedArray(global_shape=ny * nx * nz, base_comm_nccl=nccl_comm, engine="cupy") *)
    SAssign $"mback3d_dist"
      (ECall $"pylops_mpi"#"DistributedArray" []
         [ ("global_shape", EBinOp (EBinOp $"ny" Mult $"nx") Mult $"nz")
         ; ("base_comm_nccl", $"nccl_comm")
         ; ("engine", EStr "cupy")
         ])
  ; (* line 80: mback3d_dist[:] = cp.asarray(mback3d_i.flatten()) *)
    SAssign (ESubscript $"mback3d_dist" (ESlice None None None))
      (ECall $"cp"#"asarray" [ECall $"mback3d_i"#"flatten" [] []] [])
  ; (* line 88: PPop = PoststackLinearModelling(wav=cp.asarray(wav), nt0=nz, spatdims=(ny_i, nx)) *)
    SAssign $"PPop"
      (ECall $"PoststackLinearModelling" []
         [ ("wav", ECall $"cp"#"asarray" [$"wav"] [])
         ; ("nt0", $"nz")
         ; ("spatdims", ETuple [$"ny_i"; $"nx"])
         ])
  ; (* line 90: Top = Transpose((ny_i, nx, nz), (2, 0, 1)) *)
    SAssign $"Top"
      (ECall $"Transpose" [ETuple [$"ny_i"; $"nx"; $"nz"]; ETuple [EInt 2; EInt 0; EInt 1]] [])
  ; (* line 91: BDiag = pylops_mpi.basicoperators.MPIBlockDiag(ops=[Top.H @ PPop @ Top, ]) *)
    SAssign $"BDiag"
      (ECall $"pylops_mpi"#"basicoperators"#"MPIBlockDiag" []
         [("ops", EList [EBinOp (EBinOp $"Top"#"H" MatMult $"PPop") MatMult $"Top"])])
  ; (* line 98: d_dist = BDiag @ m3d_dist *)
    SAssign $"d_dist" (EBinOp $"BDiag" MatMult $"m3d_dist")
  ; (* line 99: d_local = d_dist.local_array.reshape((ny_i, nx, nz)) *)
    SAssign $"d_local"
      (ECall $"d_dist"#"local_array"#"reshape" [ETuple [$"ny_i"; $"nx"; $"nz"]] [])
  ; (* line 100: d = d_dist.asarray().reshape((ny, nx, nz)) *)
    SAssign $"d"
      (ECall (ECall $"d_dist"#"asarray" [] [])#"reshape" [ETuple [$"ny"; $"nx"; $"nz"]] [])
  ; (* line 101: d_0_dist = BDiag @ mback3d_dist *)
    SAssign $"d_0_dist" (EBinOp $"BDiag" MatMult $"mback3d_dist")
  ; (* line 102: d_0 = d_dist.asarray().reshape((ny, nx, nz)) *)
    SAssign $"d_0"
      (ECall (ECall $"d_dist"#"asarray" [] [])#"reshape" [ETuple [$"ny"; $"nx"; $"nz"]] [])
  ; (* line 111: minv3d_iter_dist = pylops_mpi.optimization.basic.cgls(BDiag, d_dist, x0=mback3d_dist, niter=100, show=True)[0] *)
    SAssign $"minv3d_iter_dist"
      (ESubscript
         (ECall $"pylops_mpi"#"optimization"#"basic"#"cgls" [$"BDiag"; $"d_dist"]
            [("x0", $"mback3d_dist"); ("niter", EInt 100); ("show", EBool true)])
         (EInt 0))
  ; (* line 114: minv3d_iter = minv3d_iter_dist.asarray().reshape((ny, nx, nz)) *)
    SAssign $"minv3d_iter"
      (ECall (ECall $"minv3d_iter_dist"#"asarray" [] [])#"reshape"
         [ETuple [$"ny"; $"nx"; $"nz"]]
         [])
  ; (* line 119: epsR = 1e2 *)
    SAssign $"epsR" (EFloat 1 2)
  ; (* line 120: LapOp = pylops_mpi.MPILaplacian(dims=(ny, nx, nz), axes=(0, 1, 2), weights=(1, 1, 1), sampling=(1, 1, 1), dtype=BDiag.dtype) *)
    SAssign $"LapOp"
      (ECall $"pylops_mpi"#"MPILaplacian" []
         [ ("dims", ETuple [$"ny"; $"nx"; $"nz"])
         ; ("axes", ETuple [EInt 0; EInt 1; EInt 2])
         ; ("weights", ETuple [EInt 1; EInt 1; EInt 1])
         ; ("sampling", ETuple [EInt 1; EInt 1; EInt 1])
         ; ("dtype", $"BDiag"#"dtype")
         ])
  ; (* line 124: NormEqOp = BDiag.H @ BDiag + epsR * LapOp.H @ LapOp *)
    SAssign $"NormEqOp"
      (EBinOp (EBinOp $"BDiag"#"H" MatMult $"BDiag") Add
         (EBinOp (EBinOp $"epsR" Mult $"LapOp"#"H") MatMult $"LapOp"))
  ; (* line 125: dnorm_dist = BDiag.H @ d_dist *)
    SAssign $"dnorm_dist" (EBinOp $"BDiag"#"H" MatMult $"d_dist")
  ; (* line 126: minv3d_ne_dist = pylops_mpi.optimization.basic.cg(NormEqOp, dnorm_dist, x0=mback3d_dist, niter=100, show=True)[0] *)
    SAssign $"minv3d_ne_dist"
      (ESubscript
         (ECall $"pylops_mpi"#"optimization"#"basic"#"cg" [$"NormEqOp"; $"dnorm_dist"]
            [("x0", $"mback3d_dist"); ("niter", EInt 100); ("show", EBool true)])
         (EInt 0))
  ; (* line 129: minv3d_ne = minv3d_ne_dist.asarray().reshape((ny, nx, nz)) *)
    SAssign $"minv3d_ne"
      (ECall (ECall $"minv3d_ne_dist"#"asarray" [] [])#"reshape" [ETuple [$"ny"; $"nx"; $"nz"]]
         [])
  ; (* line 134: StackOp = pylops_mpi.MPIStackedVStack([BDiag, np.sqrt(epsR) * LapOp]) *)
    SAssign $"StackOp"
      (ECall $"pylops_mpi"#"MPIStackedVStack"
         [EList [$"BDiag"; EBinOp (ECall $"np"#"sqrt" [$"epsR"] []) Mult $"LapOp"]]
         [])
  ; (* line 135: d0_dist = pylops_mpi.DistributedArray(global_shape=ny * nx * nz, base_comm_nccl=nccl_comm, engine="cupy") *)
    SAssign $"d0_dist"
      (ECall $"pylops_mpi"#"DistributedArray" []
         [ ("global_shape", EBinOp (EBinOp $"ny" Mult $"nx") Mult $"nz")
         ; ("base_comm_nccl", $"nccl_comm")
         ; ("engine", EStr "cupy")
         ])
  ; (* line 137: d0_dist[:] = 0. *)
    SAssign (ESubscript $"d0_dist" (ESlice None None None)) (EFloat 0 0)
  ; (* line 138: dstack_dist = pylops_mpi.StackedDistributedArray([d_dist, d0_dist]) *)
    SAssign $"dstack_dist"
      (ECall $"pylops_mpi"#"StackedDistributedArray" [EList [$"d_dist"; $"d0_dist"]] [])
  ; (* line 140: dnorm_dist = BDiag.H @ d_dist *)
    SAssign $"dnorm_dist" (EBinOp $"BDiag"#"H" MatMult $"d_dist")
  ; (* line 141: minv3d_reg_dist = pylops_mpi.optimization.basic.cgls(StackOp, dstack_dist, x0=mback3d_dist, niter=100, show=True)[0] *)
    SAssign $"minv3d_reg_dist"
      (ESubscript
         (ECall $"pylops_mpi"#"optimization"#"basic"#"cgls" [$"StackOp"; $"dstack_dist"]
            [("x0", $"mback3d_dist"); ("niter", EInt 100); ("show", EBool true)])
         (EInt 0))
  ; (* line 144: minv3d_reg = minv3d_reg_dist.asarray().reshape((ny, nx, nz)) *)
    SAssign $"minv3d_reg"
      (ECall (ECall $"minv3d_reg_dist"#"asarray" [] [])#"reshape" [ETuple [$"ny"; $"nx"; $"nz"]]
         [])
  ; (* line 150: if rank == 0: *)
    SIf (ECompareEq $"rank" (EInt 0))
      [ (* line 153: PPop0 = PoststackLinearModelling(wav, nt0=nz, spatdims=(ny, nx)) *)
        SAssign $"PPop0"
          (ECall $"PoststackLinearModelling" [$"wav"]
             [("nt0", $"nz"); ("spatdims", ETuple [$"ny"; $"nx"])])
      ; (* line 154: d0 = (PPop0 @ m3d.transpose(2, 0, 1)).transpose(1, 2, 0) *)
        SAssign $"d0"
          (ECall
             (EBinOp $"PPop0" MatMult (ECall $"m3d"#"transpose" [EInt 2; EInt 0; EInt 1] []))#"transpose"
             [EInt 1; EInt 2; EInt 0]
             [])
      ; (* line 155: d0_0 = (PPop0 @ m3d.transpose(2, 0, 1)).transpose(1, 2, 0) *)
        SAssign $"d0_0"
          (ECall
             (EBinOp $"PPop0" MatMult (ECall $"m3d"#"transpose" [EInt 2; EInt 0; EInt 1] []))#"transpose"
             [EInt 1; EInt 2; EInt 0]
             [])
      ; (* line 158: print('Distr == Local', np.allclose(d, d0)) *)
        SExpr
          (ECall $"print" [EStr "Distr == Local"; ECall $"np"#"allclose" [$"d"; $"d0"] []] [])
      ; (* line 159: print('Smooth Distr == Local', np.allclose(d_0, d0_0)) *)
        SExpr
          (ECall $"print"
             [EStr "Smooth Distr == Local"; ECall $"np"#"allclose" [$"d_0"; $"d0_0"] []]
             [])
      ; (* line 162: fig, axs = plt.subplots(nrows=6, ncols=3, figsize=(9, 14), constrained_layout=True) *)
        SAssign (ETuple [$"fig"; $"axs"])
          (ECall $"plt"#"subplots" []
             [ ("nrows", EInt 6)
             ; ("ncols", EInt 3)
             ; ("figsize", ETuple [EInt 9; EInt 14])
             ; ("constrained_layout", EBool true)
             ])
      ; (* line 163: axs[0][0].imshow(m3d[5, :, :].T, cmap="gist_rainbow", vmin=m.min(), vmax=m.max()) *)
        SExpr
          (ECall (ESubscript (ESubscript $"axs" (EInt 0)) (EInt 0))#"imshow"
             [ (ESubscript $"m3d"
                  (ETuple [EInt 5; ESlice None None None; ESlice None None None]))#"T"
             ]
             [ ("cmap", EStr "gist_rainbow")
             ; ("vmin", ECall $"m"#"min" [] [])
             ; ("vmax", ECall $"m"#"max" [] [])
             ])
      ; (* line 164: axs[0][0].set_title("Model x-z") *)
        SExpr
          (ECall (ESubscript (ESubscript $"axs" (EInt 0)) (EInt 0))#"set_title"
             [EStr "Model x-z"]
             [])
      ; (* line 165: axs[0][0].axis("tight") *)
        SExpr
          (ECall (ESubscript (ESubscript $"axs" (EInt 0)) (EInt 0))#"axis" [EStr "tight"] [])
      ; (* line 166: axs[0][1].imshow(m3d[:, 200, :].T, cmap="gist_rainbow", vmin=m.min(), vmax=m.max()) *)
        SExpr
          (ECall (ESubscript (ESubscript $"axs" (EInt 0)) (EInt 1))#"imshow"
             [ (ESubscript $"m3d"
                  (ETuple [ESlice None None None; EInt 200; ESlice None None None]))#"T"
             ]
             [ ("cmap", EStr "gist_rainbow")
             ; ("vmin", ECall $"m"#"min" [] [])
             ; ("vmax", ECall $"m"#"max" [] [])
             ])
      ; (* line 167: axs[0][1].set_title("Model y-z") *)
        SExpr
          (ECall (ESubscript (ESubscript $"axs" (EInt 0)) (EInt 1))#"set_title"
             [EStr "Model y-z"]
             [])
      ; (* line 168: axs[0][1].axis("tight") *)
        SExpr
          (ECall (ESubscript (ESubscript $"axs" (EInt 0)) (EInt 1))#"axis" [EStr "tight"] [])
      ; (* line 169: axs[0][2].imshow(m3d[:, :, 220].T, cmap="gist_rainbow", vmin=m.min(), vmax=m.max()) *)
        SExpr
          (ECall (ESubscript (ESubscript $"axs" (EInt 0)) (EInt 2))#"imshow"
             [ (ESubscript $"m3d"
                  (ETuple [ESlice None None None; ESlice None None None; EInt 220]))#"T"
             ]
             [ ("cmap", EStr "gist_rainbow")
             ; ("vmin", ECall $"m"#"min" [] [])
             ; ("vmax", ECall $"m"#"max" [] [])
             ])
      ; (* line 170: axs[0][2].set_title("Model y-z") *)
        SExpr
          (ECall (ESubscript (ESubscript $"axs" (EInt 0)) (EInt 2))#"set_title"
             [EStr "Model y-z"]
             [])
      ; (* line 171: axs[0][2].axis("tight") *)
        SExpr
          (ECall (ESubscript (ESubscript $"axs" (EInt 0)) (EInt 2))#"axis" [EStr "tight"] [])
      ; (* line 173: axs[1][0].imshow(mback3d[5, :, :].T, cmap="gist_rainbow", vmin=m.min(), vmax=m.max()) *)
        SExpr
          (ECall (ESubscript (ESubscript $"axs" (EInt 1)) (EInt 0))#"imshow"
             [ (ESubscript $"mback3d"
                  (ETuple [EInt 5; ESlice None None None; ESlice None None None]))#"T"
             ]
             [ ("cmap", EStr "gist_rainbow")
             ; ("vmin", ECall $"m"#"min" [] [])
             ; ("vmax", ECall $"m"#"max" [] [])
             ])
      ; (* line 174: axs[1][0].set_title("Smooth Model x-z") *)
        SExpr
          (ECall (ESubscript (ESubscript $"axs" (EInt 1)) (EInt 0))#"set_title"
             [EStr "Smooth Model x-z"]
             [])
      ; (* line 175: axs[1][0].axis("tight") *)
        SExpr
          (ECall (ESubscript (ESubscript $"axs" (EInt 1)) (EInt 0))#"axis" [EStr "tight"] [])
      ; (* line 176: axs[1][1].imshow(mback3d[:, 200, :].T, cmap="gist_rainbow", vmin=m.min(), vmax=m.max()) *)
        SExpr
          (ECall (ESubscript (ESubscript $"axs" (EInt 1)) (EInt 1))#"imshow"
             [ (ESubscript $"mback3d"
                  (ETuple [ESlice None None None; EInt 200; ESlice None None None]))#"T"
             ]
             [ ("cmap", EStr "gist_rainbow")
             ; ("vmin", ECall $"m"#"min" [] [])
             ; ("vmax", ECall $"m"#"max" [] [])
             ])
      ; (* line 177: axs[1][1].set_title("Smooth Model y-z") *)
        SExpr
          (ECall (ESubscript (ESubscript $"axs" (EInt 1)) (EInt 1))#"set_title"
             [EStr "Smooth Model y-z"]
             [])
      ; (* line 178: axs[1][1].axis("tight") *)
        SExpr
          (ECall (ESubscript (ESubscript $"axs" (EInt 1)) (EInt 1))#"axis" [EStr "tight"] [])
      ; (* line 179: axs[1][2].imshow(mback3d[:, :, 220].T, cmap="gist_rainbow", vmin=m.min(), vmax=m.max()) *)
        SExpr
          (ECall (ESubscript (ESubscript $"axs" (EInt 1)) (EInt 2))#"imshow"
             [ (ESubscript $"mback3d"
                  (ETuple [ESlice None None None; ESlice None None None; EInt 220]))#"T"
             ]
             [ ("cmap", EStr "gist_rainbow")
             ; ("vmin", ECall $"m"#"min" [] [])
             ; ("vmax", ECall $"m"#"max" [] [])
             ])
      ; (* line 180: axs[1][2].set_title("Smooth Model y-z") *)
        SExpr
          (ECall (ESubscript (ESubscript $"axs" (EInt 1)) (EInt 2))#"set_title"
             [EStr "Smooth Model y-z"]
             [])
      ; (* line 181: axs[1][2].axis("tight") *)
        SExpr
          (ECall (ESubscript (ESubscript $"axs" (EInt 1)) (EInt 2))#"axis" [EStr "tight"] [])
      ; (* line 183: axs[2][0].imshow(d[5, :, :].T.get(), cmap="gray", vmin=-1, vmax=1) *)
        SExpr
          (ECall (ESubscript (ESubscript $"axs" (EInt 2)) (EInt 0))#"imshow"
             [ ECall
                 ((ESubscript $"d"
                     (ETuple [EInt 5; ESlice None None None; ESlice None None None]))#"T")#"get"
                 []
                 []
             ]
             [("cmap", EStr "gray"); ("vmin", EUSub (EInt 1)); ("vmax", EInt 1)])
      ; (* line 184: axs[2][0].set_title("Data x-z") *)
        SExpr
          (ECall (ESubscript (ESubscript $"axs" (EInt 2)) (EInt 0))#"set_title"
             [EStr "Data x-z"]
             [])
      ; (* line 185: axs[2][0].axis("tight") *)
        SExpr
          (ECall (ESubscript (ESubscript $"axs" (EInt 2)) (EInt 0))#"axis" [EStr "tight"] [])
      ; (* line 186: axs[2][1].imshow(d[:, 200, :].T.get(), cmap='gray', vmin=-1, vmax=1) *)
        SExpr
          (ECall (ESubscript (ESubscript $"axs" (EInt 2)) (EInt 1))#"imshow"
             [ ECall
                 ((ESubscript $"d"
                     (ETuple [ESlice None None None; EInt 200; ESlice None None None]))#"T")#"get"
                 []
                 []
             ]
             [("cmap", EStr "gray"); ("vmin", EUSub (EInt 1)); ("vmax", EInt 1)])
      ; (* line 187: axs[2][1].set_title('Data y-z') *)
        SExpr
          (ECall (ESubscript (ESubscript $"axs" (EInt 2)) (EInt 1))#"set_title"
             [EStr "Data y-z"]
             [])
      ; (* line 188: axs[2][1].axis('tight') *)
        SExpr
          (ECall (ESubscript (ESubscript $"axs" (EInt 2)) (EInt 1))#"axis" [EStr "tight"] [])
      ; (* line 189: axs[2][2].imshow(d[:, :, 220].T.get(), cmap='gray', vmin=-1, vmax=1) *)
        SExpr
          (ECall (ESubscript (ESubscript $"axs" (EInt 2)) (EInt 2))#"imshow"
             [ ECall
                 ((ESubscript $"d"
                     (ETuple [ESlice None None None; ESlice None None None; EInt 220]))#"T")#"get"
                 []
                 []
             ]
             [("cmap", EStr "gray"); ("vmin", EUSub (EInt 1)); ("vmax", EInt 1)])
      ; (* line 190: axs[2][2].set_title('Data x-y') *)
        SExpr
          (ECall (ESubscript (ESubscript $"axs" (EInt 2)) (EInt 2))#"set_title"
             [EStr "Data x-y"]
             [])
      ; (* line 191: axs[2][2].axis('tight') *)
        SExpr
          (ECall (ESubscript (ESubscript $"axs" (EInt 2)) (EInt 2))#"axis" [EStr "tight"] [])
      ; (* line 193: axs[3][0].imshow(minv3d_iter[5, :, :].T.get(), cmap="gist_rainbow", vmin=m.min(), vmax=m.max()) *)
        SExpr
          (ECall (ESubscript (ESubscript $"axs" (EInt 3)) (EInt 0))#"imshow"
             [ ECall
                 ((ESubscript $"minv3d_iter"
                     (ETuple [EInt 5; ESlice None None None; ESlice None None None]))#"T")#"get"
                 []
                 []
             ]
             [ ("cmap", EStr "gist_rainbow")
             ; ("vmin", ECall $"m"#"min" [] [])
             ; ("vmax", ECall $"m"#"max" [] [])
             ])
      ; (* line 194: axs[3][0].set_title("Inverted Model iter x-z") *)
        SExpr
          (ECall (ESubscript (ESubscript $"axs" (EInt 3)) (EInt 0))#"set_title"
             [EStr "Inverted Model iter x-z"]
             [])
      ; (* line 195: axs[3][0].axis("tight") *)
        SExpr
          (ECall (ESubscript (ESubscript $"axs" (EInt 3)) (EInt 0))#"axis" [EStr "tight"] [])
      ; (* line 196: axs[3][1].imshow(minv3d_iter[:, 200, :].T.get(), cmap='gist_rainbow', vmin=m.min(), vmax=m.max()) *)
        SExpr
          (ECall (ESubscript (ESubscript $"axs" (EInt 3)) (EInt 1))#"imshow"
             [ ECall
                 ((ESubscript $"minv3d_iter"
                     (ETuple [ESlice None None None; EInt 200; ESlice None None None]))#"T")#"get"
                 []
                 []
             ]
             [ ("cmap", EStr "gist_rainbow")
             ; ("vmin", ECall $"m"#"min" [] [])
             ; ("vmax", ECall $"m"#"max" [] [])
             ])
      ; (* line 197: axs[3][1].set_title('Inverted Model iter y-z') *)
        SExpr
          (ECall (ESubscript (ESubscript $"axs" (EInt 3)) (EInt 1))#"set_title"
             [EStr "Inverted Model iter y-z"]
             [])
      ; (* line 198: axs[3][1].axis('tight') *)
        SExpr
          (ECall (ESubscript (ESubscript $"axs" (EInt 3)) (EInt 1))#"axis" [EStr "tight"] [])
      ; (* line 199: axs[3][2].imshow(minv3d_iter[:, :, 220].T.get(), cmap='gist_rainbow', vmin=m.min(), vmax=m.max()) *)
        SExpr
          (ECall (ESubscript (ESubscript $"axs" (EInt 3)) (EInt 2))#"imshow"
             [ ECall
                 ((ESubscript $"minv3d_iter"
                     (ETuple [ESlice None None None; ESlice None None None; EInt 220]))#"T")#"get"
                 []
                 []
             ]
             [ ("cmap", EStr "gist_rainbow")
             ; ("vmin", ECall $"m"#"min" [] [])
             ; ("vmax", ECall $"m"#"max" [] [])
             ])
      ; (* line 200: axs[3][2].set_title('Inverted Model iter x-y') *)
        SExpr
          (ECall (ESubscript (ESubscript $"axs" (EInt 3)) (EInt 2))#"set_title"
             [EStr "Inverted Model iter x-y"]
             [])
      ; (* line 201: axs[3][2].axis('tight') *)
        SExpr
          (ECall (ESubscript (ESubscript $"axs" (EInt 3)) (EInt 2))#"axis" [EStr "tight"] [])
      ; (* line 203: axs[4][0].imshow(minv3d_ne[5, :, :].T.get(), cmap="gist_rainbow", vmin=m.min(), vmax=m.max()) *)
        SExpr
          (ECall (ESubscript (ESubscript $"axs" (EInt 4)) (EInt 0))#"imshow"
             [ ECall
                 ((ESubscript $"minv3d_ne"
                     (ETuple [EInt 5; ESlice None None None; ESlice None None None]))#"T")#"get"
                 []
                 []
             ]
             [ ("cmap", EStr "gist_rainbow")
             ; ("vmin", ECall $"m"#"min" [] [])
             ; ("vmax", ECall $"m"#"max" [] [])
             ])
      ; (* line 204: axs[4][0].set_title("Normal Equations Inverted Model iter x-z") *)
        SExpr
          (ECall (ESubscript (ESubscript $"axs" (EInt 4)) (EInt 0))#"set_title"
             [EStr "Normal Equations Inverted Model iter x-z"]
             [])
      ; (* line 205: axs[4][0].axis("tight") *)
        SExpr
          (ECall (ESubscript (ESubscript $"axs" (EInt 4)) (EInt 0))#"axis" [EStr "tight"] [])
      ; (* line 206: axs[4][1].imshow(minv3d_ne[:, 200, :].T.get(), cmap='gist_rainbow', vmin=m.min(), vmax=m.max()) *)
        SExpr
          (ECall (ESubscript (ESubscript $"axs" (EInt 4)) (EInt 1))#"imshow"
             [ ECall
                 ((ESubscript $"minv3d_ne"
                     (ETuple [ESlice None None None; EInt 200; ESlice None None None]))#"T")#"get"
                 []
                 []
             ]
             [ ("cmap", EStr "gist_rainbow")
             ; ("vmin", ECall $"m"#"min" [] [])
             ; ("vmax", ECall $"m"#"max" [] [])
             ])
      ; (* line 207: axs[4][1].set_title('Normal Equations Inverted Model iter y-z') *)
        SExpr
          (ECall (ESubscript (ESubscript $"axs" (EInt 4)) (EInt 1))#"set_title"
             [EStr "Normal Equations Inverted Model iter y-z"]
             [])
      ; (* line 208: axs[4][1].axis('tight') *)
        SExpr
          (ECall (ESubscript (ESubscript $"axs" (EInt 4)) (EInt 1))#"axis" [EStr "tight"] [])
      ; (* line 209: axs[4][2].imshow(minv3d_ne[:, :, 220].T.get(), cmap='gist_rainbow', vmin=m.min(), vmax=m.max()) *)
        SExpr
          (ECall (ESubscript (ESubscript $"axs" (EInt 4)) (EInt 2))#"imshow"
             [ ECall
                 ((ESubscript $"minv3d_ne"
                     (ETuple [ESlice None None None; ESlice None None None; EInt 220]))#"T")#"get"
                 []
                 []
             ]
             [ ("cmap", EStr "gist_rainbow")
             ; ("vmin", ECall $"m"#"min" [] [])
             ; ("vmax", ECall $"m"#"max" [] [])
             ])
      ; (* line 210: axs[4][2].set_title('Normal Equations Inverted Model iter x-y') *)
        SExpr
          (ECall (ESubscript (ESubscript $"axs" (EInt 4)) (EInt 2))#"set_title"
             [EStr "Normal Equations Inverted Model iter x-y"]
             [])
      ; (* line 211: axs[4][2].axis('tight') *)
        SExpr
          (ECall (ESubscript (ESubscript $"axs" (EInt 4)) (EInt 2))#"axis" [EStr "tight"] [])
      ; (* line 213: axs[5][0].imshow(minv3d_reg[5, :, :].T.get(), cmap="gist_rainbow", vmin=m.min(), vmax=m.max()) *)
        SExpr
          (ECall (ESubscript (ESubscript $"axs" (EInt 5)) (EInt 0))#"imshow"
             [ ECall
                 ((ESubscript $"minv3d_reg"
                     (ETuple [EInt 5; ESlice None None None; ESlice None None None]))#"T")#"get"
                 []
                 []
             ]
             [ ("cmap", EStr "gist_rainbow")
             ; ("vmin", ECall $"m"#"min" [] [])
             ; ("vmax", ECall $"m"#"max" [] [])
             ])
      ; (* line 214: axs[5][0].set_title("Regularized Inverted Model iter x-z") *)
        SExpr
          (ECall (ESubscript (ESubscript $"axs" (EInt 5)) (EInt 0))#"set_title"
             [EStr "Regularized Inverted Model iter x-z"]
             [])
      ; (* line 215: axs[5][0].axis("tight") *)
        SExpr
          (ECall (ESubscript (ESubscript $"axs" (EInt 5)) (EInt 0))#"axis" [EStr "tight"] [])
      ; (* line 216: axs[5][1].imshow(minv3d_reg[:, 200, :].T.get(), cmap='gist_rainbow', vmin=m.min(), vmax=m.max()) *)
        SExpr
          (ECall (ESubscript (ESubscript $"axs" (EInt 5)) (EInt 1))#"imshow"
             [ ECall
                 ((ESubscript $"minv3d_reg"
                     (ETuple [ESlice None None None; EInt 200; ESlice None None None]))#"T")#"get"
                 []
                 []
             ]
             [ ("cmap", EStr "gist_rainbow")
             ; ("vmin", ECall $"m"#"min" [] [])
             ; ("vmax", ECall $"m"#"max" [] [])
             ])
      ; (* line 217: axs[5][1].set_title('Regularized Inverted Model iter y-z') *)
        SExpr
          (ECall (ESubscript (ESubscript $"axs" (EInt 5)) (EInt 1))#"set_title"
             [EStr "Regularized Inverted Model iter y-z"]
             [])
      ; (* line 218: axs[5][1].axis('tight') *)
        SExpr
          (ECall (ESubscript (ESubscript $"axs" (EInt 5)) (EInt 1))#"axis" [EStr "tight"] [])
      ; (* line 219: axs[5][2].imshow(minv3d_reg[:, :, 220].T.get(), cmap='gist_rainbow', vmin=m.min(), vmax=m.max()) *)
        SExpr
          (ECall (ESubscript (ESubscript $"axs" (EInt 5)) (EInt 2))#"imshow"
             [ ECall
                 ((ESubscript $"minv3d_reg"
                     (ETuple [ESlice None None None; ESlice None None None; EInt 220]))#"T")#"get"
                 []
                 []
             ]
             [ ("cmap", EStr "gist_rainbow")
             ; ("vmin", ECall $"m"#"min" [] [])
             ; ("vmax", ECall $"m"#"max" [] [])
             ])
      ; (* line 220: axs[5][2].set_title('Regularized Inverted Model iter x-y') *)
        SExpr
          (ECall (ESubscript (ESubscript $"axs" (EInt 5)) (EInt 2))#"set_title"
             [EStr "Regularized Inverted Model iter x-y"]
             [])
      ; (* line 221: axs[5][2].axis('tight') *)
        SExpr
          (ECall (ESubscript (ESubscript $"axs" (EInt 5)) (EInt 2))#"axis" [EStr "tight"] [])
      ]
      []
  ].

End Scripts.

(** ** The parts of a script *)

Module Structure.
Import Python Syntax Scripts.

(** The dotted paths of the functions a statement calls, at any depth. *)
Definition callee (e : expr) : option (list string) :=
  match e with
  | ECall f _ _ => dotted f
  | _ => None
  end.

Definition called (s : stmt) : list (list string) := omap callee (stmt_calls s).

(** The imports are the first nine statements of both scripts.  The
    initialization of the communicator follows them: lines 30-33 of
    [poststack_cupy.py] (four statements), lines 26-28 of
    [poststack_nccl.py] (three statements). *)
Definition imports (script : list stmt) : list stmt := take 9 script.
Definition init_cupy : list stmt := take 4 (drop 9 poststack_cupy).
Definition init_nccl : list stmt := take 3 (drop 9 poststack_nccl).
Definition after_init_cupy : list stmt := drop 13 poststack_cupy.
Definition after_init_nccl : list stmt := drop 12 poststack_nccl.

(** What the NCCL script writes differently after the initialization:
    - [pylops_mpi.DistributedArray(global_shape=..., engine=...)] gets
      [base_comm_nccl=nccl_comm] after its first keyword;
    - [PoststackLinearModelling(cp.asarray(wav.astype(np.float32)), ...)]
      becomes [PoststackLinearModelling(wav=cp.asarray(wav), ...)];
    - [np.allclose(cp.asnumpy(a), b, atol=1e-6)] becomes [np.allclose(a, b)]. *)
Definition nccl_call (f : expr) (args : list expr) (kws : list (string * expr)) : expr :=
  if bool_decide (dotted f = Some ["pylops_mpi"; "DistributedArray"]) then
    match kws with
    | k :: rest => ECall f args (k :: ("base_comm_nccl", $"nccl_comm") :: rest)
    | [] => ECall f args kws
    end
  else if bool_decide (dotted f = Some ["PoststackLinearModelling"]) then
    match args with
    | [ECall g [ECall (EAttr w a) [_] []] []] =>
        if String.eqb a "astype" then ECall f [] (("wav", ECall g [w] []) :: kws)
        else ECall f args kws
    | _ => ECall f args kws
    end
  else if bool_decide (dotted f = Some ["np"; "allclose"]) then
    match args, kws with
    | [ECall g [a] []; b], [(k, EFloat 1 (-6))] =>
        if bool_decide (dotted g = Some ["cp"; "asnumpy"]) && String.eqb k "atol"
        then ECall f [a; b] []
        else ECall f args kws
    | _, _ => ECall f args kws
    end
  else ECall f args kws.

Fixpoint to_nccl (e : expr) : expr :=
  match e with
  | EName _ | EInt _ | EFloat _ _ | EStr _ | EBool _ => e
  | EAttr e a => EAttr (to_nccl e) a
  | ECall f args kws =>
      nccl_call (to_nccl f) (map to_nccl args)
                (map (fun ka => (fst ka, to_nccl (snd ka))) kws)
  | ESubscript e i => ESubscript (to_nccl e) (to_nccl i)
  | ESlice lo hi st => ESlice (to_nccl <$> lo) (to_nccl <$> hi) (to_nccl <$> st)
  | ETuple es => ETuple (map to_nccl es)
  | EList es => EList (map to_nccl es)
  | EBinOp l op r => EBinOp (to_nccl l) op (to_nccl r)
  | EUSub e => EUSub (to_nccl e)
  | ECompareEq l r => ECompareEq (to_nccl l) (to_nccl r)
  end.

Fixpoint to_nccl_stmt (s : stmt) : stmt :=
  match s with
  | SImport _ _ | SImportFrom _ _ _ => s
  | SAssign t v => SAssign (to_nccl t) (to_nccl v)
  | SExpr v => SExpr (to_nccl v)
  | SIf t b o => SIf (to_nccl t) (map to_nccl_stmt b) (map to_nccl_stmt o)
  | STry b h => STry (map to_nccl_stmt b) (map to_nccl_stmt h)
  end.

(** The names a statement binds or fills: [x = ...], [x, y = ...] and
    [x[...] = ...]. *)
Definition writes (s : stmt) : list string :=
  match s with
  | SAssign (ESubscript (EName x) _) _ => [x]
  | _ => stores s
  end.

(** The first statement of a block that writes [x] and calls [f]. *)
Definition is_step (x : string) (f : list string) (s : stmt) : bool :=
  bool_decide (x ∈ writes s) && bool_decide (f ∈ called s).

Fixpoint find_index (p : stmt -> bool) (blk : list stmt) : option nat :=
  match blk with
  | [] => None
  | s :: blk' => if p s then Some 0%nat else S <$> find_index p blk'
  end.

Definition find_step (x : string) (f : list string) (blk : list stmt) : option nat :=
  find_index (is_step x f) blk.

(** The single-name bindings a statement makes, with the expression
    bound: [x, y = a, b] binds [x] to [a] and [y] to [b]; [x, y = e] binds
    [x] to [e[0]] and [y] to [e[1]]. *)
Definition bindings (s : stmt) : list (string * expr) :=
  match s with
  | SAssign (EName x) v => [(x, v)]
  | SAssign (ETuple ts) v =>
      let items :=
        match v with
        | ETuple vs => vs
        | _ => map (fun k => ESubscript v (EInt (Z.of_nat k))) (seq 0 (length ts))
        end in
      omap (fun tv => match fst tv with
                      | EName x => Some (x, snd tv)
                      | _ => None
                      end) (zip ts items)
  | _ => []
  end.

(** Every expression bound to [x] at the top level of a script, in order. *)
Definition definitions (x : string) (script : list stmt) : list expr :=
  map snd (filter (fun b => fst b = x) (flat_map bindings script)).

(** The calls of the solvers of [pylops_mpi.optimization.basic]. *)
Definition is_solver_call (e : expr) : bool :=
  match callee e with
  | Some ["pylops_mpi"; "optimization"; "basic"; _] => true
  | _ => false
  end.

Definition solver_calls (script : list stmt) : list expr :=
  List.filter is_solver_call (flat_map stmt_calls script).

(** The calls of [pylops_mpi.DistributedArray]. *)
Definition distributed_arrays (script : list stmt) : list expr :=
  List.filter (fun e => bool_decide (callee e = Some ["pylops_mpi"; "DistributedArray"]))
              (flat_map stmt_calls script).

Definition keyword (k : string) (e : expr) : option expr :=
  match e with
  | ECall _ _ kws => snd <$> List.find (fun ka => String.eqb (fst ka) k) kws
  | _ => None
  end.

(** Printing and drawing: a call of [print], of [plt.subplots], or of a
    method [imshow], [set_title] or [axis]. *)
Definition is_output_call (e : expr) : bool :=
  match e with
  | ECall (EName f) _ _ => String.eqb f "print"
  | ECall (EAttr _ a) _ _ =>
      bool_decide (a ∈ ["subplots"; "imshow"; "set_title"; "axis"])
  | _ => false
  end.

Definition output_calls (blk : list stmt) : list expr :=
  List.filter is_output_call (flat_map stmt_calls blk).

Definition is_print_of (label : string) (s : stmt) : bool :=
  match s with
  | SExpr (ECall (EName f) (EStr l :: _) _) => String.eqb f "print" && String.eqb l label
  | _ => false
  end.

Definition draws (s : stmt) : bool :=
  existsb (fun e => match e with
                    | ECall (EAttr _ a) _ _ =>
                        bool_decide (a ∈ ["subplots"; "imshow"; "set_title"; "axis"])
                    | _ => false
                    end) (stmt_calls s).

(** The last statement of both scripts is the [if rank == 0:] block. *)
Definition rank0_test : expr := ECompareEq $"rank" (EInt 0).

Definition before_if (script : list stmt) : list stmt := removelast script.

Definition rank0_block (script : list stmt) : list stmt :=
  match last script with
  | Some (SIf _ body _) => body
  | _ => []
  end.

(** The steps of a script, in the order of the source: the first
    statement that writes the name and calls the function. *)
Definition steps : list (string * list string) :=
  [ ("model", ["np"; "load"])
  ; ("m3d_i", ["np"; "tile"])
  ; ("mback3d_i", ["filtfilt"])
  ; ("m3d_dist", ["cp"; "asarray"])
  ; ("mback3d_dist", ["cp"; "asarray"])
  ; ("PPop", ["PoststackLinearModelling"])
  ; ("Top", ["Transpose"])
  ; ("BDiag", ["pylops_mpi"; "basicoperators"; "MPIBlockDiag"])
  ; ("minv3d_iter_dist", ["pylops_mpi"; "optimization"; "basic"; "cgls"])
  ; ("minv3d_ne_dist", ["pylops_mpi"; "optimization"; "basic"; "cg"])
  ; ("minv3d_reg_dist", ["pylops_mpi"; "optimization"; "basic"; "cgls"]) ].

(** Where each step stands in a script, followed by the first statement
    that draws. *)
Definition step_positions (script : list stmt) : list (option nat) :=
  map (fun xf => find_step (fst xf) (snd xf) script) steps ++ [find_index draws script].

(** The forward operator is built before the distributed arrays are
    filled. *)
Definition operator_before_fill (script : list stmt) : Prop :=
  exists i j,
    find_step "BDiag" ["pylops_mpi"; "basicoperators"; "MPIBlockDiag"] script = Some i /\
    find_step "m3d_dist" ["cp"; "asarray"] script = Some j /\
    (i < j)%nat.

(** The expression bound to [d] and to [d_0] (lines 102 and 104 of
    [poststack_cupy.py], 100 and 102 of [poststack_nccl.py]). *)
Definition gathered_data : expr :=
  ECall (ECall $"d_dist"#"asarray" [] [])#"reshape" [ETuple [$"ny"; $"nx"; $"nz"]] [].

(** The expression bound to [d0] and to [d0_0] in the rank-0 block
    (lines 155-156 of [poststack_cupy.py], 154-155 of [poststack_nccl.py]). *)
Definition local_data : expr :=
  ECall (EBinOp $"PPop0" MatMult
           (ECall $"m3d"#"transpose" [EInt 2; EInt 0; EInt 1] []))#"transpose"
        [EInt 1; EInt 2; EInt 0] [].

(** Line 33 of [poststack_cupy.py], [cp.cuda.Device(rank %
    device_count).use()], and the device index it computes. *)
Definition device_index : expr := EBinOp $"rank" Mod $"device_count".
Definition device_stmt : stmt :=
  SExpr (ECall (ECall $"cp"#"cuda"#"Device" [device_index] [])#"use" [] []).

(** Calls in which the ranks take part together: a call of something of
    [MPI] or of [pylops_mpi], and the method call [x.asarray()] of a
    distributed array (which gathers, lines 96-97). *)
Definition is_collective (e : expr) : bool :=
  match e with
  | ECall f args _ =>
      match dotted f with
      | Some (root :: path) =>
          String.eqb root "MPI" || String.eqb root "pylops_mpi"
          || (bool_decide (last path = Some "asarray") && Nat.eqb (length args) 0)
      | _ => false
      end
  | _ => false
  end.

Definition collective_calls (blk : list stmt) : list expr :=
  List.filter is_collective (flat_map stmt_calls blk).

(** An inversion (lines 113-115, 128-130 and 142-144 of
    [poststack_cupy.py]):
    [x = pylops_mpi.optimization.basic.solver(op, data, x0=mback3d_dist,
    niter=100, show=True)[0]]. *)
Definition inversion (x solver op data : string) : stmt :=
  SAssign $x
    (ESubscript
       (ECall $"pylops_mpi"#"optimization"#"basic"#solver [$op; $data]
          [("x0", $"mback3d_dist"); ("niter", EInt 100); ("show", EBool true)])
       (EInt 0)).

(** The three inversions: the name bound, the solver, the operator and
    the data. *)
Definition inversions : list (string * string * string * string) :=
  [ ("minv3d_iter_dist", "cgls", "BDiag", "d_dist")
  ; ("minv3d_ne_dist", "cg", "NormEqOp", "dnorm_dist")
  ; ("minv3d_reg_dist", "cgls", "StackOp", "dstack_dist") ].

Definition inversion_stmt (i : string * string * string * string) : stmt :=
  let '(x, solver, op, data) := i in inversion x solver op data.

(** The top-level statements in which a solver is called, at any depth. *)
Definition solver_stmts (script : list stmt) : list stmt :=
  List.filter (fun s => existsb is_solver_call (stmt_calls s)) script.

(** The stages of a script.  A statement belongs to a stage by what it
    calls, at any depth: it draws; it calls [np.load], [np.tile],
    [filtfilt]; it assigns a [cp.asarray(...)] to the items of an object;
    it calls [PoststackLinearModelling], [Transpose] or [MPIBlockDiag]; it
    calls a solver. *)
Inductive stage :=
| Loading | Tiling | Smoothing | Filling | Building | Inverting | Plotting.

Definition stage_eqb (g h : stage) : bool :=
  match g, h with
  | Loading, Loading | Tiling, Tiling | Smoothing, Smoothing | Filling, Filling
  | Building, Building | Inverting, Inverting | Plotting, Plotting => true
  | _, _ => false
  end.

Definition calls_any (fs : list (list string)) (s : stmt) : bool :=
  existsb (fun f => bool_decide (f ∈ called s)) fs.

Definition is_fill (s : stmt) : bool :=
  match s with
  | SAssign (ESubscript _ _) _ => calls_any [["cp"; "asarray"]] s
  | _ => false
  end.

Definition stage_of (s : stmt) : option stage :=
  if draws s then Some Plotting
  else if calls_any [["np"; "load"]] s then Some Loading
  else if calls_any [["np"; "tile"]] s then Some Tiling
  else if calls_any [["filtfilt"]] s then Some Smoothing
  else if is_fill s then Some Filling
  else if calls_any [["PoststackLinearModelling"]; ["Transpose"];
                     ["pylops_mpi"; "basicoperators"; "MPIBlockDiag"]] s
  then Some Building
  else if existsb is_solver_call (stmt_calls s) then Some Inverting
  else None.

(** The top-level statements of a stage, in the order of the script. *)
Definition in_stage (g : stage) (script : list stmt) : list stmt :=
  List.filter (fun s => match stage_of s with
                        | Some h => stage_eqb g h
                        | None => false
                        end) script.

(** The calls of a function, at any depth of a script. *)
Definition calls_of (f : list string) (script : list stmt) : list expr :=
  List.filter (fun e => bool_decide (callee e = Some f)) (flat_map stmt_calls script).

End Structure.

(** ** The array computations of lines 43-82

    An array is its shape and its items by multi-index; only in-range
    indices matter.  Items are of an arbitrary type [A] (the scripts hold
    floating-point numbers, on which nothing is assumed). *)

Module Numpy.

Record ndarray (A : Type) := Array {
  shape : list nat;
  item : list nat -> A
}.
Arguments Array {A} shape item.
Arguments shape {A} _.
Arguments item {A} _ _.

Section Arrays.
Context {A : Type}.

(** [idx] is a valid multi-index of an array of shape [sh]. *)
Definition in_range (sh idx : list nat) : Prop := Forall2 (fun i n => (i < n)%nat) idx sh.

(** Two arrays with the same shape and the same items. *)
Definition same (a b : ndarray A) : Prop :=
  shape a = shape b /\ forall idx, in_range (shape a) idx -> item a idx = item b idx.

(** All multi-indices of a shape, last axis fastest, and [a.flatten()]. *)
Fixpoint indices (sh : list nat) : list (list nat) :=
  match sh with
  | [] => [[]]
  | n :: sh' => flat_map (fun i => map (cons i) (indices sh')) (seq 0 n)
  end.

Definition flatten (a : ndarray A) : list A := map (item a) (indices (shape a)).

(** An elementwise function, such as [np.log]. *)
Definition elementwise (f : A -> A) (a : ndarray A) : ndarray A :=
  Array (shape a) (fun idx => f (item a idx)).

(** [a[..., ::k, ...]] with the step on axis [ax]: every [k]-th item, so
    [ceil (n / k)] of [n]. *)
Definition step_axis (ax k : nat) (a : ndarray A) : ndarray A :=
  Array (alter (fun n => Nat.div (n + k - 1) k) ax (shape a))
        (fun idx => item a (alter (fun i => (k * i)%nat) ax idx)).

(** [a[..., np.newaxis]]: a new last axis of length 1. *)
Definition newaxis_last (a : ndarray A) : ndarray A :=
  Array (shape a ++ [1%nat]) (fun idx => item a (take (length (shape a)) idx)).

(** [np.tile(a, reps)] with as many repetitions as axes. *)
Definition tile (reps : list nat) (a : ndarray A) : ndarray A :=
  Array (zip_with Nat.mul (shape a) reps)
        (fun idx => item a (zip_with Nat.modulo idx (shape a))).

(** [a.transpose(axes)]: axis [k] of the result is axis [axes[k]] of [a]. *)
Definition transpose (axes : list nat) (a : ndarray A) : ndarray A :=
  Array (map (fun p => nth p (shape a) 0%nat) axes)
        (fun idx =>
           item a (foldr (fun pi acc => <[fst pi := snd pi]> acc)
                         (replicate (length axes) 0%nat) (zip axes idx))).

(** [a.T] of a 2-D array. *)
Definition T (a : ndarray A) : ndarray A := transpose [1; 0]%nat a.

(** [a[j]] (that is [a[j, :, ...]]) for [0 <= j]: an [IndexError] is [None]. *)
Definition getitem0 (j : nat) (a : ndarray A) : option (ndarray A) :=
  match shape a with
  | n :: sh => if (j <? n)%nat then Some (Array sh (fun idx => item a (j :: idx))) else None
  | [] => None
  end.

(** [np.concatenate(arrays)] along axis 0: the arrays must agree on the
    other axes; a [ValueError] is [None]. *)
Fixpoint concat_item (arrays : list (ndarray A)) (i : nat) (idx : list nat) : option A :=
  match arrays with
  | [] => None
  | a :: rest =>
      let n := hd 0%nat (shape a) in
      if (i <? n)%nat then Some (item a (i :: idx)) else concat_item rest (i - n) idx
  end.

Definition concatenate (arrays : list (ndarray A)) : option (ndarray A) :=
  match arrays with
  | [] => None
  | a0 :: _ =>
      match shape a0 with
      | [] => None
      | _ :: sh =>
          if forallb (fun a => match shape a with
                               | [] => false
                               | _ :: sh' => bool_decide (sh' = sh)
                               end) arrays
          then Some (Array (list_sum (map (fun a => hd 0%nat (shape a)) arrays) :: sh)
                       (fun idx => match idx with
                                   | i :: idx' =>
                                       match concat_item arrays i idx' with
                                       | Some v => v
                                       | None => item a0 idx
                                       end
                                   | [] => item a0 idx
                                   end))
          else None
      end
  end.

(** [a[:, ..., j, ..., :]] with the integer [j] on axis [ax] and full
    slices elsewhere: the axis disappears; an [IndexError] is [None]. *)
Definition getitem_axis (ax j : nat) (a : ndarray A) : option (ndarray A) :=
  match shape a !! ax with
  | Some n =>
      if (j <? n)%nat
      then Some (Array (take ax (shape a) ++ drop (S ax) (shape a))
                       (fun idx => item a (take ax idx ++ j :: drop ax idx)))
      else None
  | None => None
  end.

(** The number of items of an array of shape [sh], and the position of the
    item [idx] when the items are laid out with the last axis fastest. *)
Definition size (sh : list nat) : nat := foldr Nat.mul 1%nat sh.

Fixpoint ravel (sh idx : list nat) : nat :=
  match sh, idx with
  | _ :: sh', i :: idx' => (i * size sh' + ravel sh' idx')%nat
  | _, _ => 0%nat
  end.

(** [v.reshape(sh)] of a flat array [v]: a [ValueError] is [None].  [d] is
    the item returned outside the range of [sh]. *)
Definition reshape (d : A) (sh : list nat) (v : list A) : option (ndarray A) :=
  if (length v =? size sh)%nat
  then Some (Array sh (fun idx => nth (ravel sh idx) v d))
  else None.

(** The collectives of [MPI.COMM_WORLD] over the per-rank values. *)
Definition allreduce (per_rank : list nat) : nat := list_sum per_rank.
Definition allgather {B} (per_rank : list B) : list B := per_rank.

(** *** What one rank computes

    [log] is [np.log] on an item; [filtfilt n ax] is
    [filtfilt(np.ones(n) / float(n), 1, _, axis=ax)] of SciPy;
    [model] is the array [model['model']] of the loaded file. *)
Variable log : A -> A.
Variable filtfilt : nat -> nat -> ndarray A -> ndarray A.

(** line 43 *)
Definition m (model : ndarray A) : ndarray A :=
  step_axis 1 3 (elementwise log model).

(** line 46, before the shape is read back on line 49 *)
Definition ny_i0 : nat := 20.

(** line 48 *)
Definition m3d_i (model : ndarray A) : ndarray A :=
  transpose [2; 1; 0]%nat (tile [1; 1; ny_i0]%nat (newaxis_last (m model))).

(** line 49: [ny_i, nx, nz = m3d_i.shape] *)
Definition ny_i (model : ndarray A) : nat := nth 0 (shape (m3d_i model)) 0%nat.
Definition nx (model : ndarray A) : nat := nth 1 (shape (m3d_i model)) 0%nat.
Definition nz (model : ndarray A) : nat := nth 2 (shape (m3d_i model)) 0%nat.

(** lines 55-58 *)
Definition nsmoothy : nat := 5.
Definition nsmoothx : nat := 30.
Definition nsmoothz : nat := 20.
Definition mback3d_i (model : ndarray A) : ndarray A :=
  filtfilt nsmoothz 2 (filtfilt nsmoothx 1 (filtfilt nsmoothy 0 (m3d_i model))).

(** *** What the ranks compute together

    [models] holds, rank by rank, the array each process has loaded. *)

(** line 52 *)
Definition ny (models : list (ndarray A)) : nat := allreduce (map ny_i models).

(** lines 67-68 *)
Definition m3d (models : list (ndarray A)) : option (ndarray A) :=
  concatenate (allgather (map m3d_i models)).
Definition mback3d (models : list (ndarray A)) : option (ndarray A) :=
  concatenate (allgather (map mback3d_i models)).

(** lines 75, 80 and 137: [global_shape=ny * nx * nz] on the rank that
    loaded [model] *)
Definition global_shape (models : list (ndarray A)) (model : ndarray A) : nat :=
  (ny models * nx model * nz model)%nat.

(** lines 164-182 (162-180 of [poststack_nccl.py]): the three sections
    of a volume that the figure shows, [a[5, :, :]], [a[:, 200, :]] and
    [a[:, :, 220]]. *)
Definition section_xz (a : ndarray A) : option (ndarray A) := getitem_axis 0 5 a.
Definition section_yz (a : ndarray A) : option (ndarray A) := getitem_axis 1 200 a.
Definition section_xy (a : ndarray A) : option (ndarray A) := getitem_axis 2 220 a.

End Arrays.

(** A concrete input: a 2 x 7 array of naturals.  With it the successor
    stands for the logarithm and the identity for the filter. *)
Definition sample_model : ndarray nat :=
  Array [2; 7]%nat (fun idx => match idx with
                               | [z; x] => (10 * z + x)%nat
                               | _ => 0%nat
                               end).

End Numpy.

(** ** A small stand-in for the libraries

    Used to run the scripts on concrete answers: [r] is the rank of the
    process, [P] the number of ranks, arrays have the local shape
    [(20, 4, 6)].  Every answer depends on the query only. *)

Module Demo.
Import Python.

Definition method (o : val) : string :=
  match o with
  | VObj "attr" [VStr a] => a
  | _ => ""
  end.

Definition answer (r P : Z) (q : query) : result val :=
  match q with
  | QGetAttr _ a =>
      if String.eqb a "shape" then Ok (VTuple [VInt 20; VInt 4; VInt 6])
      else Ok (VObj "attr" [VStr a])
  | QCall f args _ =>
      if String.eqb (method f) "Get_rank" then Ok (VInt r)
      else if String.eqb (method f) "getDeviceCount" then Ok (VInt 1)
      else if String.eqb (method f) "allreduce" then
        match args with
        | [VInt n] => Ok (VInt (n * P))
        | _ => Raise (exn "TypeError")
        end
      else if String.eqb (method f) "subplots" then
        Ok (VTuple [VObj "figure" []; VObj "axes" []])
      else Ok (VObj "value" [])
  | QGetItem _ _ | QBinOp _ _ _ | QNeg _ => Ok (VObj "value" [])
  | QSetItem _ _ _ => Ok VNone
  | QEq _ _ => Ok (VBool false)
  end.

Definition demo (r P : Z) : library :=
  Library unit (fun _ q => (tt, answer r P q)).

(** The same answers from a library that counts the calls it gets. *)
Definition counting (r P : Z) : library :=
  Library nat (fun n q => (S n, answer r P q)).

(** A library that keeps count of the item assignments: every
    [DistributedArray] it creates carries the count at its creation, so the
    arrays of the scripts, created with item assignments in between, are
    told apart. *)
Definition recording (r P : Z) : library :=
  Library nat (fun n q =>
    match q with
    | QSetItem _ _ _ => (S n, Ok VNone)
    | QCall f _ _ =>
        if String.eqb (method f) "DistributedArray"
        then (n, Ok (VObj "array" [VInt (Z.of_nat n)]))
        else (n, answer r P q)
    | _ => (n, answer r P q)
    end).

(** A machine without a GPU: [getDeviceCount()] is 0. *)
Definition no_gpu (r : Z) : library :=
  Library unit (fun _ q =>
    (tt, match q with
         | QCall f _ _ =>
             if String.eqb (method f) "getDeviceCount" then Ok (VInt 0)
             else answer r 1 q
         | _ => answer r 1 q
         end)).

(** A library in which loading the input file fails. *)
Definition no_file : library :=
  Library unit (fun _ q =>
    (tt, match q with
         | QCall f _ _ =>
             if String.eqb (method f) "load" then Raise (exn "FileNotFoundError")
             else answer 0 1 q
         | _ => answer 0 1 q
         end)).

(** Where in a log the calls of [print] and of a method stand. *)
Definition calls_print (qa : query * result val) : bool :=
  match fst qa with
  | QCall (VObj "builtin" [VStr "print"]) _ _ => true
  | _ => false
  end.

Definition calls_method (m : string) (qa : query * result val) : bool :=
  match fst qa with
  | QCall f _ _ => String.eqb (method f) m
  | _ => false
  end.

Fixpoint positions {A} (p : A -> bool) (l : list A) (i : nat) : list nat :=
  match l with
  | [] => []
  | a :: l' => if p a then i :: positions p l' (S i) else positions p l' (S i)
  end.

End Demo.

(** ** Properties of runs

    The predicates in which the facts about the interpreter are stated. *)

Module Properties.
Import Python.

(** A library call other than the assignment of an item. *)
Definition is_read (q : query) : Prop :=
  match q with
  | QSetItem _ _ _ => False
  | _ => True
  end.

(** A computation maintains [Q], a relation between the state before and
    the outcome. *)
Definition keeps (L : library)
    (Q : forall B : Type, state L -> state L * result B -> Prop)
    {B} (m : M L B) : Prop :=
  forall st, Q B st (m st).

(** A log entry is fine when the library answered with a value.  An outcome
    is faithful to the log when the calls made were all answered with
    values, or all but the last were and the exception of the last one is
    the outcome. *)
Definition ok_entry (qa : query * result val) : Prop :=
  match snd qa with Ok _ => True | Raise _ => False end.

#[export] Instance ok_entry_dec (qa : query * result val) : Decision (ok_entry qa).
Proof. unfold ok_entry. destruct (snd qa); [left; exact I|right; intros []]. Defined.

Definition faithful (L : library) (B : Type)
    (st : state L) (out : state L * result B) : Prop :=
  exists new, log L (fst out) = log L st ++ new /\
    (Forall ok_entry new \/
     exists oks q e, new = oks ++ [(q, Raise e)] /\ Forall ok_entry oks /\
                     snd out = Raise e).

(** Two name spaces agree on the names [X]. *)
Definition agree (X : list string) (s1 s2 : gmap string val) : Prop :=
  Forall (fun x => s1 !! x = s2 !! x) X.

Section TwoLibraries.
Variables L1 L2 : library.
Variable R : lstate L1 -> lstate L2 -> Prop.

(** Two outcomes match: same result, same calls made, name spaces
    untouched. *)
Definition matches {B} (st1 : state L1) (st2 : state L2)
    (o1 : state L1 * result B) (o2 : state L2 * result B) : Prop :=
  snd o1 = snd o2 /\
  R (lib L1 (fst o1)) (lib L2 (fst o2)) /\
  store L1 (fst o1) = store L1 st1 /\
  store L2 (fst o2) = store L2 st2 /\
  exists new, log L1 (fst o1) = log L1 st1 ++ new /\
              log L2 (fst o2) = log L2 st2 ++ new.

(** Two computations that match whenever the library states are related
    and the name spaces agree on [X]. *)
Definition related {B} (X : list string) (m1 : M L1 B) (m2 : M L2 B) : Prop :=
  forall st1 st2,
    R (lib L1 st1) (lib L2 st2) ->
    agree X (store L1 st1) (store L2 st2) ->
    matches st1 st2 (m1 st1) (m2 st2).

(** Statements: from equal name spaces and equal logs, both runs go
    through the same steps. *)
Definition sim (st1 : state L1) (st2 : state L2) : Prop :=
  R (lib L1 st1) (lib L2 st2) /\
  store L1 st1 = store L2 st2 /\
  log L1 st1 = log L2 st2.

Definition alike {B} (m1 : M L1 B) (m2 : M L2 B) : Prop :=
  forall st1 st2, sim st1 st2 ->
    snd (m1 st1) = snd (m2 st2) /\ sim (fst (m1 st1)) (fst (m2 st2)).

End TwoLibraries.

(** The names [bound] are bound in the state. *)
Definition has (L : library) (bound : list string) (st : state L) : Prop :=
  Forall (fun x => is_Some (store L st !! x)) bound.

(** An outcome is not a [NameError] of the interpreter's own: when every
    call made was answered with a value, the outcome is no [NameError]. *)
Definition blameless (L : library) {B} (st : state L) (out : state L * result B) : Prop :=
  exists new, log L (fst out) = log L st ++ new /\
    (Forall ok_entry new -> snd out <> Raise (exn "NameError")).

(** A computation that, from a state with the names [bound], is blameless,
    keeps these names, and has the names [bound'] when it succeeds. *)
Definition binds (L : library) (bound bound' : list string) {B} (m : M L B) : Prop :=
  forall st, has L bound st ->
    blameless L st (m st) /\
    has L bound (fst (m st)) /\
    (forall b, snd (m st) = Ok b -> has L bound' (fst (m st))).

(** The attributes read in a log, in order, and those among them that
    name a solver of [pylops_mpi.optimization.basic]. *)
Definition attr_reads (l : list (query * result val)) : list string :=
  omap (fun qa => match fst qa with
                  | QGetAttr _ a => Some a
                  | _ => None
                  end) l.

Definition solver_reads (l : list (query * result val)) : list string :=
  List.filter (fun a => bool_decide (a ∈ ["cgls"; "cg"])) (attr_reads l).

(** A computation that, when it succeeds, has read the attributes [xs],
    in this order, and no other. *)
Definition reads (L : library) {B : Type} (xs : list string) (m : M L B) : Prop :=
  forall st st' b, m st = (st', Ok b) ->
    attr_reads (log L st') = attr_reads (log L st) ++ xs.

(** The value passed for the keyword [k] in a call. *)
Definition keyword_value (k : string) (q : query) : option val :=
  match q with
  | QCall _ _ kws => snd <$> List.find (fun kv => String.eqb (fst kv) k) kws
  | _ => None
  end.

(** Modelled from the spec: the solvers [cgls] and [cg] of
    [pylops_mpi.optimization.basic] are not among the sources.  The spec
    has them iterative and C5 has them started from [x0]: a solver called
    with [x0=x] starts from [x]. *)
Definition solver_start (q : query) : option val := keyword_value "x0" q.

(** Modelled from the spec: the solvers [cgls] and [cg] of
    [pylops_mpi.optimization.basic] are not among the sources.  The spec
    has them iterative and C5 has them run [niter] iterations: a solver
    called with [niter=n] runs [n] iterations.  Whether a solver may stop
    before that is not decided by the scripts. *)
Definition solver_iterations (q : query) : option Z :=
  match keyword_value "niter" q with
  | Some (VInt n) => Some n
  | _ => None
  end.

(** What a statement [x = pylops_mpi.optimization.basic.solver(op, data,
    x0=mback3d_dist, niter=100, show=True)[0]] does between the states
    [st1] and [st2]: it reads the solver off [pylops_mpi], calls it once
    with the values of [op], [data] and [mback3d_dist], and takes item 0
    of the answer. *)
Definition ran_inversion (L : library) (solver op data : string) (vm : val)
    (st1 st2 : state L) : Prop :=
  exists pm o bs f va vb r rest,
    store L st1 !! "pylops_mpi" = Some pm /\
    store L st1 !! op = Some va /\
    store L st1 !! data = Some vb /\
    store L st1 !! "mback3d_dist" = Some vm /\
    log L st2
    = log L st1
      ++ [ (QGetAttr pm "optimization", Ok o); (QGetAttr o "basic", Ok bs);
           (QGetAttr bs solver, Ok f);
           (QCall f [va; vb] [("x0", vm); ("niter", VInt 100); ("show", VBool true)],
            Ok r) ]
      ++ rest /\
    Forall (fun qa => exists o' i, fst qa = QGetItem o' i) rest /\
    solver_start (QCall f [va; vb] [("x0", vm); ("niter", VInt 100); ("show", VBool true)])
    = Some vm /\
    solver_iterations
      (QCall f [va; vb] [("x0", vm); ("niter", VInt 100); ("show", VBool true)])
    = Some 100.

End Properties.

(** ** Reasoning about the interpreter *)

Module Theory.
Import Python Syntax Properties.

(** Induction over expressions and statements, through the lists and
    options they are nested in. *)
Section ExprInd.
Variable P : expr -> Prop.
Hypothesis HName : forall x, P (EName x).
Hypothesis HInt : forall n, P (EInt n).
Hypothesis HFloat : forall m e, P (EFloat m e).
Hypothesis HStr : forall s, P (EStr s).
Hypothesis HBool : forall b, P (EBool b).
Hypothesis HAttr : forall e a, P e -> P (EAttr e a).
Hypothesis HCall : forall f args kws,
  P f -> Forall P args -> Forall (fun ka => P (snd ka)) kws -> P (ECall f args kws).
Hypothesis HSubscript : forall e i, P e -> P i -> P (ESubscript e i).
Hypothesis HSlice : forall lo hi st,
  from_option P True lo -> from_option P True hi -> from_option P True st ->
  P (ESlice lo hi st).
Hypothesis HTuple : forall es, Forall P es -> P (ETuple es).
Hypothesis HList : forall es, Forall P es -> P (EList es).
Hypothesis HBinOp : forall l op r, P l -> P r -> P (EBinOp l op r).
Hypothesis HUSub : forall e, P e -> P (EUSub e).
Hypothesis HCompareEq : forall l r, P l -> P r -> P (ECompareEq l r).

Fixpoint expr_nested_ind (e : expr) : P e :=
  let all := fix all (l : list expr) : Forall P l :=
    match l with
    | [] => Forall_nil_2 P
    | a :: l' => Forall_cons_2 P a l' (expr_nested_ind a) (all l')
    end in
  let allk := fix allk (l : list (string * expr)) : Forall (fun ka => P (snd ka)) l :=
    match l with
    | [] => Forall_nil_2 _
    | ka :: l' => Forall_cons_2 _ ka l' (expr_nested_ind (snd ka)) (allk l')
    end in
  let opt := fun o : option expr =>
    match o return from_option P True o with
    | None => I
    | Some a => expr_nested_ind a
    end in
  match e with
  | EName x => HName x
  | EInt n => HInt n
  | EFloat m e => HFloat m e
  | EStr s => HStr s
  | EBool b => HBool b
  | EAttr e a => HAttr e a (expr_nested_ind e)
  | ECall f args kws => HCall f args kws (expr_nested_ind f) (all args) (allk kws)
  | ESubscript e i => HSubscript e i (expr_nested_ind e) (expr_nested_ind i)
  | ESlice lo hi st => HSlice lo hi st (opt lo) (opt hi) (opt st)
  | ETuple es => HTuple es (all es)
  | EList es => HList es (all es)
  | EBinOp l op r => HBinOp l op r (expr_nested_ind l) (expr_nested_ind r)
  | EUSub e => HUSub e (expr_nested_ind e)
  | ECompareEq l r => HCompareEq l r (expr_nested_ind l) (expr_nested_ind r)
  end.
End ExprInd.

Section StmtInd.
Variable P : stmt -> Prop.
Hypothesis HImport : forall m a, P (SImport m a).
Hypothesis HImportFrom : forall m n a, P (SImportFrom m n a).
Hypothesis HAssign : forall t v, P (SAssign t v).
Hypothesis HExpr : forall v, P (SExpr v).
Hypothesis HIf : forall t b o, Forall P b -> Forall P o -> P (SIf t b o).
Hypothesis HTry : forall b h, Forall P b -> Forall P h -> P (STry b h).

Fixpoint stmt_nested_ind (s : stmt) : P s :=
  let all := fix all (l : list stmt) : Forall P l :=
    match l with
    | [] => Forall_nil_2 P
    | a :: l' => Forall_cons_2 P a l' (stmt_nested_ind a) (all l')
    end in
  match s with
  | SImport m a => HImport m a
  | SImportFrom m n a => HImportFrom m n a
  | SAssign t v => HAssign t v
  | SExpr v => HExpr v
  | SIf t b o => HIf t b o (all b) (all o)
  | STry b h => HTry b h (all b) (all h)
  end.
End StmtInd.

(** *** One library *)

Section OneLibrary.
Variable L : library.

Notation "x <- m ;; k" := (bind L m (fun x => k))
  (at level 100, m at next level, right associativity).

(** A block is executed statement by statement. *)
Lemma exec_block_cons (s : stmt) (blk : list stmt) :
  exec_block L (s :: blk) = bind L (exec L s) (fun _ => exec_block L blk).
Proof. reflexivity. Qed.

Lemma exec_block_app (b1 b2 : list stmt) (st : state L) :
  exec_block L (b1 ++ b2) st
  = bind L (exec_block L b1) (fun _ => exec_block L b2) st.
Proof.
  revert st. induction b1 as [|s b1 IH]; intros st.
  - reflexivity.
  - change ((s :: b1) ++ b2) with (s :: (b1 ++ b2)).
    rewrite !exec_block_cons. unfold bind.
    destruct (exec L s st) as [st1 [[]|e]]; [|reflexivity].
    rewrite IH. reflexivity.
Qed.

(** **** Properties that every step maintains

    [Q st out] relates the state before a computation to its outcome.  A
    property that holds of steps which leave the state alone, composes
    along a sequence and survives an exception passes through [bind], and
    so through the evaluation of any expression once it holds of a library
    call. *)
Section Keeps.
Variable Q : forall B : Type, state L -> state L * result B -> Prop.
Hypothesis Q_pure : forall B st (r : result B), Q B st (st, r).
Hypothesis Q_seq : forall B C st st1 (b : B) (out : state L * result C),
  Q B st (st1, Ok b) -> Q C st1 out -> Q C st out.
Hypothesis Q_raise : forall B C st st1 e,
  Q B st (st1, Raise e) -> Q C st (st1, Raise e).

Local Abbreviation keeps := (Properties.keeps L Q).

Lemma keeps_ret {B} (b : B) : keeps (ret L b).
Proof. intros st. apply Q_pure. Qed.

Lemma keeps_raise {B} (e : val) : keeps (@raise L B e).
Proof. intros st. apply Q_pure. Qed.

Lemma keeps_lift {B} (r : result B) : keeps (lift L r).
Proof. intros st. apply Q_pure. Qed.

Lemma keeps_lookup_name (x : string) : keeps (lookup_name L x).
Proof. intros st. unfold lookup_name. destruct (store L st !! x); apply Q_pure. Qed.

Lemma keeps_bind {B C} (m : M L B) (k : B -> M L C) :
  keeps m -> (forall b, keeps (k b)) -> keeps (bind L m k).
Proof.
  intros Hm Hk st. unfold bind. specialize (Hm st).
  destruct (m st) as [st1 [b|e]].
  - eapply Q_seq; [exact Hm|apply Hk].
  - eapply Q_raise; exact Hm.
Qed.

Lemma keeps_mapM {B C} (f : B -> M L C) (l : list B) :
  Forall (fun b => keeps (f b)) l -> keeps (mapM L f l).
Proof.
  induction 1 as [|b l Hb _ IH]; cbn [mapM].
  - apply keeps_ret.
  - apply keeps_bind; [exact Hb|]. intros v.
    apply keeps_bind; [exact IH|]. intros vs. apply keeps_ret.
Qed.

Lemma keeps_optM {B C} (f : B -> M L C) (o : option B) :
  from_option (fun b => keeps (f b)) True o -> keeps (optM L f o).
Proof.
  destruct o as [b|]; cbn [optM from_option]; intros H.
  - apply keeps_bind; [exact H|]. intros v. apply keeps_ret.
  - apply keeps_ret.
Qed.

Lemma keeps_blockM (f : stmt -> M L unit) (l : list stmt) :
  Forall (fun s => keeps (f s)) l -> keeps (blockM L f l).
Proof.
  induction 1 as [|b l Hb _ IH]; cbn [blockM].
  - apply keeps_ret.
  - apply keeps_bind; [exact Hb|]. intros _. exact IH.
Qed.

(** What remains to be shown of [Q] for expressions: library calls other
    than the assignment of an item. *)
Hypothesis keeps_ask : forall q, is_read q -> keeps (ask L q).

Ltac asks := apply keeps_ask; exact I.

Lemma keeps_getitem (o i : val) : keeps (getitem L o i).
Proof.
  unfold getitem. destruct o; try asks; destruct i; try asks; apply keeps_lift.
Qed.

Lemma keeps_apply_binop (op : binop) (l r : val) : keeps (apply_binop L op l r).
Proof.
  unfold apply_binop. destruct l; try asks. destruct r; try asks.
  destruct (int_binop op n n0); [apply keeps_lift|asks].
Qed.

Lemma keeps_negate (v : val) : keeps (negate L v).
Proof. unfold negate. destruct v; try asks; apply keeps_ret. Qed.

Lemma keeps_compare_eq (l r : val) : keeps (compare_eq L l r).
Proof.
  unfold compare_eq. destruct l; try asks. destruct r; try asks. apply keeps_ret.
Qed.

Lemma keeps_eval (e : expr) : keeps (eval L e).
Proof.
  induction e using expr_nested_ind; cbn [eval];
    repeat first
      [ apply keeps_ret | apply keeps_lookup_name | asks
      | apply keeps_getitem | apply keeps_apply_binop | apply keeps_negate
      | apply keeps_compare_eq | assumption
      | apply keeps_mapM; first [assumption | eapply Forall_impl; [eassumption|]; cbn beta; intros ]
      | apply keeps_optM; first [assumption | destruct lo; assumption ]
      | apply keeps_bind; [|intros ?] ].
Qed.

(** For statements: [Q] has to hold of the bindings the statement makes
    ([okname] says of which names it does), and, where the statement
    contains them, of catching and of the assignment of an item. *)
Variable okname : string -> Prop.
Hypothesis keeps_set_name : forall x v, okname x -> keeps (set_name L x v).
Variable with_try : bool.
Hypothesis keeps_catch : with_try = true ->
  forall body handler, keeps body -> keeps handler -> keeps (catch L body handler).
Variable with_setitem : bool.
Hypothesis keeps_setitem : with_setitem = true ->
  forall o i v, keeps (ask L (QSetItem o i v)).

Lemma keeps_unpack (ts : list expr) (vs : list val) :
  Forall okname (flat_map (fun t' => match t' with EName x => [x] | _ => [] end) ts) ->
  keeps (unpack L ts vs).
Proof.
  revert vs. induction ts as [|t ts IH]; intros vs Hok.
  - destruct vs; [apply keeps_ret|apply keeps_raise].
  - destruct t; cbn [unpack]; try apply keeps_raise.
    destruct vs as [|v vs]; [apply keeps_raise|].
    cbn [flat_map] in Hok. apply Forall_app in Hok as [Hx Hts].
    apply keeps_bind.
    + apply keeps_set_name. inversion Hx; assumption.
    + intros _. apply IH. exact Hts.
Qed.

Lemma keeps_assign (t : expr) (v w : expr) (val0 : val) :
  Forall okname (target_stores t) ->
  plain with_try with_setitem (SAssign t w) = true ->
  keeps (assign L t val0).
Proof.
  intros Hok Hplain. destruct t; cbn [assign]; try apply keeps_raise.
  - apply keeps_set_name. inversion Hok; assumption.
  - cbn [plain] in Hplain.
    apply keeps_bind; [apply keeps_eval|]. intros ov.
    apply keeps_bind; [apply keeps_eval|]. intros iv.
    apply keeps_bind; [apply keeps_setitem; exact Hplain|]. intros _.
    apply keeps_ret.
  - destruct val0; try apply keeps_raise;
      (destruct (Nat.eqb _ _); [apply keeps_unpack; exact Hok|apply keeps_raise]).
  - destruct val0; try apply keeps_raise;
      (destruct (Nat.eqb _ _); [apply keeps_unpack; exact Hok|apply keeps_raise]).
Qed.

Lemma keeps_each (blk : list stmt) :
  Forall (fun s => Forall okname (stores s) ->
                   plain with_try with_setitem s = true -> keeps (exec L s)) blk ->
  Forall okname (flat_map stores blk) ->
  forallb (plain with_try with_setitem) blk = true ->
  Forall (fun s => keeps (exec L s)) blk.
Proof.
  induction 1 as [|s blk Hs _ IH]; intros Hok Hplain; [constructor|].
  cbn [flat_map] in Hok. apply Forall_app in Hok as [Hok1 Hok2].
  cbn [forallb] in Hplain. apply andb_prop in Hplain as [Hp1 Hp2].
  constructor; [apply Hs; assumption|apply IH; assumption].
Qed.

Lemma keeps_exec (s : stmt) :
  Forall okname (stores s) ->
  plain with_try with_setitem s = true ->
  keeps (exec L s).
Proof.
  induction s as [m a|m n a|t v|v|t b o IHb IHo|b h IHb IHh] using stmt_nested_ind;
    intros Hok Hplain; cbn [exec].
  - apply keeps_bind; [asks|]. intros ?.
    apply keeps_set_name. inversion Hok; assumption.
  - apply keeps_bind; [asks|]. intros ?.
    apply keeps_bind; [asks|]. intros ?.
    apply keeps_set_name. inversion Hok; assumption.
  - apply keeps_bind; [apply keeps_eval|]. intros ?.
    apply (keeps_assign t v v); assumption.
  - apply keeps_bind; [apply keeps_eval|]. intros ?. apply keeps_ret.
  - cbn [stores] in Hok. apply Forall_app in Hok as [Hb Ho].
    cbn [plain] in Hplain. apply andb_prop in Hplain as [Hpb Hpo].
    apply keeps_bind; [apply keeps_eval|]. intros tv.
    destruct (truthy tv); apply keeps_blockM; apply keeps_each; assumption.
  - cbn [stores] in Hok. apply Forall_app in Hok as [Hb Hh].
    cbn [plain] in Hplain. apply andb_prop in Hplain as [Hplain Hph].
    apply andb_prop in Hplain as [Hw Hpb].
    apply keeps_catch; [exact Hw| |]; apply keeps_blockM; apply keeps_each; assumption.
Qed.

Lemma keeps_exec_block (blk : list stmt) :
  Forall okname (flat_map stores blk) ->
  forallb (plain with_try with_setitem) blk = true ->
  keeps (exec_block L blk).
Proof.
  intros Hok Hplain. apply keeps_blockM. apply keeps_each; [|assumption|assumption].
  apply Forall_forall. intros s _. apply keeps_exec.
Qed.
End Keeps.

(** Every statement is plain when [try] and item assignment are allowed. *)
Lemma plain_any (s : stmt) : plain true true s = true.
Proof.
  induction s as [m a|m n a|t v|v|t b o IHb IHo|b h IHb IHh] using stmt_nested_ind;
    cbn [plain]; try reflexivity.
  - destruct t; reflexivity.
  - apply andb_true_intro. split; apply forallb_forall; intros s Hs.
    + rewrite Forall_forall in IHb. apply IHb, list_elem_of_In, Hs.
    + rewrite Forall_forall in IHo. apply IHo, list_elem_of_In, Hs.
  - apply andb_true_intro. split; apply forallb_forall; intros s Hs.
    + rewrite Forall_forall in IHb. apply IHb, list_elem_of_In, Hs.
    + rewrite Forall_forall in IHh. apply IHh, list_elem_of_In, Hs.
Qed.

Lemma plain_any_block (blk : list stmt) : forallb (plain true true) blk = true.
Proof. apply forallb_forall. intros s _. apply plain_any. Qed.

(** **** Evaluating an expression binds no name *)

Lemma eval_store (e : expr) (st : state L) :
  store L (fst (eval L e st)) = store L st.
Proof.
  apply (keeps_eval (fun B st out => store L (fst out) = store L st)); clear.
  - reflexivity.
  - intros B C st st1 b out H1 H2. cbn in *. congruence.
  - intros B C st st1 e H. exact H.
  - intros q _ st. unfold ask. destruct (respond L (lib L st) q). reflexivity.
Qed.

(** **** A statement leaves alone the names it does not bind *)

Lemma exec_block_preserves (x : string) (blk : list stmt) (st : state L) :
  x ∉ flat_map stores blk ->
  store L (fst (exec_block L blk st)) !! x = store L st !! x.
Proof.
  intros Hx.
  apply (keeps_exec_block
           (fun B st out => store L (fst out) !! x = store L st !! x))
    with (okname := fun y => y <> x) (with_try := true) (with_setitem := true).
  - reflexivity.
  - intros B C st0 st1 b out H1 H2. cbn in *. congruence.
  - intros B C st0 st1 e H. exact H.
  - intros q _ st0. unfold ask. destruct (respond L (lib L st0) q). reflexivity.
  - intros y v Hy st0. cbn. apply lookup_insert_ne. exact Hy.
  - intros _ body handler Hb Hh st0. unfold catch. specialize (Hb st0).
    destruct (body st0) as [st1 [[]|e]]; [exact Hb|].
    specialize (Hh st1). cbn in *. congruence.
  - intros _ o i v st0. unfold ask. destruct (respond L (lib L st0) _). reflexivity.
  - apply Forall_forall. intros y Hy ->. exact (Hx Hy).
  - apply plain_any_block.
Qed.

(** **** Exceptions are not swallowed

    Without a [try], the outcome of a block is faithful to its log. *)
Local Abbreviation faithful := (Properties.faithful L).

Lemma faithful_ask (q : query) (st : state L) : faithful val st (ask L q st).
Proof.
  unfold ask. destruct (respond L (lib L st) q) as [s' a] eqn:Hr.
  exists [(q, a)]. split; [reflexivity|]. destruct a as [v|e].
  - left. repeat constructor.
  - right. exists [], q, e. repeat split. constructor.
Qed.

Lemma faithful_exec_block (blk : list stmt) (st : state L) :
  forallb (plain false true) blk = true ->
  faithful unit st (exec_block L blk st).
Proof.
  intros Htry.
  apply (keeps_exec_block faithful)
    with (okname := fun _ => True) (with_try := false) (with_setitem := true).
  - intros B st0 r. exists []. rewrite app_nil_r. split; [reflexivity|].
    left. constructor.
  - intros B C st0 st1 b out (new1 & Hl1 & H1) (new2 & Hl2 & H2). cbn in *.
    exists (new1 ++ new2). split; [rewrite Hl2, Hl1, app_assoc; reflexivity|].
    assert (Hok1 : Forall ok_entry new1).
    { destruct H1 as [H1|(oks & q & e & _ & _ & Habs)]; [exact H1|discriminate]. }
    destruct H2 as [H2|(oks & q & e & -> & Hoks & Hres)].
    + left. apply Forall_app. split; assumption.
    + right. exists (new1 ++ oks), q, e. rewrite app_assoc.
      split; [reflexivity|]. split; [|exact Hres].
      apply Forall_app. split; assumption.
  - intros B C st0 st1 e (new & Hl & H). exists new. split; [exact Hl|].
    destruct H as [H|(oks & q & e' & -> & Hoks & Hres)]; [left; exact H|].
    right. exists oks, q, e'. cbn in *. repeat split; congruence.
  - intros q _ st0. apply faithful_ask.
  - intros y v _ st0. exists []. cbn. rewrite app_nil_r. split; [reflexivity|].
    left. constructor.
  - discriminate.
  - intros _ o i v st0. apply faithful_ask.
  - apply Forall_forall. intros; exact I.
  - exact Htry.
Qed.

(** **** The log only grows, and a run goes through its statements in order *)

Lemma exec_block_log_grows (blk : list stmt) (st : state L) :
  exists new, log L (fst (exec_block L blk st)) = log L st ++ new.
Proof.
  apply (keeps_exec_block
           (fun B st out => exists new, log L (fst out) = log L st ++ new))
    with (okname := fun _ => True) (with_try := true) (with_setitem := true).
  - intros B st0 r. exists []. rewrite app_nil_r. reflexivity.
  - intros B C st0 st1 b out [new1 H1] [new2 H2]. cbn in *.
    exists (new1 ++ new2). rewrite H2, H1, app_assoc. reflexivity.
  - intros B C st0 st1 e H. exact H.
  - intros q _ st0. unfold ask. destruct (respond L (lib L st0) q) as [s' a].
    exists [(q, a)]. reflexivity.
  - intros y v _ st0. exists []. cbn. rewrite app_nil_r. reflexivity.
  - intros _ body handler Hb Hh st0. unfold catch. specialize (Hb st0).
    destruct (body st0) as [st1 [[]|e]]; [exact Hb|].
    destruct Hb as [new1 H1]. destruct (Hh st1) as [new2 H2]. cbn in *.
    exists (new1 ++ new2). rewrite H2, H1, app_assoc. reflexivity.
  - intros _ o i v st0. unfold ask. destruct (respond L (lib L st0) _) as [s' a].
    eexists [_]. reflexivity.
  - apply Forall_forall. intros; exact I.
  - apply plain_any_block.
Qed.

(** **** Reading leaves the library as it is

    [R] relates a library state to the states that answer like it; when
    every call other than an item assignment leads to such a state, so do
    the evaluation of an expression and the statements that assign no
    item. *)
Section Reads.
Variable R : lstate L -> lstate L -> Prop.
Hypothesis R_refl : forall s, R s s.
Hypothesis R_trans : forall s1 s2 s3, R s1 s2 -> R s2 s3 -> R s1 s3.
Hypothesis R_read : forall s q, is_read q -> R s (fst (respond L s q)).

Lemma eval_reads (e : expr) (st : state L) :
  R (lib L st) (lib L (fst (eval L e st))).
Proof.
  apply (keeps_eval (fun B st out => R (lib L st) (lib L (fst out)))).
  - intros B st0 r. apply R_refl.
  - intros B C st0 st1 b out H1 H2. cbn in *. eapply R_trans; eassumption.
  - intros B C st0 st1 e0 H. exact H.
  - intros q Hq st0. unfold ask. pose proof (R_read (lib L st0) q Hq) as H.
    destruct (respond L (lib L st0) q). exact H.
Qed.

Lemma exec_block_reads (blk : list stmt) (st : state L) :
  forallb (plain true false) blk = true ->
  R (lib L st) (lib L (fst (exec_block L blk st))).
Proof.
  intros Hplain.
  apply (keeps_exec_block (fun B st out => R (lib L st) (lib L (fst out))))
    with (okname := fun _ => True) (with_try := true) (with_setitem := false).
  - intros B st0 r. apply R_refl.
  - intros B C st0 st1 b out H1 H2. cbn in *. eapply R_trans; eassumption.
  - intros B C st0 st1 e0 H. exact H.
  - intros q Hq st0. unfold ask. pose proof (R_read (lib L st0) q Hq) as H.
    destruct (respond L (lib L st0) q). exact H.
  - intros y v _ st0. apply R_refl.
  - intros _ body handler Hb Hh st0. unfold catch. specialize (Hb st0).
    destruct (body st0) as [st1 [[]|e]]; [exact Hb|].
    eapply R_trans; [exact Hb|apply Hh].
  - discriminate.
  - apply Forall_forall. intros; exact I.
  - exact Hplain.
Qed.
End Reads.

(** The calls made by the first [k] statements of a script are made first,
    whatever follows. *)
Lemma run_log_prefix (script : list stmt) (k : nat) (s0 : lstate L) :
  exists new,
    log L (fst (run L script s0))
    = log L (fst (run L (take k script) s0)) ++ new.
Proof.
  unfold run.
  replace (exec_block L script)
    with (exec_block L (take k script ++ drop k script))
    by (rewrite take_drop; reflexivity).
  rewrite exec_block_app. unfold bind.
  destruct (exec_block L (take k script) (State L builtins s0 [])) as [st1 [[]|e]].
  - apply exec_block_log_grows.
  - exists []. rewrite app_nil_r. reflexivity.
Qed.

(** A script whose last statement is [if test: body]: a run that succeeds
    ran the statements before it, evaluated the test, and ran the body when
    the test was true and nothing more when it was not. *)
Lemma exec_block_if_last (pre : list stmt) (test : expr) (body : list stmt)
    (st0 : state L) (out : state L * result unit) :
  exec_block L (pre ++ [SIf test body []]) st0 = out ->
  match exec_block L pre st0 with
  | (st1, Raise e) => out = (st1, Raise e)
  | (st1, Ok _) =>
      match eval L test st1 with
      | (st1', Raise e) => out = (st1', Raise e)
      | (st1', Ok tv) =>
          if truthy tv then
            match exec_block L body st1' with
            | (st2, Ok _) => out = (st2, Ok tt)
            | (st2, Raise e) => out = (st2, Raise e)
            end
          else out = (st1', Ok tt)
      end
  end.
Proof.
  intros <-. rewrite exec_block_app. unfold bind.
  destruct (exec_block L pre st0) as [st1 [[]|e]]; [|reflexivity].
  rewrite exec_block_cons. cbn [exec]. unfold bind.
  destruct (eval L test st1) as [st1' [tv|e]]; [|reflexivity].
  destruct (truthy tv).
  - fold (exec_block L body). destruct (exec_block L body st1') as [st2 [[]|e]]; reflexivity.
  - reflexivity.
Qed.

End OneLibrary.

(** *** Two libraries that answer alike

    [R] relates the states of two libraries in which every query gets the
    same answer, and goes on holding after the query. *)

Section TwoLibraries.
Variables L1 L2 : library.
Variable R : lstate L1 -> lstate L2 -> Prop.
Hypothesis R_respond : forall s1 s2 q, R s1 s2 ->
  snd (respond L1 s1 q) = snd (respond L2 s2 q) /\
  R (fst (respond L1 s1 q)) (fst (respond L2 s2 q)).

Local Abbreviation matches := (Properties.matches L1 L2 R).
Local Abbreviation related := (Properties.related L1 L2 R).

Lemma related_lift {B} (X : list string) (r : result B) :
  related X (lift L1 r) (lift L2 r).
Proof.
  intros st1 st2 HR _. repeat split; try assumption.
  exists []. rewrite !app_nil_r. split; reflexivity.
Qed.

Lemma related_ret {B} (X : list string) (b : B) : related X (ret L1 b) (ret L2 b).
Proof. apply (related_lift X (Ok b)). Qed.

Lemma related_ask (X : list string) (q : query) : related X (ask L1 q) (ask L2 q).
Proof.
  intros st1 st2 HR _. unfold ask.
  destruct (R_respond _ _ q HR) as [Ha HR'].
  destruct (respond L1 (lib L1 st1) q) as [s1' a1].
  destruct (respond L2 (lib L2 st2) q) as [s2' a2].
  cbn in *. subst a2. repeat split; try assumption.
  exists [(q, a1)]. split; reflexivity.
Qed.

Lemma related_lookup_name (x : string) :
  related [x] (lookup_name L1 x) (lookup_name L2 x).
Proof.
  intros st1 st2 HR Hag. unfold lookup_name.
  inversion Hag as [|? ? Hx _]; subst. rewrite Hx.
  destruct (store L2 st2 !! x); repeat split; try assumption;
    exists []; rewrite !app_nil_r; split; reflexivity.
Qed.

Lemma related_app_l {B} (X Y : list string) (m1 : M L1 B) (m2 : M L2 B) :
  related X m1 m2 -> related (X ++ Y) m1 m2.
Proof.
  intros H st1 st2 HR Hag. apply H; [exact HR|].
  unfold agree in *. apply Forall_app in Hag. tauto.
Qed.

Lemma related_app_r {B} (X Y : list string) (m1 : M L1 B) (m2 : M L2 B) :
  related Y m1 m2 -> related (X ++ Y) m1 m2.
Proof.
  intros H st1 st2 HR Hag. apply H; [exact HR|].
  unfold agree in *. apply Forall_app in Hag. tauto.
Qed.

Lemma related_bind {B C} (X : list string)
    (m1 : M L1 B) (m2 : M L2 B) (k1 : B -> M L1 C) (k2 : B -> M L2 C) :
  related X m1 m2 -> (forall b, related X (k1 b) (k2 b)) ->
  related X (bind L1 m1 k1) (bind L2 m2 k2).
Proof.
  intros Hm Hk st1 st2 HR Hag. unfold bind.
  destruct (Hm st1 st2 HR Hag) as (Hres & HR' & Hs1 & Hs2 & new & Hl1 & Hl2).
  destruct (m1 st1) as [st1' r1]. destruct (m2 st2) as [st2' r2].
  cbn in *. subst r2. destruct r1 as [b|e].
  - assert (Hag' : agree X (store L1 st1') (store L2 st2')) by (rewrite Hs1, Hs2; exact Hag).
    destruct (Hk b st1' st2' HR' Hag')
      as (Hres2 & HR2 & Hs1' & Hs2' & new2 & Hl1' & Hl2').
    repeat split; try assumption; try congruence.
    exists (new ++ new2). rewrite Hl1', Hl2', Hl1, Hl2, !app_assoc. split; reflexivity.
  - repeat split; try assumption. exists new. split; assumption.
Qed.

Lemma related_mapM {B C} (nm : B -> list string)
    (f1 : B -> M L1 C) (f2 : B -> M L2 C) (l : list B) :
  Forall (fun b => related (nm b) (f1 b) (f2 b)) l ->
  related (flat_map nm l) (mapM L1 f1 l) (mapM L2 f2 l).
Proof.
  induction 1 as [|b l Hb _ IH]; cbn [mapM flat_map].
  - apply related_ret.
  - apply related_bind; [apply related_app_l; exact Hb|]. intros v.
    apply related_bind; [apply related_app_r; exact IH|]. intros vs.
    apply related_ret.
Qed.

Lemma related_optM {B C} (nm : B -> list string)
    (f1 : B -> M L1 C) (f2 : B -> M L2 C) (o : option B) :
  from_option (fun b => related (nm b) (f1 b) (f2 b)) True o ->
  related (from_option nm [] o) (optM L1 f1 o) (optM L2 f2 o).
Proof.
  destruct o as [b|]; cbn [optM from_option]; intros H.
  - apply related_bind; [exact H|]. intros v. apply related_ret.
  - apply related_ret.
Qed.

Lemma related_getitem (X : list string) (o i : val) :
  related X (getitem L1 o i) (getitem L2 o i).
Proof.
  unfold getitem. destruct o; try apply related_ask;
    destruct i; try apply related_ask; apply related_lift.
Qed.

Lemma related_apply_binop (X : list string) (op : binop) (l r : val) :
  related X (apply_binop L1 op l r) (apply_binop L2 op l r).
Proof.
  unfold apply_binop. destruct l; try apply related_ask.
  destruct r; try apply related_ask.
  destruct (int_binop op n n0); [apply related_lift|apply related_ask].
Qed.

Lemma related_negate (X : list string) (v : val) :
  related X (negate L1 v) (negate L2 v).
Proof. unfold negate. destruct v; try apply related_ask; apply related_ret. Qed.

Lemma related_compare_eq (X : list string) (l r : val) :
  related X (compare_eq L1 l r) (compare_eq L2 l r).
Proof.
  unfold compare_eq. destruct l; try apply related_ask.
  destruct r; try apply related_ask. apply related_ret.
Qed.

(** The value of an expression depends on the names it reads and on the
    answers of the library, and on nothing else. *)
Lemma eval_related (e : expr) : related (names e) (eval L1 e) (eval L2 e).
Proof.
  induction e as [x|n|m e|s|b|e a IHe|f args kws IHf IHargs IHkws|e i IHe IHi
                 |lo hi st IHlo IHhi IHst|es IHes|es IHes|l op r IHl IHr|e IHe|l r IHl IHr]
    using expr_nested_ind; cbn [eval names].
  - apply related_lookup_name.
  - apply related_ret.
  - apply related_ret.
  - apply related_ret.
  - apply related_ret.
  - apply related_bind; [exact IHe|]. intros v. apply related_ask.
  - apply related_bind; [apply related_app_l; exact IHf|]. intros fv.
    apply related_bind.
    { apply related_app_r, related_app_l. apply related_mapM. exact IHargs. }
    intros avs. apply related_bind.
    { apply related_app_r, related_app_r.
      apply (related_mapM (fun ka => names (snd ka))).
      eapply Forall_impl; [exact IHkws|]. cbn beta. intros ka Hka.
      apply related_bind; [exact Hka|]. intros v. apply related_ret. }
    intros kvs. apply related_ask.
  - apply related_bind; [apply related_app_l; exact IHe|]. intros v.
    apply related_bind; [apply related_app_r; exact IHi|]. intros iv.
    apply related_getitem.
  - apply related_bind.
    { apply related_app_l. apply related_optM. destruct lo; exact IHlo. }
    intros l. apply related_bind.
    { apply related_app_r, related_app_l. apply related_optM. destruct hi; exact IHhi. }
    intros h. apply related_bind.
    { apply related_app_r, related_app_r. apply related_optM. destruct st; exact IHst. }
    intros s. apply related_ret.
  - apply related_bind; [apply related_mapM; exact IHes|]. intros vs. apply related_ret.
  - apply related_bind; [apply related_mapM; exact IHes|]. intros vs. apply related_ret.
  - apply related_bind; [apply related_app_l; exact IHl|]. intros lv.
    apply related_bind; [apply related_app_r; exact IHr|]. intros rv.
    apply related_apply_binop.
  - apply related_bind; [exact IHe|]. intros v. apply related_negate.
  - apply related_bind; [apply related_app_l; exact IHl|]. intros lv.
    apply related_bind; [apply related_app_r; exact IHr|]. intros rv.
    apply related_compare_eq.
Qed.

(** From expressions to statements. *)
Local Abbreviation sim := (Properties.sim L1 L2 R).
Local Abbreviation alike := (Properties.alike L1 L2 R).

Lemma related_alike {B} (X : list string) (m1 : M L1 B) (m2 : M L2 B) :
  related X m1 m2 -> alike m1 m2.
Proof.
  intros H st1 st2 (HR & Hs & Hl).
  destruct (H st1 st2 HR) as (Hres & HR' & Hs1 & Hs2 & new & Hl1 & Hl2).
  { apply Forall_forall. intros x _. rewrite Hs. reflexivity. }
  split; [exact Hres|]. repeat split; [exact HR'|congruence|congruence].
Qed.

Lemma alike_ret {B} (b : B) : alike (ret L1 b) (ret L2 b).
Proof. intros st1 st2 H. split; [reflexivity|exact H]. Qed.

Lemma alike_raise {B} (e : val) : alike (@raise L1 B e) (@raise L2 B e).
Proof. intros st1 st2 H. split; [reflexivity|exact H]. Qed.

Lemma alike_set_name (x : string) (v : val) :
  alike (set_name L1 x v) (set_name L2 x v).
Proof.
  intros st1 st2 (HR & Hs & Hl). split; [reflexivity|].
  repeat split; cbn; [exact HR|rewrite Hs; reflexivity|exact Hl].
Qed.

Lemma alike_bind {B C}
    (m1 : M L1 B) (m2 : M L2 B) (k1 : B -> M L1 C) (k2 : B -> M L2 C) :
  alike m1 m2 -> (forall b, alike (k1 b) (k2 b)) ->
  alike (bind L1 m1 k1) (bind L2 m2 k2).
Proof.
  intros Hm Hk st1 st2 Hsim. unfold bind.
  destruct (Hm st1 st2 Hsim) as [Hres Hsim'].
  destruct (m1 st1) as [st1' r1]. destruct (m2 st2) as [st2' r2].
  cbn in *. subst r2. destruct r1 as [b|e].
  - apply Hk. exact Hsim'.
  - split; [reflexivity|exact Hsim'].
Qed.

Lemma alike_blockM (f1 : stmt -> M L1 unit) (f2 : stmt -> M L2 unit) (l : list stmt) :
  Forall (fun s => alike (f1 s) (f2 s)) l -> alike (blockM L1 f1 l) (blockM L2 f2 l).
Proof.
  induction 1 as [|s l Hs _ IH]; cbn [blockM].
  - apply alike_ret.
  - apply alike_bind; [exact Hs|]. intros _. exact IH.
Qed.

Lemma alike_catch (b1 h1 : M L1 unit) (b2 h2 : M L2 unit) :
  alike b1 b2 -> alike h1 h2 -> alike (catch L1 b1 h1) (catch L2 b2 h2).
Proof.
  intros Hb Hh st1 st2 Hsim. unfold catch.
  destruct (Hb st1 st2 Hsim) as [Hres Hsim'].
  destruct (b1 st1) as [st1' r1]. destruct (b2 st2) as [st2' r2].
  cbn in *. subst r2. destruct r1 as [[]|e].
  - split; [reflexivity|exact Hsim'].
  - apply Hh. exact Hsim'.
Qed.

Lemma alike_unpack (ts : list expr) (vs : list val) :
  alike (unpack L1 ts vs) (unpack L2 ts vs).
Proof.
  revert vs. induction ts as [|t ts IH]; intros vs.
  - destruct vs; [apply alike_ret|apply alike_raise].
  - destruct t; cbn [unpack]; try apply alike_raise.
    destruct vs as [|v vs]; [apply alike_raise|].
    apply alike_bind; [apply alike_set_name|]. intros _. apply IH.
Qed.

Lemma alike_assign (t : expr) (v : val) : alike (assign L1 t v) (assign L2 t v).
Proof.
  destruct t; cbn [assign]; try apply alike_raise.
  - apply alike_set_name.
  - apply alike_bind; [eapply related_alike, eval_related|]. intros ov.
    apply alike_bind; [eapply related_alike, eval_related|]. intros iv.
    apply alike_bind; [eapply related_alike, (related_ask [])|]. intros _.
    apply alike_ret.
  - destruct v; try apply alike_raise;
      (destruct (Nat.eqb _ _); [apply alike_unpack|apply alike_raise]).
  - destruct v; try apply alike_raise;
      (destruct (Nat.eqb _ _); [apply alike_unpack|apply alike_raise]).
Qed.

Lemma alike_exec (s : stmt) : alike (exec L1 s) (exec L2 s).
Proof.
  induction s as [m a|m n a|t v|v|t b o IHb IHo|b h IHb IHh] using stmt_nested_ind;
    cbn [exec].
  - apply alike_bind; [eapply related_alike, (related_ask [])|]. intros v.
    apply alike_set_name.
  - apply alike_bind; [eapply related_alike, (related_ask [])|]. intros mv.
    apply alike_bind; [eapply related_alike, (related_ask [])|]. intros v.
    apply alike_set_name.
  - apply alike_bind; [eapply related_alike, eval_related|]. intros w.
    apply alike_assign.
  - apply alike_bind; [eapply related_alike, eval_related|]. intros _.
    apply alike_ret.
  - apply alike_bind; [eapply related_alike, eval_related|]. intros tv.
    destruct (truthy tv); apply alike_blockM; assumption.
  - apply alike_catch; apply alike_blockM; assumption.
Qed.

(** Two runs of a script against libraries that answer alike make the same
    calls with the same arguments, bind the same values and end alike. *)
Lemma run_alike (script : list stmt) (s1 : lstate L1) (s2 : lstate L2) :
  R s1 s2 ->
  snd (run L1 script s1) = snd (run L2 script s2) /\
  log L1 (fst (run L1 script s1)) = log L2 (fst (run L2 script s2)) /\
  store L1 (fst (run L1 script s1)) = store L2 (fst (run L2 script s2)).
Proof.
  intros HR. unfold run, exec_block.
  destruct (alike_blockM (exec L1) (exec L2) script) with
    (st1 := State L1 builtins s1 []) (st2 := State L2 builtins s2 [])
    as (Hres & _ & Hs & Hl).
  - apply Forall_forall. intros s _. apply alike_exec.
  - repeat split. exact HR.
  - auto.
Qed.

End TwoLibraries.

(** *** A library whose answers change through item assignments only

    [R] relates library states that answer every call alike, and a call
    other than an item assignment ([o[i] = v]) leads to a related state.
    Then an expression that is evaluated twice, with no item assigned and
    the names it reads unchanged in between, has the same value both
    times. *)

Section SameAnswers.
Variable L : library.
Variable R : lstate L -> lstate L -> Prop.
Hypothesis R_refl : forall s, R s s.
Hypothesis R_trans : forall s1 s2 s3, R s1 s2 -> R s2 s3 -> R s1 s3.
Hypothesis R_respond : forall s1 s2 q, R s1 s2 ->
  snd (respond L s1 q) = snd (respond L s2 q) /\
  R (fst (respond L s1 q)) (fst (respond L s2 q)).
Hypothesis R_read : forall s q, is_read q -> R s (fst (respond L s q)).

Lemma eval_twice (e : expr) (st st' : state L) :
  R (lib L st) (lib L st') ->
  agree (names e) (store L st) (store L st') ->
  snd (eval L e st) = snd (eval L e st').
Proof.
  intros HR Hag.
  destruct (eval_related L L R R_respond e st st' HR Hag) as (Hres & _).
  exact Hres.
Qed.

Lemma exec_assign_name (x : string) (e : expr) (st : state L) :
  exec L (SAssign (EName x) e) st
  = match eval L e st with
    | (st1, Ok v) => (State L (<[x := v]> (store L st1)) (lib L st1) (log L st1), Ok tt)
    | (st1, Raise exc) => (st1, Raise exc)
    end.
Proof. reflexivity. Qed.

(** Two assignments of the same expression [e], to [x] and later to [y]:
    when the statements in between assign no item and bind neither [x] nor a
    name that [e] reads, and the statements after bind neither [x] nor [y],
    a run of the block that succeeds ends with [x] and [y] bound to the same
    value. *)
Lemma twin_assignments (x y : string) (e : expr) (pre mid post : list stmt)
    (st st' : state L) :
  x <> y ->
  x ∉ names e ->
  x ∉ flat_map stores mid ->
  Forall (fun n => n ∉ flat_map stores mid) (names e) ->
  forallb (plain true false) mid = true ->
  x ∉ flat_map stores post ->
  y ∉ flat_map stores post ->
  exec_block L (pre ++ SAssign (EName x) e :: mid ++ SAssign (EName y) e :: post) st
    = (st', Ok tt) ->
  exists v, store L st' !! x = Some v /\ store L st' !! y = Some v.
Proof.
  intros Hxy Hxe Hxmid Hemid Hplain Hxpost Hypost Hrun.
  rewrite exec_block_app in Hrun. unfold bind in Hrun.
  destruct (exec_block L pre st) as [st1 [[]|?]]; [|discriminate].
  rewrite exec_block_cons in Hrun. unfold bind in Hrun.
  rewrite exec_assign_name in Hrun.
  pose proof (eval_store L e st1) as Hst1.
  pose proof (eval_reads L R R_refl R_trans R_read e st1) as HR1.
  destruct (eval L e st1) as [st1e [v|?]] eqn:Hev1; [|discriminate].
  cbn [fst] in Hst1, HR1.
  rewrite exec_block_app in Hrun. unfold bind in Hrun.
  match type of Hrun with context [exec_block L mid ?s] => set (st2 := s) in * end.
  pose proof (fun n => exec_block_preserves L n mid st2) as Hmid.
  pose proof (exec_block_reads L R R_refl R_trans R_read mid st2 Hplain) as HR2.
  destruct (exec_block L mid st2) as [st3 [[]|?]]; [|discriminate].
  cbn [fst] in Hmid, HR2.
  rewrite exec_block_cons in Hrun. unfold bind in Hrun.
  rewrite exec_assign_name in Hrun.
  assert (Hag : agree (names e) (store L st1) (store L st3)).
  { apply Forall_forall. intros n Hn.
    rewrite Forall_forall in Hemid. rewrite (Hmid n (Hemid n Hn)).
    subst st2. cbn [store]. rewrite lookup_insert_ne by (intros ->; exact (Hxe Hn)).
    rewrite Hst1. reflexivity. }
  assert (HR : R (lib L st1) (lib L st3)).
  { eapply R_trans; [exact HR1|]. subst st2. exact HR2. }
  pose proof (eval_twice e st1 st3 HR Hag) as Htw. rewrite Hev1 in Htw.
  pose proof (eval_store L e st3) as Hst3.
  destruct (eval L e st3) as [st3e r3]. cbn [fst snd] in *. subst r3.
  match type of Hrun with context [exec_block L post ?s] => set (st4 := s) in * end.
  pose proof (fun n => exec_block_preserves L n post st4) as Hpost.
  rewrite Hrun in Hpost. cbn [fst] in Hpost.
  exists v. rewrite (Hpost x Hxpost), (Hpost y Hypost). subst st4. cbn [store].
  rewrite lookup_insert_ne by congruence. rewrite lookup_insert_eq. split; [|reflexivity].
  rewrite Hst3, (Hmid x Hxmid). subst st2. cbn [store]. apply lookup_insert_eq.
Qed.

End SameAnswers.

End Theory.


(** ** Facts about the array computations *)

Module NumpyFacts.
Import Numpy.

Section Arrays.
Context {A : Type}.
Variable log : A -> A.
Variable filtfilt : nat -> nat -> ndarray A -> ndarray A.

Lemma in_range_2 (n0 n1 : nat) (idx : list nat) :
  in_range [n0; n1] idx -> exists i0 i1, idx = [i0; i1] /\ (i0 < n0)%nat /\ (i1 < n1)%nat.
Proof.
  intros H. inversion H as [|i0 ? ? ? H0 H']; subst.
  inversion H' as [|i1 ? ? ? H1 H'']; subst.
  inversion H''; subst. eauto.
Qed.

Lemma m_shape (model : ndarray A) (nz0 nxf : nat) :
  shape model = [nz0; nxf] -> shape (m log model) = [nz0; Nat.div (nxf + 2) 3].
Proof.
  intros H. unfold m, step_axis, elementwise. cbn -[Nat.div]. rewrite H.
  cbn -[Nat.div]. do 3 f_equal. lia.
Qed.

Lemma m_item (model : ndarray A) (z x : nat) :
  item (m log model) [z; x] = log (item model [z; (3 * x)%nat]).
Proof. reflexivity. Qed.

Lemma m3d_i_shape (model : ndarray A) (nz0 nxf : nat) :
  shape model = [nz0; nxf] ->
  shape (m3d_i log model) = [20%nat; Nat.div (nxf + 2) 3; nz0].
Proof.
  intros H. unfold m3d_i, transpose, tile, newaxis_last. cbn [shape].
  rewrite (m_shape _ _ _ H). cbn -[Nat.div]. repeat f_equal; lia.
Qed.

Lemma m3d_i_item (model : ndarray A) (nz0 nxf j x z : nat) :
  shape model = [nz0; nxf] -> (x < Nat.div (nxf + 2) 3)%nat -> (z < nz0)%nat ->
  item (m3d_i log model) [j; x; z] = item (m log model) [z; x].
Proof.
  intros H Hx Hz. unfold m3d_i, transpose, tile, newaxis_last.
  cbn [item shape]. rewrite (m_shape _ _ _ H).
  cbn [zip foldr fst snd replicate length app zip_with take].
  cbn [list_insert insert]. cbn [zip_with take].
  rewrite (Nat.mod_small z), (Nat.mod_small x) by assumption. reflexivity.
Qed.

Lemma concat_item_block (arrays : list (ndarray A)) (n : nat) (sh : list nat) :
  Forall (fun a => shape a = n :: sh) arrays ->
  forall (r i : nat) (idx : list nat) (a : ndarray A),
    arrays !! r = Some a -> (i < n)%nat ->
    concat_item arrays (r * n + i) idx = Some (item a (i :: idx)).
Proof.
  induction 1 as [|a0 rest Ha0 Hrest IH]; intros r i idx a Hr Hi.
  - discriminate.
  - destruct r as [|r]; simpl in Hr.
    + injection Hr as <-. cbn [concat_item]. rewrite Ha0. cbn [hd Nat.mul Nat.add].
      destruct (Nat.ltb_spec i n); [reflexivity | lia].
    + cbn [concat_item]. rewrite Ha0. cbn [hd].
      destruct (Nat.ltb_spec (S r * n + i) n) as [Hlt|_]; [simpl in Hlt; lia|].
      replace (S r * n + i - n)%nat with (r * n + i)%nat by (simpl; lia).
      apply IH; assumption.
Qed.

Lemma concatenate_blocks (arrays : list (ndarray A)) (n : nat) (sh : list nat) :
  arrays <> [] ->
  Forall (fun a => shape a = n :: sh) arrays ->
  exists c, concatenate arrays = Some c /\
    shape c = (length arrays * n)%nat :: sh /\
    forall (r i : nat) (idx : list nat) (a : ndarray A),
      arrays !! r = Some a -> (i < n)%nat ->
      item c ((r * n + i)%nat :: idx) = item a (i :: idx).
Proof.
  intros Hne Hall. destruct arrays as [|a0 rest]; [congruence|].
  assert (Ha0 : shape a0 = n :: sh) by (inversion Hall; assumption).
  unfold concatenate. rewrite Ha0.
  assert (Hchk : forallb (fun a => match shape a with
                                   | [] => false
                                   | _ :: sh' => bool_decide (sh' = sh)
                                   end) (a0 :: rest) = true).
  { apply forallb_forall. intros a Ha.
    rewrite Forall_forall in Hall. rewrite (Hall a).
    - apply bool_decide_eq_true. reflexivity.
    - apply list_elem_of_In. exact Ha. }
  rewrite Hchk. eexists. split; [reflexivity|]. split.
  - cbn [shape]. f_equal.
    clear -Hall. induction Hall as [|a l Ha _ IH]; [reflexivity|].
    change (list_sum (map (fun a => hd 0%nat (shape a)) (a :: l)))
      with (hd 0%nat (shape a) + list_sum (map (fun a => hd 0%nat (shape a)) l))%nat.
    rewrite Ha, IH. reflexivity.
  - intros r i idx a Hr Hi. cbn [item].
    rewrite (concat_item_block _ _ _ Hall r i idx a Hr Hi). reflexivity.
Qed.

Lemma mback3d_i_shape (model : ndarray A) :
  (forall n ax a, shape (filtfilt n ax a) = shape a) ->
  shape (mback3d_i log filtfilt model) = shape (m3d_i log model).
Proof. intros H. unfold mback3d_i. rewrite !H. reflexivity. Qed.

Lemma ny_i_20 (model : ndarray A) (nz0 nxf : nat) :
  shape model = [nz0; nxf] -> ny_i log model = 20%nat.
Proof. intros H. unfold ny_i. rewrite (m3d_i_shape _ _ _ H). reflexivity. Qed.

Lemma ny_total (models : list (ndarray A)) (nz0 nxf : nat) :
  Forall (fun a => shape a = [nz0; nxf]) models ->
  ny log models = (20 * length models)%nat.
Proof.
  unfold ny, allreduce. induction 1 as [|a l Ha _ IH]; [reflexivity|].
  change (list_sum (map (ny_i log) (a :: l)))
    with (ny_i log a + list_sum (map (ny_i log) l))%nat.
  rewrite IH, (ny_i_20 _ _ _ Ha). cbn [length]. lia.
Qed.

End Arrays.

End NumpyFacts.

(** ** What a run reads and calls

    The attributes read in a run that succeeds are those of the text, in
    the order of evaluation; an inversion statement makes one call of the
    solver it reads. *)

Module RunTheory.
Import Python Syntax Structure Properties Theory.

Section Reading.
Variable L : library.

Lemma attr_reads_app (l1 l2 : list (query * result val)) :
  attr_reads (l1 ++ l2) = attr_reads l1 ++ attr_reads l2.
Proof. apply omap_app. Qed.

Lemma reads_ret {B} (b : B) : reads L [] (ret L b).
Proof. intros st st' b' H. injection H as <- _. rewrite app_nil_r. reflexivity. Qed.

Lemma reads_lift {B} (r : result B) : reads L [] (lift L r).
Proof. intros st st' b' H. injection H as <- _. rewrite app_nil_r. reflexivity. Qed.

Lemma reads_lookup_name (x : string) : reads L [] (lookup_name L x).
Proof.
  intros st st' b H. unfold lookup_name in H.
  destruct (store L st !! x); injection H as <- _; rewrite app_nil_r; reflexivity.
Qed.

Lemma reads_set_name (x : string) (v : val) : reads L [] (set_name L x v).
Proof. intros st st' b H. injection H as <-. cbn. rewrite app_nil_r. reflexivity. Qed.

Lemma reads_bind {B C} (xs ys : list string) (m : M L B) (k : B -> M L C) :
  reads L xs m -> (forall b, reads L ys (k b)) -> reads L (xs ++ ys) (bind L m k).
Proof.
  intros Hm Hk st st' c H. unfold bind in H.
  destruct (m st) as [st1 [b|e]] eqn:Hmst; [|discriminate].
  rewrite (Hk b _ _ _ H), (Hm _ _ _ Hmst), app_assoc. reflexivity.
Qed.

Lemma reads_ask_attr (v : val) (a : string) : reads L [a] (ask L (QGetAttr v a)).
Proof.
  intros st st' b H. unfold ask in H.
  destruct (respond L (lib L st) (QGetAttr v a)) as [s' r]. injection H as <- _.
  cbn [log]. rewrite attr_reads_app. reflexivity.
Qed.

Lemma reads_ask (q : query) :
  (forall v a, q <> QGetAttr v a) -> reads L [] (ask L q).
Proof.
  intros Hq st st' b H. unfold ask in H.
  destruct (respond L (lib L st) q) as [s' r]. injection H as <- _.
  cbn [log]. rewrite attr_reads_app. f_equal.
  destruct q; try reflexivity. exfalso. exact (Hq _ _ eq_refl).
Qed.

Lemma reads_mapM {B C} (xs : B -> list string) (f : B -> M L C) (l : list B) :
  Forall (fun b => reads L (xs b) (f b)) l ->
  reads L (flat_map xs l) (mapM L f l).
Proof.
  induction 1 as [|b l Hb _ IH]; [apply reads_ret|].
  cbn [mapM flat_map]. apply reads_bind; [exact Hb|]. intros v.
  rewrite <- (app_nil_r (flat_map xs l)).
  apply reads_bind; [exact IH|]. intros vs. apply reads_ret.
Qed.

Lemma reads_optM {B C} (xs : B -> list string) (f : B -> M L C) (o : option B) :
  from_option (fun b => reads L (xs b) (f b)) True o ->
  reads L (from_option xs [] o) (optM L f o).
Proof.
  destruct o as [b|]; cbn; intros H; [|apply reads_ret].
  rewrite <- (app_nil_r (xs b)). apply reads_bind; [exact H|].
  intros v. apply reads_ret.
Qed.

Lemma reads_getitem (o i : val) : reads L [] (getitem L o i).
Proof.
  unfold getitem.
  destruct o; try (apply reads_ask; intros ? ?; discriminate);
    destruct i; first [apply reads_lift | apply reads_ask; intros ? ?; discriminate].
Qed.

Lemma reads_apply_binop (op : binop) (l r : val) : reads L [] (apply_binop L op l r).
Proof.
  unfold apply_binop.
  destruct l; try (apply reads_ask; intros ? ?; discriminate).
  destruct r; try (apply reads_ask; intros ? ?; discriminate).
  destruct (int_binop op n n0); [apply reads_lift|apply reads_ask; intros ? ?; discriminate].
Qed.

Lemma reads_negate (v : val) : reads L [] (negate L v).
Proof.
  unfold negate.
  destruct v; first [apply reads_ret | apply reads_ask; intros ? ?; discriminate].
Qed.

Lemma reads_compare_eq (l r : val) : reads L [] (compare_eq L l r).
Proof.
  unfold compare_eq.
  destruct l; try (apply reads_ask; intros ? ?; discriminate).
  destruct r; first [apply reads_ret | apply reads_ask; intros ? ?; discriminate].
Qed.

Lemma reads_nil_r {B} (xs : list string) (m : M L B) :
  reads L (xs ++ []) m -> reads L xs m.
Proof. rewrite app_nil_r. exact id. Qed.

Lemma reads_eval (e : expr) : reads L (attrs e) (eval L e).
Proof.
  induction e as [x|n|m e|s|b|e a IHe|f args kws IHf IHargs IHkws|e i IHe IHi
                 |lo hi st IHlo IHhi IHst|es IHes|es IHes|l op r IHl IHr|e IHe|l r IHl IHr]
    using expr_nested_ind; cbn [eval attrs].
  - apply reads_lookup_name.
  - apply reads_ret.
  - apply reads_ret.
  - apply reads_ret.
  - apply reads_ret.
  - apply reads_bind; [exact IHe|]. intros v. apply reads_ask_attr.
  - apply reads_bind; [exact IHf|]. intros fv.
    apply reads_bind; [apply reads_mapM; exact IHargs|]. intros avs.
    apply reads_nil_r. apply reads_bind.
    + apply (reads_mapM (fun ka => attrs (snd ka))).
      eapply Forall_impl; [exact IHkws|]. cbn beta. intros ka Hka.
      apply reads_nil_r. apply reads_bind; [exact Hka|]. intros v. apply reads_ret.
    + intros kvs. apply reads_ask. intros ? ?; discriminate.
  - apply reads_nil_r. rewrite <- app_assoc.
    apply reads_bind; [exact IHe|]. intros v.
    apply reads_bind; [exact IHi|]. intros iv. apply reads_getitem.
  - apply reads_nil_r. rewrite <- !app_assoc.
    apply reads_bind; [apply reads_optM; exact IHlo|]. intros l.
    apply reads_bind; [apply reads_optM; exact IHhi|]. intros h.
    apply reads_bind; [apply reads_optM; exact IHst|]. intros s. apply reads_ret.
  - apply reads_nil_r. apply reads_bind; [apply reads_mapM; exact IHes|].
    intros vs. apply reads_ret.
  - apply reads_nil_r. apply reads_bind; [apply reads_mapM; exact IHes|].
    intros vs. apply reads_ret.
  - apply reads_nil_r. rewrite <- app_assoc.
    apply reads_bind; [exact IHl|]. intros lv.
    apply reads_bind; [exact IHr|]. intros rv. apply reads_apply_binop.
  - apply reads_nil_r. apply reads_bind; [exact IHe|]. intros v. apply reads_negate.
  - apply reads_nil_r. rewrite <- app_assoc.
    apply reads_bind; [exact IHl|]. intros lv.
    apply reads_bind; [exact IHr|]. intros rv. apply reads_compare_eq.
Qed.

Lemma reads_raise {B} (xs : list string) (e : val) : reads L xs (@raise L B e).
Proof. intros st st' b H. discriminate. Qed.

Lemma reads_unpack (ts : list expr) (vs : list val) : reads L [] (unpack L ts vs).
Proof.
  revert vs. induction ts as [|t ts IH]; intros vs.
  - destruct vs; [apply reads_ret|apply reads_raise].
  - destruct t; cbn [unpack]; try (destruct vs; apply reads_raise).
    destruct vs as [|v vs]; [apply reads_raise|].
    apply (reads_bind [] []); [apply reads_set_name|]. intros _. apply IH.
Qed.

Lemma reads_assign (t : expr) (v : val) :
  reads L (match t with ESubscript o i => attrs o ++ attrs i | _ => [] end)
        (assign L t v).
Proof.
  destruct t; cbn [assign]; try apply reads_raise.
  - apply reads_set_name.
  - apply reads_nil_r. rewrite <- app_assoc.
    apply reads_bind; [apply reads_eval|]. intros ov.
    apply reads_bind; [apply reads_eval|]. intros iv.
    apply (reads_bind [] []); [apply reads_ask; intros ? ?; discriminate|].
    intros _. apply reads_ret.
  - destruct v; try apply reads_raise;
      (destruct (Nat.eqb _ _); [apply reads_unpack|apply reads_raise]).
  - destruct v; try apply reads_raise;
      (destruct (Nat.eqb _ _); [apply reads_unpack|apply reads_raise]).
Qed.

Lemma reads_exec (s : stmt) : straight s = true -> reads L (stmt_attrs s) (exec L s).
Proof.
  destruct s; cbn [straight]; try discriminate; intros _; cbn [exec stmt_attrs].
  - apply (reads_bind [] []); [apply reads_ask; intros ? ?; discriminate|].
    intros v. apply reads_set_name.
  - apply (reads_bind [] [name]); [apply reads_ask; intros ? ?; discriminate|].
    intros mv. apply reads_nil_r. apply reads_bind; [apply reads_ask_attr|].
    intros v. apply reads_set_name.
  - apply reads_bind; [apply reads_eval|]. intros v. apply reads_assign.
  - apply reads_nil_r. apply reads_bind; [apply reads_eval|]. intros v. apply reads_ret.
Qed.

Lemma reads_exec_block (blk : list stmt) :
  forallb straight blk = true ->
  reads L (flat_map stmt_attrs blk) (exec_block L blk).
Proof.
  induction blk as [|s blk IH]; intros H; [apply reads_ret|].
  cbn in H. apply andb_prop in H as [Hs H].
  rewrite exec_block_cons. cbn [flat_map].
  apply reads_bind; [apply reads_exec; exact Hs|]. intros _. apply IH. exact H.
Qed.

(** A block that succeeds has run each of its statements. *)
Lemma exec_block_split (pre : list stmt) (s : stmt) (post : list stmt)
    (st0 st : state L) :
  exec_block L (pre ++ s :: post) st0 = (st, Ok tt) ->
  exists st1 st2,
    exec_block L pre st0 = (st1, Ok tt) /\
    exec L s st1 = (st2, Ok tt) /\
    exec_block L post st2 = (st, Ok tt).
Proof.
  rewrite exec_block_app. unfold bind at 1.
  destruct (exec_block L pre st0) as [st1 [[]|e]]; [|discriminate].
  rewrite exec_block_cons. unfold bind.
  destruct (exec L s st1) as [st2 [[]|e]] eqn:Hs; [|discriminate].
  intros H. exists st1, st2. split; [reflexivity|]. split; [exact Hs|exact H].
Qed.

Lemma exec_inversion (x solver op data : string) (st1 st2 : state L) :
  exec L (inversion x solver op data) st1 = (st2, Ok tt) ->
  exists vm, ran_inversion L solver op data vm st1 st2.
Proof.
  unfold inversion. cbn [exec eval mapM snd fst].
  unfold bind, lookup_name, ret.
  destruct (store L st1 !! "pylops_mpi") as [pm|] eqn:Hpm; [|discriminate].
  unfold ask at 1. destruct (respond L (lib L st1) _) as [s1 [o|e]]; [|discriminate].
  cbn [store lib log].
  unfold ask at 1. cbn [store lib log].
  destruct (respond L s1 _) as [s2 [bs|e]]; [|discriminate].
  unfold ask at 1. cbn [store lib log].
  destruct (respond L s2 _) as [s3 [f|e]]; [|discriminate].
  cbn [store lib log].
  destruct (store L st1 !! op) as [va|] eqn:Hop; [|discriminate].
  cbn [store lib log].
  destruct (store L st1 !! data) as [vb|] eqn:Hdata; [|discriminate].
  cbn [store lib log].
  destruct (store L st1 !! "mback3d_dist") as [vm|] eqn:Hm; [|discriminate].
  cbn [store lib log fst snd].
  unfold ask at 1. cbn [store lib log].
  destruct (respond L s3 _) as [s4 [r|e]]; [|discriminate].
  intros H. exists vm, pm, o, bs, f, va, vb, r.
  assert (Hrest : exists rest,
            log L st2
            = ((((log L st1 ++ [(QGetAttr pm "optimization", Ok o)])
                 ++ [(QGetAttr o "basic", Ok bs)]) ++ [(QGetAttr bs solver, Ok f)])
               ++ [(QCall f [va; vb] [("x0", vm); ("niter", VInt 100); ("show", VBool true)],
                    Ok r)]) ++ rest /\
            Forall (fun qa => exists o' i, fst qa = QGetItem o' i) rest).
  { unfold getitem in H.
    destruct r as [n|m ex|s|b| |l|l|lo hi stp|tag parts];
      try (unfold ask in H; cbn [store lib log] in H;
           destruct (respond L s4 _) as [s5 [v|e]]; [|discriminate];
           cbn [assign set_name] in H; injection H as <-; cbn [log];
           eexists [_]; split; [reflexivity|]; repeat constructor; cbn; eauto).
    - unfold lift in H. destruct (seq_index l 0); [|discriminate].
      cbn [assign set_name] in H. injection H as <-. cbn [log].
      exists []. split; [rewrite app_nil_r; reflexivity|constructor].
    - unfold lift in H. destruct (seq_index l 0); [|discriminate].
      cbn [assign set_name] in H. injection H as <-. cbn [log].
      exists []. split; [rewrite app_nil_r; reflexivity|constructor]. }
  destruct Hrest as (rest & Hlog & Hrest). exists rest.
  repeat split; try assumption; try reflexivity.
  rewrite Hlog, <- !app_assoc. reflexivity.
Qed.

(** An inversion at position [k] of a block that succeeds, when nothing
    from there on binds [mback3d_dist]. *)
Lemma inversion_ran (script : list stmt) (k : nat) (x solver op data : string)
    (st0 st : state L) :
  script !! k = Some (inversion x solver op data) ->
  "mback3d_dist" ∉ flat_map stores (drop k script) ->
  exec_block L script st0 = (st, Ok tt) ->
  exists st1 st2 vm new,
    exec_block L (take k script) st0 = (st1, Ok tt) /\
    exec L (inversion x solver op data) st1 = (st2, Ok tt) /\
    store L st !! "mback3d_dist" = Some vm /\
    ran_inversion L solver op data vm st1 st2 /\
    log L st = log L st2 ++ new.
Proof.
  intros Hk Hm Hrun.
  pose proof (take_drop_middle _ _ _ Hk) as Hsplit.
  rewrite <- Hsplit in Hrun.
  destruct (exec_block_split _ _ _ _ _ Hrun) as (st1 & st2 & H1 & H2 & H3).
  destruct (exec_inversion _ _ _ _ _ _ H2) as [vm Hran].
  destruct (exec_block_log_grows L (drop (S k) script) st2) as [new Hnew].
  rewrite H3 in Hnew. cbn [fst] in Hnew.
  exists st1, st2, vm, new. repeat split; try assumption.
  pose proof (exec_block_preserves L "mback3d_dist" (drop k script) st1 Hm) as Hp.
  rewrite (drop_S _ _ _ Hk), exec_block_cons in Hp. unfold bind in Hp.
  rewrite H2, H3 in Hp. cbn [fst] in Hp. rewrite Hp.
  destruct Hran as (? & ? & ? & ? & ? & ? & ? & ? & _ & _ & _ & Hvm & _). exact Hvm.
Qed.

(** The attributes read in a run that succeeds, of a script that ends
    with an [if] and has no other [if] or [try]. *)
Lemma reads_if_last (pre : list stmt) (test : expr) (body : list stmt)
    (st0 st : state L) :
  forallb straight pre = true -> forallb straight body = true ->
  exec_block L (pre ++ [SIf test body []]) st0 = (st, Ok tt) ->
  attr_reads (log L st)
  = attr_reads (log L st0) ++ flat_map stmt_attrs pre ++ attrs test
    \/
  attr_reads (log L st)
  = attr_reads (log L st0) ++ flat_map stmt_attrs pre ++ attrs test
    ++ flat_map stmt_attrs body.
Proof.
  intros Hpre Hbody Hrun. apply exec_block_if_last in Hrun.
  destruct (exec_block L pre st0) as [st1 [[]|e]] eqn:H1; [|discriminate].
  destruct (eval L test st1) as [st1' [tv|e]] eqn:H2; [|discriminate].
  pose proof (reads_exec_block pre Hpre _ _ _ H1) as R1.
  pose proof (reads_eval test _ _ _ H2) as R2.
  destruct (truthy tv).
  - destruct (exec_block L body st1') as [st2 [[]|e]] eqn:H3; [|discriminate].
    injection Hrun as <-. right.
    rewrite (reads_exec_block body Hbody _ _ _ H3), R2, R1, <- !app_assoc. reflexivity.
  - injection Hrun as <-. left. rewrite R2, R1, <- !app_assoc. reflexivity.
Qed.

End Reading.
End RunTheory.

(** ** The claims about the two scripts *)

Module Claims.
Import Python Syntax Scripts Structure Numpy Properties Theory NumpyFacts RunTheory.

(** Both scripts, for statements about either of them. *)
Ltac either_script H :=
  apply elem_of_cons in H as [-> | H];
  [| apply list_elem_of_singleton in H as ->].

(** Discharging a decidable side condition by computation. *)
Ltac by_computation := apply (bool_decide_unpack _); vm_compute; exact I.

(** [ny * nx * nz], the [global_shape] of lines 75, 80 and 137, is the
    product of the three integers. *)
Lemma eval_global_shape (L : library) (st : state L) (a b c : Z) :
  store L st !! "ny" = Some (VInt a) ->
  store L st !! "nx" = Some (VInt b) ->
  store L st !! "nz" = Some (VInt c) ->
  eval L (EBinOp (EBinOp $"ny" Mult $"nx") Mult $"nz") st = (st, Ok (VInt (a * b * c))).
Proof.
  intros Ha Hb Hc. cbn [eval]. unfold bind, lookup_name.
  rewrite Ha, Hb. cbn. rewrite Hc. reflexivity.
Qed.

(** Both scripts end with the [if rank == 0:] block. *)
Lemma script_ends_with_if (script : list stmt) :
  script ∈ [poststack_cupy; poststack_nccl] ->
  script = before_if script ++ [SIf rank0_test (rank0_block script) []].
Proof. intros H. either_script H; reflexivity. Qed.

Lemma eval_rank0_test (L : library) (st : state L) (r : Z) :
  store L st !! "rank" = Some (VInt r) ->
  eval L rank0_test st = (st, Ok (VBool (r =? 0))).
Proof.
  intros H. unfold rank0_test. cbn [eval]. unfold bind, lookup_name.
  rewrite H. reflexivity.
Qed.

(** The stand-in library that counts item assignments answers alike in
    equal states, and only an item assignment changes its state. *)
Lemma recording_read (r P : Z) (s : lstate (Demo.recording r P)) (q : query) :
  is_read q -> s = fst (respond (Demo.recording r P) s q).
Proof.
  destruct q as [| f args kw | | | | |]; cbn; try reflexivity; [|contradiction].
  intros _. destruct (String.eqb (Demo.method f) "DistributedArray"); reflexivity.
Defined.

Lemma recording_respond (r P : Z) (s1 s2 : lstate (Demo.recording r P)) (q : query) :
  s1 = s2 ->
  snd (respond (Demo.recording r P) s1 q) = snd (respond (Demo.recording r P) s2 q) /\
  fst (respond (Demo.recording r P) s1 q) = fst (respond (Demo.recording r P) s2 q).
Proof. intros ->. split; reflexivity. Defined.

(** C1, as stated: after the initialization the two scripts would be the
    same statements.  They are not: the statement that builds [PPop]
    (line 90 of [poststack_cupy.py], line 88 of [poststack_nccl.py]) differs,
    and so do the [DistributedArray] constructions and the two [print]s. *)
Lemma C1_scripts_differ_after_init : after_init_cupy <> after_init_nccl.
Proof.
  intros H. apply (f_equal (fun l => nth_error l 21)) in H.
  vm_compute in H. discriminate H.
Qed.

(** C1, amended: the two scripts import the same modules; their
    initialization differs; after it they are the same statement for
    statement up to three rewritings ([to_nccl_stmt]): every
    [DistributedArray] also gets [base_comm_nccl=nccl_comm], [PPop] is built
    from [wav=cp.asarray(wav)] without the cast to [float32], and the two
    comparisons are [np.allclose(a, b)] without [cp.asnumpy] and without
    [atol=1e-6]. *)
Theorem C1_same_up_to_nccl_rewriting :
  imports poststack_cupy = imports poststack_nccl /\
  poststack_cupy = imports poststack_cupy ++ init_cupy ++ after_init_cupy /\
  poststack_nccl = imports poststack_nccl ++ init_nccl ++ after_init_nccl /\
  init_cupy <> init_nccl /\
  map to_nccl_stmt after_init_cupy = after_init_nccl /\
  (forall i, i ∉ [17; 19; 21; 38; 44]%nat ->
     nth_error after_init_cupy i = nth_error after_init_nccl i) /\
  (forall j, j ∉ [3; 4]%nat ->
     nth_error (rank0_block poststack_cupy) j = nth_error (rank0_block poststack_nccl) j).
Proof.
  split; [reflexivity|]. split; [reflexivity|]. split; [reflexivity|].
  split; [discriminate|]. split; [vm_compute; reflexivity|]. split.
  - intros i Hi.
    do 45 (destruct i as [|i];
           [first [reflexivity | exfalso; apply Hi; repeat constructor]|]).
    reflexivity.
  - intros j Hj.
    do 59 (destruct j as [|j];
           [first [reflexivity | exfalso; apply Hj; repeat constructor]|]).
    reflexivity.
Qed.







(** The solvers read in a run that succeeds, with or without the rank-0
    block. *)
Lemma run_solver_reads (L : library) (script : list stmt)
    (s0 : lstate L) (st : state L) :
  script ∈ [poststack_cupy; poststack_nccl] ->
  run L script s0 = (st, Ok tt) ->
  solver_reads (log L st) = ["cgls"; "cg"; "cgls"].
Proof.
  intros Hscript Hrun. unfold run in Hrun. either_script Hscript.
  - destruct (reads_if_last L (before_if poststack_cupy) rank0_test
                (rank0_block poststack_cupy) _ st eq_refl eq_refl Hrun) as [H|H];
      unfold solver_reads; rewrite H; vm_compute; reflexivity.
  - destruct (reads_if_last L (before_if poststack_nccl) rank0_test
                (rank0_block poststack_nccl) _ st eq_refl eq_refl Hrun) as [H|H];
      unfold solver_reads; rewrite H; vm_compute; reflexivity.
Qed.

(** The three inversions of a run that succeeds, in a script that has them
    at the positions [k1], [k2] and [k3] and binds [mback3d_dist] before. *)
Lemma run_inversions (L : library) (script : list stmt)
    (s0 : lstate L) (st : state L) (k1 k2 k3 : nat) :
  map (fun k => script !! k) [k1; k2; k3]
  = map (fun i => Some (inversion_stmt i)) inversions ->
  "mback3d_dist" ∉ flat_map stores (drop k1 script) ->
  "mback3d_dist" ∉ flat_map stores (drop k2 script) ->
  "mback3d_dist" ∉ flat_map stores (drop k3 script) ->
  run L script s0 = (st, Ok tt) ->
  exists vm, store L st !! "mback3d_dist" = Some vm /\
    Forall (fun i =>
      let '(x, solver, op, data) := i in
      exists k st1 st2 new,
        script !! k = Some (inversion x solver op data) /\
        run L (take k script) s0 = (st1, Ok tt) /\
        exec L (inversion x solver op data) st1 = (st2, Ok tt) /\
        ran_inversion L solver op data vm st1 st2 /\
        log L st = log L st2 ++ new) inversions.
Proof.
  intros Hk H1 H2 H3 Hrun. unfold run in *.
  cbn [map inversions inversion_stmt] in Hk.
  injection Hk as Hk1 Hk2 Hk3.
  destruct (inversion_ran L script k1 _ _ _ _ _ st Hk1 H1 Hrun)
    as (sa1 & sa2 & vm & newa & Ha1 & Ha2 & Hvm & Hra & Hla).
  destruct (inversion_ran L script k2 _ _ _ _ _ st Hk2 H2 Hrun)
    as (sb1 & sb2 & vm' & newb & Hb1 & Hb2 & Hvm' & Hrb & Hlb).
  destruct (inversion_ran L script k3 _ _ _ _ _ st Hk3 H3 Hrun)
    as (sc1 & sc2 & vm'' & newc & Hc1 & Hc2 & Hvm'' & Hrc & Hlc).
  rewrite Hvm in Hvm', Hvm''. injection Hvm' as <-. injection Hvm'' as <-.
  exists vm. split; [exact Hvm|].
  apply Forall_cons; split; [exists k1, sa1, sa2, newa; repeat split; assumption|].
  apply Forall_cons; split; [exists k2, sb1, sb2, newb; repeat split; assumption|].
  apply Forall_cons; split; [exists k3, sc1, sc2, newc; repeat split; assumption|].
  apply Forall_nil_2.
Qed.



(** C6: neither script handles a failure.  There is no [try] in either
    script and exactly one conditional, the [if rank == 0:] block at the
    end; whenever a library call raises an exception, that call is the last
    one made and its exception is the outcome of the run. *)
Theorem C6_errors_propagate (L : library)
    (script : list stmt) (Hscript : script ∈ [poststack_cupy; poststack_nccl])
    (s0 : lstate L) (q : query) (e : val)
    (Hraised : (q, Raise e) ∈ log L (fst (run L script s0))) :
  snd (run L script s0) = Raise e /\
  last (log L (fst (run L script s0))) = Some (q, Raise e) /\
  list_sum (map count_try script) = 0%nat /\
  list_sum (map count_if script) = 1%nat /\
  last script = Some (SIf rank0_test (rank0_block script) []).
Proof.
  assert (Htry : forallb (plain false true) script = true)
    by (either_script Hscript; reflexivity).
  split; [|split; [|repeat split; either_script Hscript; reflexivity]].
  - destruct (faithful_exec_block L script (State L builtins s0 []) Htry)
      as (new & Hlog & [Hok|(oks & q' & e' & -> & Hoks & Hres)]);
      fold (run L script s0) in *; cbn [log app] in Hlog; rewrite Hlog in Hraised.
    + rewrite Forall_forall in Hok. destruct (Hok _ Hraised).
    + apply elem_of_app in Hraised as [Hin|Hin].
      * rewrite Forall_forall in Hoks. destruct (Hoks _ Hin).
      * apply list_elem_of_singleton in Hin. injection Hin as -> ->. exact Hres.
  - destruct (faithful_exec_block L script (State L builtins s0 []) Htry)
      as (new & Hlog & [Hok|(oks & q' & e' & -> & Hoks & Hres)]);
      fold (run L script s0) in *; cbn [log app] in Hlog; rewrite Hlog in Hraised |- *.
    + rewrite Forall_forall in Hok. destruct (Hok _ Hraised).
    + apply elem_of_app in Hraised as [Hin|Hin].
      * rewrite Forall_forall in Hoks. destruct (Hoks _ Hin).
      * apply list_elem_of_singleton in Hin. injection Hin as -> ->. apply last_snoc.
Qed.

Lemma C6_witness :
  snd (run Demo.no_file poststack_cupy tt) = Raise (exn "FileNotFoundError").
Proof.
  refine (proj1 (C6_errors_propagate Demo.no_file poststack_cupy _ tt
                   (QCall (VObj "attr" [VStr "load"])
                          [VStr "../testdata/avo/poststack_model.npz"] [])
                   (exn "FileNotFoundError") _)).
  - left.
  - apply (list_elem_of_lookup_2 _ 30). vm_compute. reflexivity.
Defined.



(** C8: the per-rank volume [m3d_i] is the 2-D model [m] repeated along a
    new first axis and transposed.  For a loaded model of shape
    [(nz, nxf)], [m] is the logarithm of every third column
    ([m[z, x] = log(model[z, 3 x])], shape [(nz, nx)] with
    [nx = ceil(nxf / 3)]), [m3d_i] has shape [(ny_i, nx, nz)] with
    [ny_i = 20], and each of its 20 slices [m3d_i[j, :, :]] is [m.T]. *)
Theorem C8_m3d_i_slices_are_m_T {A : Type} (log : A -> A) (model : ndarray A)
    (nz0 nxf : nat) (Hshape : shape model = [nz0; nxf]) :
  shape (m log model) = [nz0; Nat.div (nxf + 2) 3] /\
  (forall z x, item (m log model) [z; x] = log (item model [z; (3 * x)%nat])) /\
  shape (m3d_i log model) = [20%nat; Nat.div (nxf + 2) 3; nz0] /\
  [ny_i log model; nx log model; nz log model] = [20%nat; Nat.div (nxf + 2) 3; nz0] /\
  forall j, (j < 20)%nat ->
    exists slice, getitem0 j (m3d_i log model) = Some slice /\
                  same slice (T (m log model)).
Proof.
  pose proof (m_shape log model nz0 nxf Hshape) as Hm.
  pose proof (m3d_i_shape log model nz0 nxf Hshape) as H3.
  split; [exact Hm|]. split; [intros; apply m_item|]. split; [exact H3|].
  split; [unfold ny_i, nx, nz; rewrite H3; reflexivity|].
  intros j Hj. unfold getitem0. rewrite H3.
  destruct (Nat.ltb_spec j 20) as [_|Hge]; [|lia].
  eexists. split; [reflexivity|]. split.
  - cbn [shape T transpose map]. rewrite Hm. reflexivity.
  - cbn [shape]. intros idx Hidx.
    destruct (in_range_2 _ _ _ Hidx) as (x & z & -> & Hx & Hz).
    cbn [item]. rewrite (m3d_i_item log model nz0 nxf j x z Hshape Hx Hz).
    reflexivity.
Qed.

Lemma C8_witness :
  shape sample_model = [2; 7]%nat /\
  exists slice, getitem0 3 (m3d_i S sample_model) = Some slice /\
                same slice (T (m S sample_model)).
Proof.
  split; [reflexivity|].
  destruct (C8_m3d_i_slices_are_m_T S sample_model 2 7 eq_refl) as (_ & _ & _ & _ & H).
  apply (H 3%nat). lia.
Defined.

(** C9: with [P] ranks that have each loaded a model of shape
    [(nz, nxf)], the global size [ny] is the sum over the ranks of
    [ny_i = 20], that is [20 * P]; [m3d] and [mback3d] are the local
    volumes concatenated along axis 0, rank after rank, and have shape
    [(ny, nx, nz)]; and each of the three [DistributedArray]s of either
    script is created with [global_shape=ny * nx * nz], the product of the
    three sizes.  The smoothing filter is assumed to keep the shape. *)
Theorem C9_global_sizes {A : Type} (log : A -> A)
    (filtfilt : nat -> nat -> ndarray A -> ndarray A)
    (Hfilt : forall n ax a, shape (filtfilt n ax a) = shape a)
    (models : list (ndarray A)) (nz0 nxf : nat)
    (Hranks : models <> [])
    (Hshape : Forall (fun a => shape a = [nz0; nxf]) models) :
  let P := length models in
  let nx0 := Nat.div (nxf + 2) 3 in
  ny log models = (20 * P)%nat /\
  (exists a, m3d log models = Some a /\
     shape a = [ny log models; nx0; nz0] /\
     forall r j idx model, models !! r = Some model -> (j < 20)%nat ->
       item a ((r * 20 + j)%nat :: idx) = item (m3d_i log model) (j :: idx)) /\
  (exists b, mback3d log filtfilt models = Some b /\
     shape b = [ny log models; nx0; nz0] /\
     forall r j idx model, models !! r = Some model -> (j < 20)%nat ->
       item b ((r * 20 + j)%nat :: idx) = item (mback3d_i log filtfilt model) (j :: idx)) /\
  (forall model, model ∈ models ->
     global_shape log models model = (20 * P * nx0 * nz0)%nat) /\
  (forall script, script ∈ [poststack_cupy; poststack_nccl] ->
     map (keyword "global_shape") (distributed_arrays script)
     = replicate 3 (Some (EBinOp (EBinOp $"ny" Mult $"nx") Mult $"nz"))) /\
  (forall (L : library) (st : state L) (a b c : Z),
     store L st !! "ny" = Some (VInt a) ->
     store L st !! "nx" = Some (VInt b) ->
     store L st !! "nz" = Some (VInt c) ->
     eval L (EBinOp (EBinOp $"ny" Mult $"nx") Mult $"nz") st
     = (st, Ok (VInt (a * b * c)))).
Proof.
  intros P nx0.
  pose proof (NumpyFacts.ny_total log models nz0 nxf Hshape) as Hny.
  split; [exact Hny|]. split; [|split; [|split; [|split]]].
  - destruct (NumpyFacts.concatenate_blocks (map (m3d_i log) models) 20%nat [nx0; nz0])
      as (a & Ha & Hsh & Hit).
    + destruct models; [congruence|discriminate].
    + apply Forall_map. eapply Forall_impl; [exact Hshape|]. cbn beta.
      intros model Hm. apply NumpyFacts.m3d_i_shape. exact Hm.
    + exists a. split; [exact Ha|]. split.
      * rewrite Hsh, length_map, Hny. f_equal. subst P. lia.
      * intros r j idx model Hr Hj. apply Hit; [|exact Hj].
        rewrite list_lookup_fmap, Hr. reflexivity.
  - destruct (NumpyFacts.concatenate_blocks (map (mback3d_i log filtfilt) models)
                20%nat [nx0; nz0]) as (b & Hb & Hsh & Hit).
    + destruct models; [congruence|discriminate].
    + apply Forall_map. eapply Forall_impl; [exact Hshape|]. cbn beta.
      intros model Hm. rewrite (NumpyFacts.mback3d_i_shape log filtfilt model Hfilt).
      apply NumpyFacts.m3d_i_shape. exact Hm.
    + exists b. split; [exact Hb|]. split.
      * rewrite Hsh, length_map, Hny. f_equal. subst P. lia.
      * intros r j idx model Hr Hj. apply Hit; [|exact Hj].
        rewrite list_lookup_fmap, Hr. reflexivity.
  - intros model Hin. unfold global_shape, nx, nz.
    rewrite Forall_forall in Hshape.
    rewrite (NumpyFacts.m3d_i_shape log model nz0 nxf (Hshape model Hin)), Hny.
    reflexivity.
  - intros script Hs. either_script Hs; vm_compute; reflexivity.
  - intros L st a b c. apply eval_global_shape.
Qed.

Lemma C9_witness :
  ny S [sample_model; sample_model; sample_model] = 60%nat /\
  global_shape S [sample_model; sample_model; sample_model] sample_model = 360%nat.
Proof.
  destruct (C9_global_sizes S (fun _ _ a => a) (fun _ _ _ => eq_refl)
              [sample_model; sample_model; sample_model] 2 7)
    as (Hny & _ & _ & Hg & _).
  - discriminate.
  - repeat constructor.
  - split; [exact Hny|]. apply Hg. left.
Defined.



End Claims.

(** ** More facts about the array computations *)

Module NumpyMore.
Import Numpy NumpyFacts.

Section Arrays.
Context {A : Type}.

Lemma in_range_3 (n0 n1 n2 : nat) (idx : list nat) :
  in_range [n0; n1; n2] idx ->
  exists i0 i1 i2, idx = [i0; i1; i2] /\ (i0 < n0)%nat /\ (i1 < n1)%nat /\ (i2 < n2)%nat.
Proof.
  intros H. inversion H as [|i0 ? ? ? H0 H']; subst.
  inversion H' as [|i1 ? ? ? H1 H'']; subst.
  inversion H'' as [|i2 ? ? ? H2 H''']; subst.
  inversion H'''; subst. eauto 8.
Qed.

(** The flat layout. *)
Lemma length_flat_map_const {B C} (f : B -> list C) (k : nat) (l : list B) :
  (forall b, length (f b) = k) -> length (flat_map f l) = (length l * k)%nat.
Proof.
  intros Hf. induction l as [|b l IH]; [reflexivity|].
  cbn [flat_map]. rewrite length_app, Hf, IH. reflexivity.
Qed.

Lemma length_indices (sh : list nat) : length (indices sh) = size sh.
Proof.
  induction sh as [|n sh IH]; [reflexivity|].
  cbn [indices size foldr]. rewrite (length_flat_map_const _ (size sh)).
  - rewrite length_seq. reflexivity.
  - intros i. rewrite length_map. exact IH.
Qed.

Lemma length_flatten (a : ndarray A) : length (flatten a) = size (shape a).
Proof. unfold flatten. rewrite length_map. apply length_indices. Qed.

Lemma nth_error_flat_map_seq {C} (f : nat -> list C) (k : nat) :
  (forall i, length (f i) = k) ->
  forall n s i j, (i < n)%nat -> (j < k)%nat ->
    nth_error (flat_map f (seq s n)) (i * k + j) = nth_error (f (s + i)%nat) j.
Proof.
  intros Hf. induction n as [|n IH]; intros s i j Hi Hj; [lia|].
  cbn [seq flat_map]. destruct i as [|i].
  - rewrite Nat.add_0_r. cbn [Nat.mul Nat.add].
    apply nth_error_app1. rewrite Hf. exact Hj.
  - rewrite nth_error_app2 by (rewrite Hf; simpl; lia).
    rewrite Hf. replace (S i * k + j - k)%nat with (i * k + j)%nat by (simpl; lia).
    rewrite IH by lia. f_equal. f_equal. lia.
Qed.

Lemma ravel_lt (sh idx : list nat) :
  in_range sh idx -> (ravel sh idx < size sh)%nat.
Proof.
  intros H. induction H as [|i n idx sh Hi _ IH]; cbn [ravel size foldr]; [lia|].
  fold (size sh). nia.
Qed.

Lemma nth_error_indices (sh idx : list nat) :
  in_range sh idx -> nth_error (indices sh) (ravel sh idx) = Some idx.
Proof.
  intros H. induction H as [|i n idx sh Hi Hrest IH]; [reflexivity|].
  cbn [indices ravel].
  rewrite (nth_error_flat_map_seq _ (size sh)).
  - cbn [Nat.add]. rewrite nth_error_map, IH. reflexivity.
  - intros i0. rewrite length_map. apply length_indices.
  - exact Hi.
  - apply ravel_lt. exact Hrest.
Qed.

(** Items of the flat layout. *)
Lemma nth_flatten (d : A) (a : ndarray A) (idx : list nat) :
  in_range (shape a) idx -> nth (ravel (shape a) idx) (flatten a) d = item a idx.
Proof.
  intros H. apply nth_error_nth. unfold flatten.
  rewrite nth_error_map, (nth_error_indices _ _ H). reflexivity.
Qed.

Lemma reshape_flatten (d : A) (a : ndarray A) :
  (exists b, reshape d (shape a) (flatten a) = Some b /\ same b a) /\
  (forall sh, size sh <> size (shape a) -> reshape d sh (flatten a) = None).
Proof.
  split.
  - unfold reshape. rewrite length_flatten, Nat.eqb_refl.
    eexists. split; [reflexivity|]. split; [reflexivity|].
    cbn [shape item]. intros idx Hidx. apply nth_flatten. exact Hidx.
  - intros sh Hsh. unfold reshape. rewrite length_flatten.
    destruct (Nat.eqb_spec (size (shape a)) (size sh)); [congruence|reflexivity].
Qed.

Lemma transpose_201_120 (a : ndarray A) (n0 n1 n2 : nat) :
  shape a = [n0; n1; n2] ->
  shape (transpose [2; 0; 1]%nat a) = [n2; n0; n1] /\
  (forall z y x, item (transpose [2; 0; 1]%nat a) [z; y; x] = item a [y; x; z]) /\
  same (transpose [1; 2; 0]%nat (transpose [2; 0; 1]%nat a)) a /\
  same (transpose [2; 0; 1]%nat (transpose [1; 2; 0]%nat a)) a /\
  same (transpose [2; 1; 0]%nat (transpose [2; 1; 0]%nat a)) a.
Proof.
  intros H. split; [unfold transpose; cbn; rewrite H; reflexivity|].
  split; [reflexivity|].
  repeat split; try (unfold transpose; cbn; rewrite H; reflexivity);
    cbn [shape transpose map]; rewrite H; cbn [nth]; intros idx Hidx;
    destruct (in_range_3 _ _ _ _ Hidx) as (i0 & i1 & i2 & -> & _); reflexivity.
Qed.

Variable log : A -> A.
Variable filtfilt : nat -> nat -> ndarray A -> ndarray A.

(** Sections of a 3-D array. *)
Lemma sections_shape (a : ndarray A) (n0 n1 n2 : nat) :
  shape a = [n0; n1; n2] ->
  shape <$> section_xz a = (if (5 <? n0)%nat then Some [n1; n2] else None) /\
  shape <$> section_yz a = (if (200 <? n1)%nat then Some [n0; n2] else None) /\
  shape <$> section_xy a = (if (220 <? n2)%nat then Some [n0; n1] else None).
Proof.
  intros H. unfold section_xz, section_yz, section_xy, getitem_axis. rewrite H.
  cbn [lookup list_lookup].
  repeat split.
  - destruct (5 <? n0)%nat; reflexivity.
  - destruct (200 <? n1)%nat; reflexivity.
  - destruct (220 <? n2)%nat; reflexivity.
Qed.

(** Flattening a concatenation. *)
Lemma flat_map_seq_shift {C} (n : nat) :
  forall (g : nat -> list C) (s : nat),
    flat_map g (seq s n) = flat_map (fun j => g (s + j)%nat) (seq 0 n).
Proof.
  induction n as [|n IH]; intros g s; [reflexivity|].
  cbn [seq flat_map]. rewrite Nat.add_0_r. f_equal.
  rewrite (IH g (S s)), (IH (fun j => g (s + j)%nat) 1%nat).
  apply flat_map_ext. intros j. f_equal. lia.
Qed.

Lemma map_flat_map {B C D} (f : C -> D) (g : B -> list C) (l : list B) :
  map f (flat_map g l) = flat_map (fun b => map f (g b)) l.
Proof.
  induction l as [|b l IH]; [reflexivity|].
  cbn [flat_map]. rewrite map_app, IH. reflexivity.
Qed.

Lemma flat_map_ext_in {B C} (f g : B -> list C) (l : list B) :
  (forall b, In b l -> f b = g b) -> flat_map f l = flat_map g l.
Proof.
  induction l as [|b l IH]; intros H; [reflexivity|].
  cbn [flat_map]. rewrite (H b (or_introl eq_refl)), IH; [reflexivity|].
  intros b' Hb'. apply H. right. exact Hb'.
Qed.

Lemma flatten_blocks (c : ndarray A) (n : nat) (sh : list nat) (arrays : list (ndarray A)) :
  Forall (fun a => shape a = n :: sh) arrays ->
  forall off,
    (forall r i idx a, arrays !! r = Some a -> (i < n)%nat ->
       item c ((off + r * n + i)%nat :: idx) = item a (i :: idx)) ->
    flat_map (fun i => map (fun idx => item c ((off + i)%nat :: idx)) (indices sh))
             (seq 0 (length arrays * n))
    = concat (map flatten arrays).
Proof.
  induction 1 as [|a rest Ha _ IH]; intros off Hitem; [reflexivity|].
  cbn [length map concat]. change (S (length rest) * n)%nat with (n + length rest * n)%nat.
  rewrite seq_app, flat_map_app. f_equal.
  - unfold flatten. rewrite Ha. cbn [indices]. rewrite map_flat_map.
    apply flat_map_ext_in. intros i Hi. apply in_seq in Hi.
    rewrite map_map. apply map_ext. intros idx.
    rewrite <- (Hitem 0%nat i idx a eq_refl) by lia. f_equal. f_equal. lia.
  - cbn [Nat.add]. rewrite flat_map_seq_shift.
    rewrite <- (IH (off + n)%nat).
    + apply flat_map_ext. intros j. apply map_ext. intros idx. f_equal. f_equal. lia.
    + intros r i idx a' Hr Hi. rewrite <- (Hitem (S r) i idx a' Hr Hi).
      f_equal. f_equal. simpl. lia.
Qed.

Lemma flatten_concatenate (arrays : list (ndarray A)) (n : nat) (sh : list nat) :
  arrays <> [] ->
  Forall (fun a => shape a = n :: sh) arrays ->
  exists c, concatenate arrays = Some c /\ flatten c = concat (map flatten arrays).
Proof.
  intros Hne Hall.
  destruct (concatenate_blocks arrays n sh Hne Hall) as (c & Hc & Hsh & Hitem).
  exists c. split; [exact Hc|].
  unfold flatten at 1. rewrite Hsh. cbn [indices]. rewrite map_flat_map.
  rewrite <- (flatten_blocks c n sh arrays Hall 0%nat).
  - apply flat_map_ext. intros i. rewrite map_map. reflexivity.
  - intros r i idx a Hr Hi. cbn [Nat.add]. apply Hitem; assumption.
Qed.

End Arrays.
End NumpyMore.


(** ** Names are bound before they are read *)

Module ScopeTheory.
Import Python Syntax Properties Theory.

Section Scope.
Variable L : library.

Local Abbreviation has := (Properties.has L).
Local Abbreviation blameless := (Properties.blameless L).
Local Abbreviation binds := (Properties.binds L).

(** A computation that binds nothing new. *)
Local Abbreviation scoped bound := (Properties.binds L bound bound).

Lemma blameless_pure {B} (st : state L) (r : result B) :
  r <> Raise (exn "NameError") -> blameless st (st, r).
Proof.
  intros Hr. exists []. rewrite app_nil_r. split; [reflexivity|]. intros _. exact Hr.
Qed.

Lemma scoped_lift {B} (bound : list string) (r : result B) :
  r <> Raise (exn "NameError") -> scoped bound (lift L r).
Proof.
  intros Hr st H. split; [apply blameless_pure; exact Hr|]. split; [exact H|].
  intros _ _. exact H.
Qed.

Lemma scoped_ret {B} (bound : list string) (b : B) : scoped bound (ret L b).
Proof. apply (scoped_lift bound (Ok b)). discriminate. Qed.

Lemma binds_raise {B} (bound bound' : list string) (e : val) :
  e <> exn "NameError" -> binds bound bound' (@raise L B e).
Proof.
  intros He st H. split; [apply blameless_pure; congruence|]. split; [exact H|].
  intros b Hb. discriminate Hb.
Qed.

Lemma scoped_ask (bound : list string) (q : query) : scoped bound (ask L q).
Proof.
  intros st H. unfold ask. destruct (respond L (lib L st) q) as [s' a].
  cbn [fst snd store log]. split; [|split; [exact H|intros _ _; exact H]].
  exists [(q, a)]. split; [reflexivity|]. intros Hok.
  inversion Hok as [|? ? Ha _]; subst. destruct a; [discriminate|destruct Ha].
Qed.

Lemma scoped_lookup_name (bound : list string) (x : string) :
  x ∈ bound -> scoped bound (lookup_name L x).
Proof.
  intros Hx st H. unfold lookup_name.
  unfold Properties.has in H. rewrite Forall_forall in H.
  destruct (H x Hx) as [v Hv]. rewrite Hv.
  split; [apply blameless_pure; discriminate|].
  split; [apply Forall_forall; exact H|intros _ _; apply Forall_forall; exact H].
Qed.

Lemma binds_bind {B C} (bound bound1 bound2 : list string)
    (m : M L B) (k : B -> M L C) :
  binds bound bound1 m ->
  (forall b st, has bound st -> has bound1 st ->
     blameless st (k b st) /\ has bound (fst (k b st)) /\
     (forall c, snd (k b st) = Ok c -> has bound2 (fst (k b st)))) ->
  binds bound bound2 (bind L m k).
Proof.
  intros Hm Hk st H. unfold bind.
  destruct (Hm st H) as ((new1 & Hl1 & Hb1) & Hh1 & Hs1).
  destruct (m st) as [st1 [b|e]]; cbn [fst snd] in *.
  - destruct (Hk b st1 Hh1 (Hs1 b eq_refl)) as ((new2 & Hl2 & Hb2) & Hh2 & Hs2).
    split; [|split; assumption].
    exists (new1 ++ new2). split; [rewrite Hl2, Hl1, app_assoc; reflexivity|].
    intros Hok. apply Forall_app in Hok as [_ Hok2]. exact (Hb2 Hok2).
  - split; [|split; [exact Hh1|intros c Hc; discriminate Hc]].
    exists new1. split; [exact Hl1|]. intros Hok Habs. apply (Hb1 Hok).
    injection Habs as ->. reflexivity.
Qed.

Lemma scoped_bind {B C} (bound : list string) (m : M L B) (k : B -> M L C) :
  scoped bound m -> (forall b, scoped bound (k b)) -> scoped bound (bind L m k).
Proof.
  intros Hm Hk. apply (binds_bind bound bound bound); [exact Hm|].
  intros b st H _. exact (Hk b st H).
Qed.

Lemma scoped_mapM {B C} (bound : list string) (f : B -> M L C) (l : list B) :
  Forall (fun b => scoped bound (f b)) l -> scoped bound (mapM L f l).
Proof.
  induction 1 as [|b l Hb _ IH]; cbn [mapM].
  - apply scoped_ret.
  - apply scoped_bind; [exact Hb|]. intros v.
    apply scoped_bind; [exact IH|]. intros vs. apply scoped_ret.
Qed.

Lemma scoped_optM {B C} (bound : list string) (f : B -> M L C) (o : option B) :
  from_option (fun b => scoped bound (f b)) True o -> scoped bound (optM L f o).
Proof.
  destruct o as [b|]; cbn [optM from_option]; intros H.
  - apply scoped_bind; [exact H|]. intros v. apply scoped_ret.
  - apply scoped_ret.
Qed.

Lemma seq_index_blameless (l : list val) (i : Z) :
  seq_index l i <> Raise (exn "NameError").
Proof.
  unfold seq_index. destruct (_ || _); [discriminate|].
  destruct (nth_error _ _); discriminate.
Qed.

Lemma scoped_getitem (bound : list string) (o i : val) : scoped bound (getitem L o i).
Proof.
  unfold getitem. destruct o; try apply scoped_ask;
    destruct i; try apply scoped_ask; apply scoped_lift, seq_index_blameless.
Qed.

Lemma scoped_apply_binop (bound : list string) (op : binop) (l r : val) :
  scoped bound (apply_binop L op l r).
Proof.
  unfold apply_binop. destruct l; try apply scoped_ask.
  destruct r; try apply scoped_ask.
  destruct (int_binop op n n0) as [res|] eqn:Hop; [|apply scoped_ask].
  apply scoped_lift. destruct op; cbn in Hop; try discriminate;
    injection Hop as <-; try discriminate; destruct (n0 =? 0); discriminate.
Qed.

Lemma scoped_negate (bound : list string) (v : val) : scoped bound (negate L v).
Proof. unfold negate. destruct v; try apply scoped_ask; apply scoped_ret. Qed.

Lemma scoped_compare_eq (bound : list string) (l r : val) :
  scoped bound (compare_eq L l r).
Proof.
  unfold compare_eq. destruct l; try apply scoped_ask.
  destruct r; try apply scoped_ask. apply scoped_ret.
Qed.

Lemma forallb_flat_map {B C} (p : C -> bool) (f : B -> list C) (l : list B) :
  forallb p (flat_map f l) = true -> Forall (fun b => forallb p (f b) = true) l.
Proof.
  induction l as [|b l IH]; intros H; [constructor|].
  cbn [flat_map] in H. rewrite forallb_app in H. apply andb_prop in H as [H1 H2].
  constructor; [exact H1|apply IH; exact H2].
Qed.

Lemma scoped_eval (bound : list string) (e : expr) :
  forallb (inb bound) (names e) = true -> scoped bound (eval L e).
Proof.
  induction e as [x|n|m e|s|b|e a IHe|f args kws IHf IHargs IHkws|e i IHe IHi
                 |lo hi st IHlo IHhi IHst|es IHes|es IHes|l op r IHl IHr|e IHe|l r IHl IHr]
    using expr_nested_ind; cbn [eval names]; intros Hn.
  - apply scoped_lookup_name. cbn in Hn. apply andb_prop in Hn as [Hn _].
    apply bool_decide_eq_true in Hn. exact Hn.
  - apply scoped_ret.
  - apply scoped_ret.
  - apply scoped_ret.
  - apply scoped_ret.
  - apply scoped_bind; [apply IHe; exact Hn|]. intros v. apply scoped_ask.
  - rewrite !forallb_app in Hn. apply andb_prop in Hn as [Hf Hn].
    apply andb_prop in Hn as [Ha Hk].
    apply scoped_bind; [apply IHf; exact Hf|]. intros fv.
    apply scoped_bind.
    { apply scoped_mapM. apply forallb_flat_map in Ha.
      rewrite Forall_forall in IHargs, Ha. apply Forall_forall.
      intros a Hin. apply IHargs; [exact Hin|apply Ha; exact Hin]. }
    intros avs. apply scoped_bind.
    { apply scoped_mapM. apply forallb_flat_map in Hk.
      rewrite Forall_forall in IHkws, Hk. apply Forall_forall.
      intros ka Hin. apply scoped_bind; [|intros v; apply scoped_ret].
      apply IHkws; [exact Hin|apply Hk; exact Hin]. }
    intros kvs. apply scoped_ask.
  - rewrite forallb_app in Hn. apply andb_prop in Hn as [H1 H2].
    apply scoped_bind; [apply IHe; exact H1|]. intros v.
    apply scoped_bind; [apply IHi; exact H2|]. intros iv. apply scoped_getitem.
  - rewrite !forallb_app in Hn. apply andb_prop in Hn as [H1 Hn].
    apply andb_prop in Hn as [H2 H3].
    apply scoped_bind; [apply scoped_optM; destruct lo; [apply IHlo; exact H1|exact I]|].
    intros l. apply scoped_bind;
      [apply scoped_optM; destruct hi; [apply IHhi; exact H2|exact I]|].
    intros h. apply scoped_bind;
      [apply scoped_optM; destruct st; [apply IHst; exact H3|exact I]|].
    intros s. apply scoped_ret.
  - apply scoped_bind; [|intros vs; apply scoped_ret].
    apply scoped_mapM. apply forallb_flat_map in Hn.
    rewrite Forall_forall in IHes, Hn. apply Forall_forall.
    intros a Hin. apply IHes; [exact Hin|apply Hn; exact Hin].
  - apply scoped_bind; [|intros vs; apply scoped_ret].
    apply scoped_mapM. apply forallb_flat_map in Hn.
    rewrite Forall_forall in IHes, Hn. apply Forall_forall.
    intros a Hin. apply IHes; [exact Hin|apply Hn; exact Hin].
  - rewrite forallb_app in Hn. apply andb_prop in Hn as [H1 H2].
    apply scoped_bind; [apply IHl; exact H1|]. intros lv.
    apply scoped_bind; [apply IHr; exact H2|]. intros rv. apply scoped_apply_binop.
  - apply scoped_bind; [apply IHe; exact Hn|]. intros v. apply scoped_negate.
  - rewrite forallb_app in Hn. apply andb_prop in Hn as [H1 H2].
    apply scoped_bind; [apply IHl; exact H1|]. intros lv.
    apply scoped_bind; [apply IHr; exact H2|]. intros rv. apply scoped_compare_eq.
Qed.

Lemma has_insert (bound : list string) (x : string) (v : val) (st : state L) :
  has bound st ->
  has (x :: bound) (State L (<[x := v]> (store L st)) (lib L st) (log L st)).
Proof.
  intros H. constructor; cbn [store].
  - rewrite lookup_insert_eq. eauto.
  - eapply Forall_impl; [exact H|]. cbn beta. intros y Hy.
    destruct (decide (x = y)) as [->|Hne].
    + rewrite lookup_insert_eq. eauto.
    + rewrite lookup_insert_ne by exact Hne. exact Hy.
Qed.

Lemma binds_set_name (bound : list string) (x : string) (v : val) :
  binds bound (x :: bound) (set_name L x v).
Proof.
  intros st H. unfold set_name. cbn [fst snd].
  pose proof (has_insert bound x v st H) as Hins.
  split; [|split; [inversion Hins; assumption|intros _ _; exact Hins]].
  exists []. cbn [log]. rewrite app_nil_r. split; [reflexivity|]. discriminate.
Qed.

Lemma binds_unpack (ts : list expr) :
  forall (bound : list string) (vs : list val),
    binds bound
      (flat_map (fun t' => match t' with EName x => [x] | _ => [] end) ts ++ bound)
      (unpack L ts vs).
Proof.
  induction ts as [|t ts IH]; intros bound vs.
  - destruct vs; [apply scoped_ret|apply binds_raise; discriminate].
  - destruct t; cbn [unpack]; try (apply binds_raise; discriminate).
    destruct vs as [|v vs]; [apply binds_raise; discriminate|].
    apply (binds_bind bound (id :: bound)); [apply binds_set_name|].
    intros _ st _ Hx. destruct (IH (id :: bound) vs st Hx) as (Hb & Hh & Hs).
    split; [exact Hb|]. split; [inversion Hh; assumption|].
    intros c Hc. specialize (Hs c Hc). cbn [flat_map].
    unfold Properties.has in *. apply Forall_app in Hs as [Hs1 Hs2].
    inversion Hs2; subst. constructor; [assumption|].
    apply Forall_app. split; assumption.
Qed.

Lemma binds_assign (bound : list string) (t : expr) (v : val) :
  forallb (inb bound) (target_loads t) = true ->
  binds bound (target_stores t ++ bound) (assign L t v).
Proof.
  intros Hl. destruct t; cbn [assign target_stores]; try (apply binds_raise; discriminate).
  - apply binds_set_name.
  - cbn [target_loads] in Hl. rewrite forallb_app in Hl. apply andb_prop in Hl as [H1 H2].
    apply scoped_bind; [apply scoped_eval; exact H1|]. intros ov.
    apply scoped_bind; [apply scoped_eval; exact H2|]. intros iv.
    apply scoped_bind; [apply scoped_ask|]. intros _. apply scoped_ret.
  - destruct v; try (apply binds_raise; discriminate);
      (destruct (Nat.eqb _ _); [apply binds_unpack|apply binds_raise; discriminate]).
  - destruct v; try (apply binds_raise; discriminate);
      (destruct (Nat.eqb _ _); [apply binds_unpack|apply binds_raise; discriminate]).
Qed.

Lemma scoped_catch (bound : list string) (body handler : M L unit) :
  scoped bound body -> scoped bound handler -> scoped bound (catch L body handler).
Proof.
  intros Hb Hh st H. unfold catch.
  destruct (Hb st H) as ((new1 & Hl1 & Hb1) & Hh1 & Hs1).
  destruct (body st) as [st1 [[]|e]]; cbn [fst snd] in *.
  - split; [|split; [exact Hh1|intros _ _; exact Hh1]].
    exists new1. split; [exact Hl1|]. discriminate.
  - destruct (Hh st1 Hh1) as ((new2 & Hl2 & Hb2) & Hh2 & Hs2).
    split; [|split; assumption].
    exists (new1 ++ new2). split; [rewrite Hl2, Hl1, app_assoc; reflexivity|].
    intros Hok. apply Forall_app in Hok as [_ Hok2]. exact (Hb2 Hok2).
Qed.

(** A block of statements, each of which binds what [top_stores] says. *)
Lemma scoped_each (blk : list stmt) :
  Forall (fun s => forall bound, wellscoped bound s = true ->
                     binds bound (top_stores s ++ bound) (exec L s)) blk ->
  forall bound, scoped_block wellscoped bound blk = true ->
    scoped bound (blockM L (exec L) blk).
Proof.
  induction 1 as [|s blk Hs _ IH]; intros bound Hw; cbn [blockM].
  - apply scoped_ret.
  - cbn [scoped_block] in Hw. apply andb_prop in Hw as [Hw1 Hw2].
    apply (binds_bind bound (top_stores s ++ bound)); [apply Hs; exact Hw1|].
    intros _ st _ H1. destruct (IH _ Hw2 st H1) as (Hb & Hh & _).
    unfold Properties.has in Hh. apply Forall_app in Hh as [_ Hh].
    split; [exact Hb|]. split; [exact Hh|intros _ _; exact Hh].
Qed.

Lemma binds_exec (s : stmt) :
  forall bound, wellscoped bound s = true ->
    binds bound (top_stores s ++ bound) (exec L s).
Proof.
  induction s as [m a|m n a|t v|v|t b o IHb IHo|b h IHb IHh] using stmt_nested_ind;
    intros bound Hw; cbn [exec top_stores app].
  - apply (binds_bind bound bound); [apply scoped_ask|].
    intros v st H _. apply binds_set_name. exact H.
  - apply (binds_bind bound bound); [apply scoped_ask|].
    intros mv st H _. revert st H.
    apply (binds_bind bound bound); [apply scoped_ask|].
    intros v st H _. apply binds_set_name. exact H.
  - cbn [wellscoped] in Hw. apply andb_prop in Hw as [H1 H2].
    apply (binds_bind bound bound); [apply scoped_eval; exact H1|].
    intros w st H _. apply binds_assign; assumption.
  - apply scoped_bind; [apply scoped_eval; exact Hw|]. intros _. apply scoped_ret.
  - cbn [wellscoped] in Hw. apply andb_prop in Hw as [Hw Ho].
    apply andb_prop in Hw as [Ht Hb].
    apply scoped_bind; [apply scoped_eval; exact Ht|]. intros tv.
    destruct (truthy tv); apply scoped_each; assumption.
  - cbn [wellscoped] in Hw. apply andb_prop in Hw as [Hb Hh].
    apply scoped_catch; apply scoped_each; assumption.
Qed.

(** A well-scoped script, run from the built-in names, does not end in a
    [NameError] unless a library call raised one. *)
Lemma run_blameless (script : list stmt) (s0 : lstate L) :
  scoped_block wellscoped ["float"; "print"] script = true ->
  Forall ok_entry (log L (fst (run L script s0))) ->
  snd (run L script s0) <> Raise (exn "NameError").
Proof.
  intros Hw Hok.
  destruct (scoped_each script) with (bound := ["float"; "print"])
                                     (st := State L builtins s0 [])
    as ((new & Hl & Hb) & _).
  - apply Forall_forall. intros s _. apply binds_exec.
  - exact Hw.
  - repeat constructor; cbn [store]; eexists; reflexivity.
  - apply Hb. unfold run, exec_block in Hok. rewrite Hl in Hok. exact Hok.
Qed.

(** A block that runs to its end has bound the names of [bound_after]. *)
Lemma binds_block (blk : list stmt) :
  forall bound, scoped_block wellscoped bound blk = true ->
    binds bound (bound_after bound blk) (exec_block L blk).
Proof.
  induction blk as [|s blk IH]; intros bound Hw.
  - apply scoped_ret.
  - cbn [scoped_block] in Hw. apply andb_prop in Hw as [Hw1 Hw2].
    rewrite exec_block_cons. cbn [bound_after fold_left].
    apply (binds_bind bound (top_stores s ++ bound)); [apply binds_exec; exact Hw1|].
    intros _ st _ H1. destruct (IH _ Hw2 st H1) as (Hb & Hh & Hs).
    unfold Properties.has in Hh. apply Forall_app in Hh as [_ Hh].
    split; [exact Hb|]. split; [exact Hh|exact Hs].
Qed.

End Scope.
End ScopeTheory.

(** ** Further properties of the scripts *)

Module Extras.
Import Python Syntax Scripts Structure Numpy Properties Theory NumpyFacts NumpyMore
  ScopeTheory.

(** X1: the local arrays that the ranks put into a distributed array add
    up to its global shape.  A tile [m3d_i] or [mback3d_i], flattened
    (lines 77 and 82), has [ny_i * nx * nz] items, and over all ranks these
    are [ny * nx * nz] items, the [global_shape] of lines 75 and 80. *)
Theorem X1_local_sizes_add_up {A : Type} (log : A -> A)
    (filtfilt : nat -> nat -> ndarray A -> ndarray A)
    (Hfilt : forall n ax a, shape (filtfilt n ax a) = shape a)
    (models : list (ndarray A)) (nz0 nxf : nat)
    (Hshape : Forall (fun a => shape a = [nz0; nxf]) models) :
  Forall (fun model =>
    length (flatten (m3d_i log model))
    = (ny_i log model * nx log model * nz log model)%nat /\
    length (flatten (mback3d_i log filtfilt model))
    = (ny_i log model * nx log model * nz log model)%nat /\
    list_sum (map (fun mo => length (flatten (m3d_i log mo))) models)
    = global_shape log models model /\
    list_sum (map (fun mo => length (flatten (mback3d_i log filtfilt mo))) models)
    = global_shape log models model) models.
Proof.
  assert (Hlen : forall model, shape model = [nz0; nxf] ->
            length (flatten (m3d_i log model)) = (20 * Nat.div (nxf + 2) 3 * nz0)%nat /\
            length (flatten (mback3d_i log filtfilt model))
            = (20 * Nat.div (nxf + 2) 3 * nz0)%nat).
  { intros model Hm. rewrite !length_flatten.
    rewrite (mback3d_i_shape log filtfilt model Hfilt), (m3d_i_shape log model _ _ Hm).
    cbn -[Nat.div]. split; lia. }
  assert (Hsum : forall f : ndarray A -> nat,
            (forall model, shape model = [nz0; nxf] ->
               f model = (20 * Nat.div (nxf + 2) 3 * nz0)%nat) ->
            list_sum (map f models)
            = (20 * length models * Nat.div (nxf + 2) 3 * nz0)%nat).
  { intros f Hf. clear Hlen. induction Hshape as [|a l Ha _ IH]; [reflexivity|].
    change (list_sum (map f (a :: l))) with (f a + list_sum (map f l))%nat.
    rewrite IH, (Hf a Ha). cbn [length]. lia. }
  pose proof (ny_total log models nz0 nxf Hshape) as Hny.
  apply Forall_forall. intros model Hin.
  rewrite Forall_forall in Hshape. pose proof (Hshape model Hin) as Hm.
  destruct (Hlen model Hm) as [H1 H2].
  assert (Hg : global_shape log models model
               = (20 * length models * Nat.div (nxf + 2) 3 * nz0)%nat).
  { unfold global_shape, nx, nz. rewrite (m3d_i_shape log model _ _ Hm), Hny.
    reflexivity. }
  unfold ny_i, nx, nz. rewrite (m3d_i_shape log model _ _ Hm). cbn [nth].
  split; [exact H1|]. split; [exact H2|]. rewrite Hg.
  split; apply Hsum; intros mo Hmo; apply (Hlen mo Hmo).
Qed.

Lemma X1_witness :
  list_sum (map (fun mo => length (flatten (m3d_i S mo)))
                [sample_model; sample_model; sample_model])
  = global_shape S [sample_model; sample_model; sample_model] sample_model.
Proof.
  pose proof (X1_local_sizes_add_up S (fun _ _ a => a) (fun _ _ _ => eq_refl)
                [sample_model; sample_model; sample_model] 2 7) as H.
  assert (Hs : Forall (fun a => shape a = [2; 7]%nat)
                 [sample_model; sample_model; sample_model]) by (repeat constructor).
  specialize (H Hs). apply Forall_cons in H as [(_ & _ & H & _) _]. exact H.
Defined.

(** X2: the gathered volume, flattened, is the flattened tiles of the ranks
    one after the other in rank order, for [m3d] as for [mback3d]: what the
    ranks put into [m3d_dist] (line 77), laid end to end, is what line 67
    gathers into [m3d]. *)
Theorem X2_gathered_volume_is_rank_ordered {A : Type} (log : A -> A)
    (filtfilt : nat -> nat -> ndarray A -> ndarray A)
    (Hfilt : forall n ax a, shape (filtfilt n ax a) = shape a)
    (models : list (ndarray A)) (nz0 nxf : nat)
    (Hranks : models <> [])
    (Hshape : Forall (fun a => shape a = [nz0; nxf]) models) :
  (exists a, m3d log models = Some a /\
     flatten a = concat (map (fun model => flatten (m3d_i log model)) models)) /\
  (exists b, mback3d log filtfilt models = Some b /\
     flatten b = concat (map (fun model => flatten (mback3d_i log filtfilt model)) models)).
Proof.
  split.
  - destruct (flatten_concatenate (map (m3d_i log) models) 20%nat
                [Nat.div (nxf + 2) 3; nz0]) as (a & Ha & Hf).
    + destruct models; [congruence|discriminate].
    + apply Forall_map. eapply Forall_impl; [exact Hshape|]. cbn beta.
      intros model Hm. apply m3d_i_shape. exact Hm.
    + exists a. split; [exact Ha|]. rewrite Hf, map_map. reflexivity.
  - destruct (flatten_concatenate (map (mback3d_i log filtfilt) models) 20%nat
                [Nat.div (nxf + 2) 3; nz0]) as (b & Hb & Hf).
    + destruct models; [congruence|discriminate].
    + apply Forall_map. eapply Forall_impl; [exact Hshape|]. cbn beta.
      intros model Hm. rewrite (mback3d_i_shape log filtfilt model Hfilt).
      apply m3d_i_shape. exact Hm.
    + exists b. split; [exact Hb|]. rewrite Hf, map_map. reflexivity.
Qed.

Lemma X2_witness :
  exists a, m3d S [sample_model; sample_model] = Some a /\
    flatten a = flatten (m3d_i S sample_model) ++ flatten (m3d_i S sample_model).
Proof.
  destruct (X2_gathered_volume_is_rank_ordered S (fun _ _ a => a) (fun _ _ _ => eq_refl)
              [sample_model; sample_model] 2 7) as [(a & Ha & Hf) _].
  - discriminate.
  - repeat constructor.
  - exists a. split; [exact Ha|]. rewrite Hf. cbn [map concat].
    rewrite app_nil_r. reflexivity.
Defined.

(** X3: the sections the figure shows exist only in a volume that is large
    enough.  Of the gathered [m3d] (and of [mback3d]) the section
    [a[5, :, :]] always exists, with shape [(nx, nz)]; [a[:, 200, :]]
    exists exactly when [nx > 200], with shape [(ny, nz)]; [a[:, :, 220]]
    exists exactly when [nz > 220], with shape [(ny, nx)]; otherwise the
    indexing is an [IndexError]. *)
Theorem X3_plotted_sections {A : Type} (log : A -> A)
    (filtfilt : nat -> nat -> ndarray A -> ndarray A)
    (Hfilt : forall n ax a, shape (filtfilt n ax a) = shape a)
    (models : list (ndarray A)) (nz0 nxf : nat)
    (Hranks : models <> [])
    (Hshape : Forall (fun a => shape a = [nz0; nxf]) models) :
  let ny0 := (20 * length models)%nat in
  let nx0 := Nat.div (nxf + 2) 3 in
  exists a b,
    m3d log models = Some a /\ mback3d log filtfilt models = Some b /\
    Forall (fun v =>
      shape <$> section_xz v = Some [nx0; nz0] /\
      shape <$> section_yz v = (if (200 <? nx0)%nat then Some [ny0; nz0] else None) /\
      shape <$> section_xy v = (if (220 <? nz0)%nat then Some [ny0; nx0] else None))
      [a; b].
Proof.
  intros ny0 nx0.
  destruct (concatenate_blocks (map (m3d_i log) models) 20%nat [nx0; nz0])
    as (a & Ha & Hsa & _).
  { destruct models; [congruence|discriminate]. }
  { apply Forall_map. eapply Forall_impl; [exact Hshape|]. cbn beta.
    intros model Hm. apply m3d_i_shape. exact Hm. }
  destruct (concatenate_blocks (map (mback3d_i log filtfilt) models) 20%nat [nx0; nz0])
    as (b & Hb & Hsb & _).
  { destruct models; [congruence|discriminate]. }
  { apply Forall_map. eapply Forall_impl; [exact Hshape|]. cbn beta.
    intros model Hm. rewrite (mback3d_i_shape log filtfilt model Hfilt).
    apply m3d_i_shape. exact Hm. }
  rewrite length_map in Hsa, Hsb.
  assert (H5 : (5 <? length models * 20)%nat = true).
  { apply Nat.ltb_lt. destruct models; [congruence|]. cbn [length]. lia. }
  exists a, b. split; [exact Ha|]. split; [exact Hb|].
  apply Forall_cons; split; [|apply Forall_cons; split; [|apply Forall_nil_2]].
  - destruct (sections_shape a _ _ _ Hsa) as (H1 & H2 & H3).
    rewrite H5 in H1. rewrite H1, H2, H3.
    replace (length models * 20)%nat with ny0 by (subst ny0; lia). auto.
  - destruct (sections_shape b _ _ _ Hsb) as (H1 & H2 & H3).
    rewrite H5 in H1. rewrite H1, H2, H3.
    replace (length models * 20)%nat with ny0 by (subst ny0; lia). auto.
Qed.

Lemma X3_witness :
  exists a, m3d S [sample_model] = Some a /\
    shape <$> section_xz a = Some [3; 2]%nat /\
    section_yz a = None /\ section_xy a = None.
Proof.
  destruct (X3_plotted_sections S (fun _ _ a => a) (fun _ _ _ => eq_refl)
              [sample_model] 2 7) as (a & b & Ha & _ & H).
  - discriminate.
  - repeat constructor.
  - apply Forall_cons in H as [(H1 & H2 & H3) _].
    exists a. split; [exact Ha|]. split; [exact H1|].
    cbn in H2, H3. split.
    + destruct (section_yz a); [discriminate|reflexivity].
    + destruct (section_xy a); [discriminate|reflexivity].
Defined.

(** X4: the gathered model does not vary along y within a rank.  Row
    [20 r + j] of [m3d] is the transposed 2-D model [m.T] of rank [r], for
    every [j] below 20; so when all ranks have loaded the same model, all
    [ny] rows of [m3d] are the same. *)
Theorem X4_rows_of_m3d {A : Type} (log : A -> A)
    (models : list (ndarray A)) (nz0 nxf : nat)
    (Hranks : models <> [])
    (Hshape : Forall (fun a => shape a = [nz0; nxf]) models) :
  exists a, m3d log models = Some a /\
    forall r j model, models !! r = Some model -> (j < 20)%nat ->
      exists row, getitem0 (r * 20 + j) a = Some row /\ same row (T (m log model)).
Proof.
  destruct (concatenate_blocks (map (m3d_i log) models) 20%nat [Nat.div (nxf + 2) 3; nz0])
    as (a & Ha & Hsa & Hitem).
  { destruct models; [congruence|discriminate]. }
  { apply Forall_map. eapply Forall_impl; [exact Hshape|]. cbn beta.
    intros model Hm. apply m3d_i_shape. exact Hm. }
  exists a. split; [exact Ha|]. intros r j model Hr Hj.
  rewrite Forall_forall in Hshape.
  pose proof (Hshape model (list_elem_of_lookup_2 _ _ _ Hr)) as Hm.
  pose proof (lookup_lt_Some _ _ _ Hr) as Hlt.
  unfold getitem0. rewrite Hsa, length_map.
  destruct (Nat.ltb_spec (r * 20 + j) (length models * 20)) as [_|Hge]; [|nia].
  eexists. split; [reflexivity|]. split.
  - cbn [shape T transpose map]. rewrite (m_shape log model _ _ Hm). reflexivity.
  - cbn [shape]. intros idx Hidx.
    destruct (in_range_2 _ _ _ Hidx) as (x & z & -> & Hx & Hz).
    cbn [item]. rewrite (Hitem r j [x; z] (m3d_i log model)); [|
      rewrite list_lookup_fmap, Hr; reflexivity | exact Hj].
    rewrite (m3d_i_item log model nz0 nxf j x z Hm Hx Hz). reflexivity.
Qed.

Lemma X4_witness :
  exists a row, m3d S [sample_model; sample_model] = Some a /\
    getitem0 27 a = Some row /\ same row (T (m S sample_model)).
Proof.
  destruct (X4_rows_of_m3d S [sample_model; sample_model] 2 7) as (a & Ha & H).
  - discriminate.
  - repeat constructor.
  - destruct (H 1%nat 7%nat sample_model eq_refl) as (row & Hrow & Hsame); [lia|].
    exists a, row. auto.
Defined.

(** X5: flattening and reshaping are inverse.  [a.flatten()] (lines 77, 82)
    reshaped to the shape of [a] (as on lines 101-102) is [a] again, and
    reshaping it to a shape with another number of items is an error. *)
Theorem X5_reshape_of_flatten {A : Type} (d : A) (a : ndarray A) :
  (exists b, reshape d (shape a) (flatten a) = Some b /\ same b a) /\
  length (flatten a) = size (shape a) /\
  (forall sh, size sh <> size (shape a) -> reshape d sh (flatten a) = None).
Proof.
  destruct (reshape_flatten d a) as [H1 H2].
  split; [exact H1|]. split; [apply length_flatten|exact H2].
Qed.

(** X6: the transpositions of the scripts undo each other.  On a 3-D array
    [transpose(2, 0, 1)] (the operator [Top] of line 92, and line 155) is
    undone by [transpose(1, 2, 0)] (line 155), and the other way round;
    [transpose((2, 1, 0))] of line 48 undoes itself. *)
Theorem X6_transposes_undo {A : Type} (a : ndarray A) (n0 n1 n2 : nat)
    (Hshape : shape a = [n0; n1; n2]) :
  shape (transpose [2; 0; 1]%nat a) = [n2; n0; n1] /\
  (forall z y x, item (transpose [2; 0; 1]%nat a) [z; y; x] = item a [y; x; z]) /\
  same (transpose [1; 2; 0]%nat (transpose [2; 0; 1]%nat a)) a /\
  same (transpose [2; 0; 1]%nat (transpose [1; 2; 0]%nat a)) a /\
  same (transpose [2; 1; 0]%nat (transpose [2; 1; 0]%nat a)) a.
Proof. apply transpose_201_120. exact Hshape. Qed.

Lemma X6_witness :
  same (transpose [1; 2; 0]%nat (transpose [2; 0; 1]%nat (m3d_i S sample_model)))
       (m3d_i S sample_model).
Proof.
  destruct (X6_transposes_undo (m3d_i S sample_model) 20 3 2 eq_refl) as (_ & _ & H & _).
  exact H.
Defined.

(** X7: the decimation [[:, ::3]] of line 43 stays inside the loaded model.
    Column [x] of [m] is column [3 x] of the model, which exists; column 0
    is kept whenever there is one; at most the last two columns of the model
    are left out; an empty model gives an empty [m]. *)
Theorem X7_decimation_in_bounds {A : Type} (log : A -> A) (model : ndarray A)
    (nz0 nxf : nat) (Hshape : shape model = [nz0; nxf]) :
  let nx0 := Nat.div (nxf + 2) 3 in
  shape (m log model) = [nz0; nx0] /\
  (forall z x, in_range (shape (m log model)) [z; x] ->
     in_range (shape model) [z; (3 * x)%nat] /\
     item (m log model) [z; x] = log (item model [z; (3 * x)%nat])) /\
  (nx0 = 0%nat <-> nxf = 0%nat) /\
  (nxf <= 3 * nx0)%nat /\ (3 * nx0 <= nxf + 2)%nat.
Proof.
  intros nx0. pose proof (m_shape log model nz0 nxf Hshape) as Hm.
  assert (Hdiv : (3 * nx0 <= nxf + 2 < 3 * nx0 + 3)%nat).
  { subst nx0. pose proof (Nat.div_mod_eq (nxf + 2) 3).
    pose proof (Nat.mod_upper_bound (nxf + 2) 3). lia. }
  split; [exact Hm|]. split; [|lia].
  intros z x Hin. rewrite Hm in Hin. rewrite Hshape.
  destruct (in_range_2 _ _ _ Hin) as (z' & x' & Heq & Hz & Hx).
  injection Heq as <- <-. split; [|reflexivity].
  repeat constructor; [exact Hz|]. fold nx0 in Hx. lia.
Qed.

Lemma X7_witness :
  shape (m S sample_model) = [2; 3]%nat /\
  in_range (shape sample_model) [1; 6]%nat.
Proof.
  destruct (X7_decimation_in_bounds S sample_model 2 7 eq_refl) as (Hs & Hin & _).
  split; [exact Hs|]. apply (Hin 1%nat 2%nat). rewrite Hs. repeat constructor.
Defined.

Lemma eval_device_index (L : library) (st : state L) (r n : Z) :
  store L st !! "rank" = Some (VInt r) ->
  store L st !! "device_count" = Some (VInt n) ->
  eval L device_index st
  = (st, if n =? 0 then Raise (exn "ZeroDivisionError") else Ok (VInt (r mod n))).
Proof.
  intros Hr Hn. unfold device_index. cbn [eval]. unfold bind, lookup_name.
  rewrite Hr, Hn. cbn. destruct (n =? 0); reflexivity.
Qed.



Ltac step_respond :=
  match goal with
  | |- context [respond ?L ?s ?q] =>
      let s' := fresh "s" in let v := fresh "c" in let e := fresh "e" in
      let H := fresh "Hq" in
      destruct (respond L s q) as [s' [v|e]] eqn:H; cbn [lib store log fst snd]
  end.

(** X8: the CuPy script gives each process the GPU [rank % device_count]
    (line 33).  With [n > 0] devices the index lies in [0, n); ranks below
    [n] get a GPU each of their own; rank [r + n] shares the GPU of rank
    [r].  The statement passes nothing else to the library, and calls
    [Device] with this index as soon as [cp.cuda] and [.Device] are
    found. *)
Theorem X8_device_of_rank (L : library) (st : state L) (cpv : val) (r n : Z)
    (Hcp : store L st !! "cp" = Some cpv)
    (Hrank : store L st !! "rank" = Some (VInt r))
    (Hcount : store L st !! "device_count" = Some (VInt n))
    (Hr : 0 <= r) (Hn : 0 < n) :
  let g := r mod n in
  nth_error poststack_cupy 12 = Some device_stmt /\
  0 <= g < n /\
  (r < n -> g = r) /\
  (forall r', 0 <= r' < n -> r < n -> r' <> r -> r' mod n <> g) /\
  (r + n) mod n = g /\
  exists new, log L (fst (exec L device_stmt st)) = log L st ++ new /\
    (forall f args kw a, (QCall f args kw, a) ∈ new ->
       kw = [] /\ (args = [VInt g] \/ args = [])) /\
    (forall s1 c1 s2 c2,
       respond L (lib L st) (QGetAttr cpv "cuda") = (s1, Ok c1) ->
       respond L s1 (QGetAttr c1 "Device") = (s2, Ok c2) ->
       new !! 2%nat = Some (QCall c2 [VInt g] [], snd (respond L s2 (QCall c2 [VInt g] [])))).
Proof.
  intros g. split; [reflexivity|].
  split; [apply Z.mod_pos_bound; exact Hn|].
  split; [intros Hlt; apply Z.mod_small; lia|].
  split; [intros r' Hr' Hlt Hne; subst g; rewrite !Z.mod_small by lia; exact Hne|].
  split; [subst g; rewrite <- (Z.mul_1_l n) at 1; apply Z.mod_add; lia|].
  assert (Hn0 : (n =? 0) = false) by (apply Z.eqb_neq; lia).
  unfold device_stmt. cbn [exec eval mapM].
  unfold bind, lookup_name, ask, ret. rewrite Hcp.
  step_respond.
  2:{ eexists [_]. split; [reflexivity|]. split.
      - intros f args kw a Hin. apply list_elem_of_singleton in Hin. discriminate.
      - intros ? ? ? ? H1. discriminate. }
  step_respond.
  2:{ rewrite <- !app_assoc. cbn [app]. eexists [_; _]. split; [reflexivity|]. split.
      - intros f args kw a Hin. repeat (apply elem_of_cons in Hin as [Hin|Hin]; [discriminate|]).
        apply elem_of_nil in Hin. destruct Hin.
      - intros ? ? ? ? H1 H2. injection H1 as <- <-. rewrite Hq0 in H2. discriminate. }
  erewrite eval_device_index by (cbn [store]; eassumption). rewrite Hn0. fold g.
  cbn [lib store log fst snd].
  step_respond; [step_respond; [step_respond|]|];
    rewrite <- !app_assoc; cbn [app]; (eexists; split; [reflexivity|]); (split;
      [ intros f args kw a Hin;
        repeat (apply elem_of_cons in Hin as [Hin|Hin];
                [first [discriminate | injection Hin as -> -> -> ->; auto]|]);
        apply elem_of_nil in Hin; destruct Hin
      | intros ? ? ? ? H1 H2; injection H1 as <- <-; rewrite Hq0 in H2;
        injection H2 as <- <-; cbn [lookup list_lookup]; rewrite Hq1; reflexivity ]).
Qed.

Ltac by_evaluation := apply (bool_decide_unpack _); vm_compute; exact I.

(** X10: neither script reads a name before binding it.  Each name read at
    a statement is a builtin ([float], [print]) or is bound by an earlier
    statement on every path, so a run in which the library answered every
    call with a value does not end in a [NameError]. *)
Theorem X10_no_name_error (L : library) (s0 : lstate L) (script : list stmt)
    (Hscript : script ∈ [poststack_cupy; poststack_nccl])
    (Hanswers : Forall ok_entry (log L (fst (run L script s0)))) :
  snd (run L script s0) <> Raise (exn "NameError") /\
  scoped_block wellscoped ["float"; "print"] script = true.
Proof.
  assert (Hw : scoped_block wellscoped ["float"; "print"] script = true).
  { apply elem_of_cons in Hscript as [->|Hscript];
      [|apply list_elem_of_singleton in Hscript as ->]; vm_compute; reflexivity. }
  split; [|exact Hw]. apply run_blameless; assumption.
Qed.

Lemma X10_witness :
  snd (run (Demo.demo 0 2) poststack_nccl tt) <> Raise (exn "NameError").
Proof.
  refine (proj1 (X10_no_name_error (Demo.demo 0 2) tt poststack_nccl _ _)).
  - right. left.
  - by_evaluation.
Defined.

(** X9: on a machine without a GPU the cupy script stops at line 33.  If
    the statements before it ran and left [device_count] at [0], then
    [cp.cuda.Device(rank % device_count)] raises: the run ends with an
    exception after at most the two attribute reads [cp.cuda] and
    [cuda.Device], no call of [Device] is made, and when both reads were
    answered the exception is the [ZeroDivisionError] of [rank % 0]. *)
Theorem X9_no_gpu (L : library) (s0 : lstate L) (st1 : state L) (r : Z)
    (Hbefore : exec_block L (take 12 poststack_cupy) (State L builtins s0 []) = (st1, Ok tt))
    (Hrank : store L st1 !! "rank" = Some (VInt r))
    (Hcount : store L st1 !! "device_count" = Some (VInt 0)) :
  exists st' e new,
    run L poststack_cupy s0 = (st', Raise e) /\
    log L st' = log L st1 ++ new /\
    (length new <= 2)%nat /\
    Forall (fun qa => exists o a, fst qa = QGetAttr o a) new /\
    (Forall ok_entry new -> e = exn "ZeroDivisionError").
Proof.
  assert (Hcp : is_Some (store L st1 !! "cp")).
  { destruct (binds_block L (take 12 poststack_cupy) ["float"; "print"])
      with (st := State L builtins s0 []) as (_ & _ & Hs).
    - vm_compute. reflexivity.
    - repeat constructor; cbn [store]; eexists; reflexivity.
    - rewrite Hbefore in Hs. specialize (Hs tt eq_refl). cbn [fst] in Hs.
      unfold has in Hs. rewrite Forall_forall in Hs. apply Hs. by_evaluation. }
  destruct Hcp as [cpv Hcp].
  unfold run.
  change poststack_cupy with (take 12 poststack_cupy ++ device_stmt :: drop 13 poststack_cupy).
  rewrite exec_block_app. unfold bind at 1. rewrite Hbefore.
  rewrite exec_block_cons. unfold bind at 1.
  unfold device_stmt. cbn [exec eval mapM].
  unfold bind, lookup_name, ask, ret. rewrite Hcp.
  step_respond.
  2:{ eexists _, _, [_]. split; [reflexivity|]. split; [reflexivity|].
      split; [cbn; lia|]. split; [repeat constructor; cbn; eauto|].
      intros Hok. inversion Hok as [|? ? Ha _]; subst. destruct Ha. }
  step_respond.
  2:{ rewrite <- !app_assoc. cbn [app].
      eexists _, _, [_; _]. split; [reflexivity|]. split; [reflexivity|].
      split; [cbn; lia|]. split; [repeat constructor; cbn; eauto|].
      intros Hok. inversion Hok as [|? ? _ Hok']; subst.
      inversion Hok' as [|? ? Ha _]; subst. destruct Ha. }
  erewrite eval_device_index by (cbn [store]; eassumption).
  cbn [Z.eqb lib store log fst snd]. rewrite <- !app_assoc. cbn [app].
  eexists _, _, [_; _]. split; [reflexivity|]. split; [reflexivity|].
  split; [cbn; lia|]. split; [repeat constructor; cbn; eauto|].
  intros _. reflexivity.
Qed.

Lemma X9_witness :
  exists st' e new,
    run (Demo.no_gpu 3) poststack_cupy tt = (st', Raise e) /\
    log _ st' = log _ (fst (exec_block (Demo.no_gpu 3) (take 12 poststack_cupy)
                              (State (Demo.no_gpu 3) builtins tt []))) ++ new /\
    (length new <= 2)%nat /\
    Forall (fun qa => exists o a, fst qa = QGetAttr o a) new /\
    (Forall ok_entry new -> e = exn "ZeroDivisionError").
Proof.
  refine (X9_no_gpu (Demo.no_gpu 3) tt _ 3 _ _ _).
  - vm_compute. reflexivity.
  - vm_compute. reflexivity.
  - vm_compute. reflexivity.
Defined.

Lemma X8_witness :
  let st := State (Demo.demo 5 8)
              (<["cp" := VObj "module" []]>
                 (<["rank" := VInt 5]> (<["device_count" := VInt 4]> ∅))) tt [] in
  5 mod 4 = 1 /\
  exists new, log _ (fst (exec (Demo.demo 5 8) device_stmt st)) = new /\
    new !! 2%nat = Some (QCall (VObj "attr" [VStr "Device"]) [VInt 1] [],
                          Ok (VObj "value" [])).
Proof.
  intros st.
  destruct (X8_device_of_rank (Demo.demo 5 8) st (VObj "module" []) 5 4)
    as (_ & _ & _ & _ & _ & new & Hlog & _ & Hcall); try reflexivity; try lia.
  split; [reflexivity|]. exists new. split; [exact Hlog|].
  exact (Hcall tt _ tt _ eq_refl eq_refl).
Defined.

(** X11: in either script the [if rank == 0:] block contains no call in
    which the ranks take part together: no call of [MPI] or [pylops_mpi]
    and no [x.asarray()], and it reads neither [MPI], [pylops_mpi] nor
    [nccl_comm].  The collectives ([allreduce], two [allgather], five
    [asarray()], the constructions and the solvers) all stand before the
    block, and the calls of the statements before the block come first in
    the log of every run, whatever the rank. *)
Theorem X11_collectives_before_the_if :
  Forall (fun script =>
    collective_calls (rank0_block script) = [] /\
    Forall (fun x => x ∉ flat_map loads (rank0_block script))
           ["MPI"; "pylops_mpi"; "nccl_comm"] /\
    List.filter (fun p => bool_decide (head p = Some "MPI"))
                (omap callee (collective_calls (before_if script)))
    = [ ["MPI"; "COMM_WORLD"; "Get_rank"]; ["MPI"; "COMM_WORLD"; "allreduce"];
        ["MPI"; "COMM_WORLD"; "allgather"]; ["MPI"; "COMM_WORLD"; "allgather"] ] /\
    List.filter (fun p => bool_decide (last p = Some "asarray"))
                (omap callee (collective_calls (before_if script)))
    = [ ["d_dist"; "asarray"]; ["d_dist"; "asarray"]; ["minv3d_iter_dist"; "asarray"];
        ["minv3d_ne_dist"; "asarray"]; ["minv3d_reg_dist"; "asarray"] ] /\
    (forall (L : library) (s0 : lstate L),
       exists new, log L (fst (run L script s0))
                   = log L (fst (run L (before_if script) s0)) ++ new))
    [poststack_cupy; poststack_nccl].
Proof.
  apply Forall_cons; split; [|apply Forall_cons; split; [|apply Forall_nil_2]].
  - split; [vm_compute; reflexivity|]. split; [by_evaluation|].
    split; [vm_compute; reflexivity|]. split; [vm_compute; reflexivity|].
    intros L s0. exact (run_log_prefix L poststack_cupy 57 s0).
  - split; [vm_compute; reflexivity|]. split; [by_evaluation|].
    split; [vm_compute; reflexivity|]. split; [vm_compute; reflexivity|].
    intros L s0. exact (run_log_prefix L poststack_nccl 56 s0).
Qed.

(** X12: the operators are given the dimensions of the volumes they are
    applied to.  [PPop] is built with [nt0=nz, spatdims=(ny_i, nx)] and
    [Top] transposes [(ny_i, nx, nz)] by [(2, 0, 1)]: a tile transposed so
    has shape [(nz, ny_i, nx)].  [PPop0] is built with
    [nt0=nz, spatdims=(ny, nx)] and is applied to [m3d.transpose(2, 0, 1)],
    of shape [(nz, ny, nx)]. *)
Theorem X12_operator_dimensions {A : Type} (log : A -> A)
    (models : list (ndarray A)) (nz0 nxf : nat)
    (Hranks : models <> [])
    (Hshape : Forall (fun a => shape a = [nz0; nxf]) models) :
  Forall (fun model =>
    shape (transpose [2; 0; 1]%nat (m3d_i log model))
    = [nz log model; ny_i log model; nx log model] /\
    exists a, m3d log models = Some a /\
      shape (transpose [2; 0; 1]%nat a) = [nz log model; ny log models; nx log model])
    models /\
  Forall (fun script =>
    map (fun e => (callee e, keyword "nt0" e, keyword "spatdims" e))
        (definitions "PPop" script)
    = [(Some ["PoststackLinearModelling"], Some $"nz", Some (ETuple [$"ny_i"; $"nx"]))] /\
    definitions "Top" script
    = [ECall $"Transpose" [ETuple [$"ny_i"; $"nx"; $"nz"];
                           ETuple [EInt 2; EInt 0; EInt 1]] []] /\
    map (fun e => (callee e, keyword "nt0" e, keyword "spatdims" e))
        (definitions "PPop0" (rank0_block script))
    = [(Some ["PoststackLinearModelling"], Some $"nz", Some (ETuple [$"ny"; $"nx"]))] /\
    definitions "d0" (rank0_block script) = [local_data])
    [poststack_cupy; poststack_nccl].
Proof.
  split.
  - destruct (concatenate_blocks (map (m3d_i log) models) 20%nat
                [Nat.div (nxf + 2) 3; nz0]) as (a & Ha & Hsa & _).
    { destruct models; [congruence|discriminate]. }
    { apply Forall_map. eapply Forall_impl; [exact Hshape|]. cbn beta.
      intros model Hm. apply m3d_i_shape. exact Hm. }
    pose proof (ny_total log models nz0 nxf Hshape) as Hny.
    apply Forall_forall. intros model Hin. rewrite Forall_forall in Hshape.
    pose proof (m3d_i_shape log model _ _ (Hshape model Hin)) as H3.
    unfold nz, ny_i, nx. split.
    + unfold transpose at 1. cbn [shape map]. rewrite H3. reflexivity.
    + exists a. split; [exact Ha|]. unfold transpose at 1. cbn [shape map].
      rewrite Hsa, H3, Hny, length_map. cbn [nth]. f_equal. f_equal. lia.
  - apply Forall_cons; split; [|apply Forall_cons; split; [|apply Forall_nil_2]];
      repeat split; vm_compute; reflexivity.
Qed.

Lemma X12_witness :
  shape (transpose [2; 0; 1]%nat (m3d_i S sample_model)) = [2; 20; 3]%nat.
Proof.
  destruct (X12_operator_dimensions S [sample_model] 2 7) as [H _].
  - discriminate.
  - repeat constructor.
  - apply Forall_cons in H as [[H _] _]. exact H.
Defined.

End Extras.

(** ** Runs against the stand-in library *)

Module Examples.
Import Python Scripts Structure Numpy Demo.

(** On rank 0 of 2 both scripts run to the end; [ny] is 40. *)
Example cupy_rank0 :
  let out := run (demo 0 2) poststack_cupy tt in
  (snd out, length (log _ (fst out)), store _ (fst out) !! "ny")
  = (Ok tt, 530%nat, Some (VInt 40)).
Proof. vm_compute. reflexivity. Qed.

Example nccl_rank0 :
  let out := run (demo 0 2) poststack_nccl tt in
  (snd out, length (log _ (fst out)), store _ (fst out) !! "ny")
  = (Ok tt, 518%nat, Some (VInt 40)).
Proof. vm_compute. reflexivity. Qed.

(** On rank 0 the two comparison lines are printed before [plt.subplots]
    is called; on rank 1 nothing is printed or drawn and the run is
    shorter. *)
Example cupy_rank0_output :
  let calls := log _ (fst (run (demo 0 2) poststack_cupy tt)) in
  (positions calls_print calls 0, positions (calls_method "subplots") calls 0,
   length (positions (calls_method "imshow") calls 0))
  = ([186; 191]%nat, [193]%nat, 18%nat).
Proof. vm_compute. reflexivity. Qed.

Example cupy_rank1_output :
  let out := run (demo 1 2) poststack_cupy tt in
  let calls := log _ (fst out) in
  (snd out, length calls, positions calls_print calls 0,
   positions (calls_method "subplots") calls 0, positions (calls_method "imshow") calls 0)
  = (Ok tt, 171%nat, [], [], []).
Proof. vm_compute. reflexivity. Qed.

(** When the input file cannot be loaded the run ends with the exception
    of [np.load], which is the last call made. *)
Example nccl_no_file :
  let out := run no_file poststack_nccl tt in
  (snd out, last (log _ (fst out)))
  = (Raise (exn "FileNotFoundError"),
     Some (QCall (VObj "attr" [VStr "load"]) [VStr "../testdata/avo/poststack_model.npz"] [],
           Raise (exn "FileNotFoundError"))).
Proof. vm_compute. reflexivity. Qed.

(** The three solvers are called in the order [cgls], [cg], [cgls]. *)
Example cupy_solver_order :
  let calls := log _ (fst (run (demo 0 2) poststack_cupy tt)) in
  (positions (calls_method "cgls") calls 0, positions (calls_method "cg") calls 0)
  = ([124; 165]%nat, [144]%nat).
Proof. vm_compute. reflexivity. Qed.

(** The arrays of lines 43-68 on the 2 x 7 sample, three ranks. *)
Example sample_m : (shape (m S sample_model), flatten (m S sample_model))
                   = ([2; 3]%nat, [1; 4; 7; 11; 14; 17]%nat).
Proof. reflexivity. Qed.

Example sample_m3d_i :
  (shape (m3d_i S sample_model), flatten <$> getitem0 3 (m3d_i S sample_model),
   flatten (T (m S sample_model)))
  = ([20; 3; 2]%nat, Some [1; 11; 4; 14; 7; 17]%nat, [1; 11; 4; 14; 7; 17]%nat).
Proof. vm_compute. reflexivity. Qed.

Example sample_m3d :
  let models := [sample_model; sample_model; sample_model] in
  (ny S models, shape <$> m3d S models, global_shape S models sample_model)
  = (60%nat, Some [60; 3; 2]%nat, 360%nat).
Proof. vm_compute. reflexivity. Qed.

End Examples.
